(** * NYC hiring audit: the fuzzy-matching reconciliation engine

    A shallow embedding of the matching code of
    [data_processing/jobs_nyc_posting_processor.py] and
    [data_processing/lighthouse_processor.py], together with the part of
    Python's [difflib.SequenceMatcher] that both files call through
    [SequenceMatcher(None, x, y).ratio()].

    Around the matching code, the development also embeds what feeds it
    and what reads its results: the payroll processor
    ([data_processing/citywide_payroll_processor.py]), the column names and
    the salary categories of the lighthouse processor, the posting
    durations, the fetching of the postings
    ([data_acquisition/jobs_nyc_posting.py]), the file names and the cache
    of raw files ([data_acquisition/lighthouse_data.py],
    [base_pipeline.py]), the loaders and the statistics of the
    orchestration ([airflow/dags/nyc_hiring_audit_dag.py]) and the
    validation script ([airflow/scripts/validation_scripts.py]).

    Conventions of the embedding.
    - A Python [str] is a [list ascii]; the character tables below cover the
      ASCII repertoire, and take the code points above 127 for symbols.
    - Python [dict]s are association lists in insertion order.
    - Scores and salaries are exact rationals ([Q]): [ratio] is the fraction
      [2*M/T] that the floating-point division of the source rounds.
    - [None] is [option]'s [None], and so is a null of a polars column;
      a comparison with a null is null, and [pl.when] does not take the
      branch of a null condition. *)

From Stdlib Require Import Ascii String.
From Stdlib Require Import List Arith PeanoNat Lia Bool.
From Stdlib Require Import ZArith QArith Sorted.
Import ListNotations.

Local Open Scope nat_scope.

Definition str := list ascii.

(** String literals of the examples. *)
Definition lit (x : string) : str := list_ascii_of_string x.

(** ** Association lists standing for Python dictionaries *)

Section Dict.
Context {K V : Type} (keq : K -> K -> bool).

Fixpoint dict_get (d : list (K * V)) (x : K) : option V :=
  match d with
  | [] => None
  | (k, v) :: d' => if keq k x then Some v else dict_get d' x
  end.

Definition dict_keys (d : list (K * V)) : list K := map fst d.

(** [d[x] = f(d.get(x))] for a key that may be new: an existing key keeps
    its position, a new key goes last. *)
Fixpoint dict_upsert (d : list (K * V)) (x : K) (f : option V -> V) : list (K * V) :=
  match d with
  | [] => [(x, f None)]
  | (k, v) :: d' =>
      if keq k x then (k, f (Some v)) :: d'
      else (k, v) :: dict_upsert d' x f
  end.
End Dict.

(** ** difflib.SequenceMatcher *)

Module Difflib.

(** [Match(a, b, size)] *)
Record Match := mkMatch { m_a : nat; m_b : nat; m_size : nat }.

Definition b2j_t := list (ascii * list nat).

(** [indices = b2j.setdefault(elt, []); indices.append(i)] *)
Definition setdefault_append (b2j : b2j_t) (elt : ascii) (i : nat) : b2j_t :=
  dict_upsert Ascii.eqb b2j elt
    (fun o => match o with Some idxs => idxs ++ [i] | None => [i] end).

(** [for i, elt in enumerate(b): ...] *)
Fixpoint chain_b_fill (b : str) (i : nat) (b2j : b2j_t) : b2j_t :=
  match b with
  | [] => b2j
  | elt :: b' => chain_b_fill b' (S i) (setdefault_append b2j elt i)
  end.

(** [__chain_b] with [isjunk=None] and [autojunk=True]: no junk, and the
    popular elements of a [b] of 200 elements or more are purged. *)
Definition chain_b (b : str) : b2j_t :=
  let b2j := chain_b_fill b 0 [] in
  let n := length b in
  if 200 <=? n then
    let ntest := n / 100 + 1 in
    filter (fun e => negb (ntest <? length (snd e))) b2j
  else b2j.

(** [b2j.get(x, nothing)] *)
Definition b2j_get (b2j : b2j_t) (x : ascii) : list nat :=
  match dict_get Ascii.eqb b2j x with
  | Some idxs => idxs
  | None => []
  end.

(** [self.bjunk.__contains__]: the junk set is empty. *)
Definition isbjunk (x : ascii) : bool := false.

Definition j2len_t := list (nat * nat).

(** [j2lenget(j-1, 0)]: no key is negative, so [j = 0] finds nothing. *)
Definition j2lenget_pred (j2len : j2len_t) (j : nat) : nat :=
  match j with
  | 0 => 0
  | S j' => match dict_get Nat.eqb j2len j' with Some k => k | None => 0 end
  end.

(** The inner loop [for j in b2j.get(a[i], nothing)], with its [continue]
    and [break].  [i-k+1] is written [i+1-k]: [k] never exceeds [i+1]. *)
Fixpoint flm_inner (blo bhi i : nat) (j2len : j2len_t) (js : list nat)
    (newj2len : j2len_t) (best : Match) : j2len_t * Match :=
  match js with
  | [] => (newj2len, best)
  | j :: js' =>
      if j <? blo then flm_inner blo bhi i j2len js' newj2len best
      else if bhi <=? j then (newj2len, best)
      else
        let k := j2lenget_pred j2len j + 1 in
        let newj2len' := (j, k) :: newj2len in
        let best' := if m_size best <? k
                     then mkMatch (i + 1 - k) (j + 1 - k) k else best in
        flm_inner blo bhi i j2len js' newj2len' best'
  end.

(** The outer loop [for i in range(alo, ahi)]. *)
Fixpoint flm_outer (a : str) (b2j : b2j_t) (blo bhi : nat) (rng : list nat)
    (j2len : j2len_t) (best : Match) : Match :=
  match rng with
  | [] => best
  | i :: rng' =>
      let js := match nth_error a i with
                | Some x => b2j_get b2j x
                | None => []
                end in
      let '(newj2len, best') := flm_inner blo bhi i j2len js [] best in
      flm_outer a b2j blo bhi rng' newj2len best'
  end.

(** [x == y] on two elements that exist. *)
Definition elt_eqb (x y : option ascii) : bool :=
  match x, y with
  | Some c, Some d => Ascii.eqb c d
  | _, _ => false
  end.

Definition junk_is (want : bool) (x : option ascii) : bool :=
  match x with
  | Some c => Bool.eqb (isbjunk c) want
  | None => false
  end.

(** [while besti > alo and bestj > blo and (not) isbjunk(b[bestj-1]) and
    a[besti-1] == b[bestj-1]]: the recursion is on [besti], which the loop
    decrements. *)
Fixpoint extend_back (a b : str) (alo blo : nat) (want : bool)
    (besti bestj bestsize : nat) : Match :=
  match besti with
  | 0 => mkMatch besti bestj bestsize
  | S i' =>
      if (alo <? besti) && (blo <? bestj)
         && junk_is want (nth_error b (bestj - 1))
         && elt_eqb (nth_error a i') (nth_error b (bestj - 1))
      then extend_back a b alo blo want i' (bestj - 1) (bestsize + 1)
      else mkMatch besti bestj bestsize
  end.

(** [while besti+bestsize < ahi and bestj+bestsize < bhi and (not)
    isbjunk(b[bestj+bestsize]) and a[besti+bestsize] == b[bestj+bestsize]]:
    the recursion is on the gap [ahi - (besti+bestsize)], which the loop
    closes. *)
Fixpoint extend_fwd (a b : str) (bhi : nat) (want : bool)
    (gap besti bestj bestsize : nat) : Match :=
  match gap with
  | 0 => mkMatch besti bestj bestsize
  | S gap' =>
      if (bestj + bestsize <? bhi)
         && junk_is want (nth_error b (bestj + bestsize))
         && elt_eqb (nth_error a (besti + bestsize)) (nth_error b (bestj + bestsize))
      then extend_fwd a b bhi want gap' besti bestj (bestsize + 1)
      else mkMatch besti bestj bestsize
  end.

Definition extend (a b : str) (alo ahi blo bhi : nat) (want : bool) (m : Match) : Match :=
  let m1 := extend_back a b alo blo want (m_a m) (m_b m) (m_size m) in
  extend_fwd a b bhi want (ahi - (m_a m1 + m_size m1)) (m_a m1) (m_b m1) (m_size m1).

(** [find_longest_match(alo, ahi, blo, bhi)] *)
Definition find_longest_match (a b : str) (b2j : b2j_t) (alo ahi blo bhi : nat) : Match :=
  let best := flm_outer a b2j blo bhi (seq alo (ahi - alo)) [] (mkMatch alo blo 0) in
  let best := extend a b alo ahi blo bhi false best in
  extend a b alo ahi blo bhi true best.

Definition range4 := (nat * nat * nat * nat)%type.

(** The loop [while queue:] of [get_matching_blocks]; [queue.pop()] takes
    the last element, so the queue is kept with its last element first.
    [None] when the fuel runs out before the queue is empty. *)
Fixpoint gmb_loop (a b : str) (b2j : b2j_t) (fuel : nat) (queue : list range4)
    (matching_blocks : list Match) : option (list Match) :=
  match queue with
  | [] => Some matching_blocks
  | (alo, ahi, blo, bhi) :: queue' =>
      match fuel with
      | 0 => None
      | S fuel' =>
          let x := find_longest_match a b b2j alo ahi blo bhi in
          let i := m_a x in let j := m_b x in let k := m_size x in
          if k =? 0 then gmb_loop a b b2j fuel' queue' matching_blocks
          else
            let q1 := if (alo <? i) && (blo <? j)
                      then (alo, i, blo, j) :: queue' else queue' in
            let q2 := if (i + k <? ahi) && (j + k <? bhi)
                      then (i + k, ahi, j + k, bhi) :: q1 else q1 in
            gmb_loop a b b2j fuel' q2 (matching_blocks ++ [x])
      end
  end.

(** Tuple order of [matching_blocks.sort()]. *)
Definition match_leb (x y : Match) : bool :=
  if m_a x <? m_a y then true
  else if m_a y <? m_a x then false
  else if m_b x <? m_b y then true
  else if m_b y <? m_b x then false
  else m_size x <=? m_size y.

Fixpoint insert_block (x : Match) (l : list Match) : list Match :=
  match l with
  | [] => [x]
  | y :: l' => if match_leb x y then x :: l else y :: insert_block x l'
  end.

Fixpoint sort_blocks (l : list Match) : list Match :=
  match l with
  | [] => []
  | x :: l' => insert_block x (sort_blocks l')
  end.

(** The loop that collapses adjacent blocks. *)
Fixpoint collapse (blocks : list Match) (i1 j1 k1 : nat) (non_adjacent : list Match)
    : list Match :=
  match blocks with
  | [] => if k1 =? 0 then non_adjacent else non_adjacent ++ [mkMatch i1 j1 k1]
  | x :: blocks' =>
      if (i1 + k1 =? m_a x) && (j1 + k1 =? m_b x)
      then collapse blocks' i1 j1 (k1 + m_size x) non_adjacent
      else
        collapse blocks' (m_a x) (m_b x) (m_size x)
          (if k1 =? 0 then non_adjacent else non_adjacent ++ [mkMatch i1 j1 k1])
  end.

(** [get_matching_blocks()]; every popped range pushes strictly less than
    it held, so [2*la+1] steps empty the queue ([gmb_loop_terminates]). *)
Definition get_matching_blocks (a b : str) : option (list Match) :=
  let la := length a in
  let lb := length b in
  match gmb_loop a b (chain_b b) (2 * la + 1) [(0, la, 0, lb)] [] with
  | None => None
  | Some matching_blocks =>
      Some (collapse (sort_blocks matching_blocks) 0 0 0 [] ++ [mkMatch la lb 0])
  end.

Definition sum_sizes (l : list Match) : nat :=
  fold_right (fun x acc => m_size x + acc) 0 l.

(** [_calculate_ratio(matches, length)] *)
Definition calculate_ratio (matches length : nat) : Q :=
  if length =? 0 then 1%Q
  else (Z.of_nat (2 * matches) # Pos.of_nat length)%Q.

(** [SequenceMatcher(None, a, b).ratio()] *)
Definition ratio_opt (a b : str) : option Q :=
  match get_matching_blocks a b with
  | Some blocks => Some (calculate_ratio (sum_sizes blocks) (length a + length b))
  | None => None
  end.

End Difflib.

Import Difflib.

(** [SequenceMatcher(None, a, b).ratio()] as a number; [ratio_total] shows
    that the [None] branch is never taken. *)
Definition ratio (a b : str) : Q :=
  match ratio_opt a b with
  | Some q => q
  | None => 0%Q
  end.

(** ** Characters and the two normalizers *)

Definition code (c : ascii) : nat := nat_of_ascii c.

Definition in_range (lo hi : nat) (c : ascii) : bool :=
  (lo <=? code c) && (code c <=? hi).

(** [str.isspace], [str.isalnum] and [str.lower] of Python on ASCII. *)
Definition py_isspace (c : ascii) : bool := in_range 9 13 c || in_range 28 32 c.

Definition py_isalnum (c : ascii) : bool :=
  in_range 48 57 c || in_range 65 90 c || in_range 97 122 c.

Definition lower_char (c : ascii) : ascii :=
  if in_range 65 90 c then ascii_of_nat (code c + 32) else c.

(** The classes [\s] and [\w] of the regular expressions polars runs, and
    the white space [strip_chars()] removes, on ASCII. *)
Definition re_space (c : ascii) : bool := in_range 9 13 c || (code c =? 32).

Definition re_word (c : ascii) : bool := py_isalnum c || (code c =? 95).

Definition underscore : ascii := "_"%char.

Definition lower (x : str) : str := map lower_char x.

Fixpoint lstrip (sp : ascii -> bool) (x : str) : str :=
  match x with
  | [] => []
  | c :: x' => if sp c then lstrip sp x' else x
  end.

Definition strip (sp : ascii -> bool) (x : str) : str :=
  rev (lstrip sp (rev (lstrip sp x))).

(** [x.split()]: the maximal runs of characters that are not white space;
    [cur] is the run being read. *)
Fixpoint split_from (x : str) (cur : str) : list str :=
  match x with
  | [] => match cur with [] => [] | _ => [cur] end
  | c :: x' =>
      if py_isspace c
      then match cur with
           | [] => split_from x' []
           | _ => cur :: split_from x' []
           end
      else split_from x' (cur ++ [c])
  end.

Definition split (x : str) : list str := split_from x [].

(** [sep.join(words)] *)
Fixpoint join (sep : str) (words : list str) : str :=
  match words with
  | [] => []
  | [w] => w
  | w :: ws => w ++ sep ++ join sep ws
  end.

(** The cleaning of lighthouse_processor.py, lines 286-288 and 311-313:
    [str(t).lower().strip()], keep [isalnum() or isspace()],
    ['_'.join(t.split())]. *)
Definition clean_title (t : str) : str :=
  let t1 := strip py_isspace (lower t) in
  let t2 := filter (fun c => py_isalnum c || py_isspace c) t1 in
  join [underscore] (split t2).

(** [.str.replace_all(r'[^\w\s]', '')] *)
Definition remove_special (x : str) : str :=
  filter (fun c => re_word c || re_space c) x.

(** [.str.replace_all(r'\s+', '_')]; [in_run] tells that the previous
    character belonged to the run being replaced. *)
Fixpoint replace_spaces (x : str) (in_run : bool) : str :=
  match x with
  | [] => []
  | c :: x' =>
      if re_space c
      then if in_run then replace_spaces x' true
           else underscore :: replace_spaces x' true
      else c :: replace_spaces x' false
  end.

(** [.str.to_lowercase().str.strip_chars()] *)
Definition lower_strip (x : str) : str := strip re_space (lower x).

(** [create_fuzzy_matching_string] of the job postings (and, with the same
    expression, of the payroll rows): null when a field is null. *)
Definition create_fuzzy_matching_string (agency business_title : option str) : option str :=
  match agency, business_title with
  | Some ag, Some bt =>
      Some (replace_spaces
              (remove_special (lower_strip ag ++ [underscore] ++ lower_strip bt)) false)
  | _, _ => None
  end.

(** The column [lighthouse_fuzzy_match_string] of [create_analysis_columns]:
    the same chain on the single field [lighthouse_job_title]. *)
Definition lighthouse_fuzzy_match_string (job_title : str) : str :=
  replace_spaces (remove_special (lower_strip job_title)) false.

(** ** Rows, truthiness and comparisons *)

Fixpoint str_eqb (x y : str) : bool :=
  match x, y with
  | [], [] => true
  | c :: x', d :: y' => Ascii.eqb c d && str_eqb x' y'
  | _, _ => false
  end.

(** [if x:] on a string, and on a value that is a string or [None] *)
Definition nonempty (x : str) : bool :=
  match x with [] => false | _ :: _ => true end.

Definition truthy (x : option str) : bool :=
  match x with Some (_ :: _) => true | _ => false end.

(** [x < y] and [x <= y] on numbers *)
Definition Qltb (x y : Q) : bool := negb (Qle_bool y x).
Definition Qleb (x y : Q) : bool := Qle_bool x y.

Record JobRow := mkJobRow {
  job_id : nat;
  agency : option str;
  business_title : option str;
  posting_duration_days : option Q;
  fuzzy_match_string : option str
}.

Record PayrollRow := mkPayrollRow {
  payroll_fuzzy_match_string : option str;
  salary_min : option Q;
  salary_max : option Q
}.

(** ** The payroll pass (jobs_nyc_posting_processor.py) *)

Definition salary_lists := list (str * (list Q * list Q)).

(** One iteration of the loop over [payroll_df.iter_rows(named=True)]. *)
Definition lookup_add (d : salary_lists) (row : PayrollRow) : salary_lists :=
  match payroll_fuzzy_match_string row, salary_min row, salary_max row with
  | Some fuzzy_string, Some smin, Some smax =>
      if nonempty fuzzy_string
      then dict_upsert str_eqb d fuzzy_string
             (fun o => match o with
                       | None => ([smin], [smax])
                       | Some (mins, maxs) => (mins ++ [smin], maxs ++ [smax])
                       end)
      else d
  | _, _, _ => d
  end.

(** [sum(l)] and [sum(l) / len(l)] *)
Definition sumQ (l : list Q) : Q := fold_left Qplus l 0%Q.

Definition average (l : list Q) : Q :=
  (sumQ l / inject_Z (Z.of_nat (length l)))%Q.

Definition salary_lookup := list (str * (Q * Q)).

(** [payroll_salary_lookup] after both loops: the lists, then their
    averages under the same keys. *)
Definition payroll_salary_lookup (rows : list PayrollRow) : salary_lookup :=
  map (fun e => (fst e, (average (fst (snd e)), average (snd (snd e)))))
      (fold_left lookup_add rows []).

Inductive outcome (A : Type) : Type :=
| Returned (x : A)
| KeyError.
Arguments Returned {A} x.
Arguments KeyError {A}.

Definition match_tuple := (option str * option Q * option Q * option Q)%type.

Definition no_match : match_tuple := (None, None, None, None).

(** The body of [for payroll_string in payroll_fuzzy_strings]. *)
Definition payroll_step (job_fuzzy_string : str) (st : option str * Q)
    (payroll_string : str) : option str * Q :=
  if nonempty payroll_string then
    let score := ratio job_fuzzy_string payroll_string in
    if Qltb (snd st) score then (Some payroll_string, score) else st
  else st.

(** [find_best_match_with_salary], its literal [0.85] taken as the
    parameter [threshold].  [payroll_salary_lookup[best_match]] raises
    [KeyError] on a key that is not there, [None] included. *)
Definition find_best_match_with_salary_at (threshold : Q) (lookup : salary_lookup)
    (job_fuzzy_string : option str) : outcome match_tuple :=
  match job_fuzzy_string with
  | None | Some [] => Returned no_match
  | Some job =>
      let payroll_fuzzy_strings := dict_keys lookup in
      let '(best_match, best_score) :=
        fold_left (payroll_step job) payroll_fuzzy_strings (None, 0%Q) in
      if Qleb threshold best_score then
        match best_match with
        | Some m =>
            match dict_get str_eqb lookup m with
            | Some (avg_min, avg_max) =>
                Returned (Some m, Some best_score, Some avg_min, Some avg_max)
            | None => KeyError
            end
        | None => KeyError
        end
      else Returned no_match
  end.

Definition payroll_threshold : Q := 85 # 100.

Definition find_best_match_with_salary := find_best_match_with_salary_at payroll_threshold.

Record MatchedJob := mkMatchedJob {
  posting : JobRow;
  best_payroll_match : option str;
  best_match_score : option Q;
  payroll_salary_min : option Q;
  payroll_salary_max : option Q
}.

Definition with_match (row : JobRow) (m : match_tuple) : MatchedJob :=
  let '(bm, sc, smin, smax) := m in mkMatchedJob row bm sc smin smax.

(** The list comprehension over the left keys: the first exception ends it. *)
Fixpoint collect {A : Type} (l : list (outcome A)) : outcome (list A) :=
  match l with
  | [] => Returned []
  | KeyError :: _ => KeyError
  | Returned x :: l' =>
      match collect l' with
      | Returned xs => Returned (x :: xs)
      | KeyError => KeyError
      end
  end.

(** [calculate_fuzzy_matches_with_payroll]: [payroll] is [None] when no
    processed payroll file exists; the [except] branch and the missing
    file both fill the four columns with [None]. *)
Definition calculate_fuzzy_matches_with_payroll_at (threshold : Q)
    (payroll : option (list PayrollRow)) (df : list JobRow) : list MatchedJob :=
  match payroll with
  | None => map (fun row => with_match row no_match) df
  | Some payroll_df =>
      let lookup := payroll_salary_lookup payroll_df in
      let resolve row :=
        find_best_match_with_salary_at threshold lookup (fuzzy_match_string row) in
      match collect (map resolve df) with
      | Returned matches_scores_salaries =>
          map (fun p => with_match (fst p) (snd p)) (combine df matches_scores_salaries)
      | KeyError => map (fun row => with_match row no_match) df
      end
  end.

Definition calculate_fuzzy_matches_with_payroll :=
  calculate_fuzzy_matches_with_payroll_at payroll_threshold.

(** ** The lighthouse pass (lighthouse_processor.py) *)

Record LighthouseRow := mkLighthouseRow {
  lighthouse_job_title : option str;
  lighthouse_median_posting_duration : option Q;
  lighthouse_total_postings : option Q;
  lighthouse_median_salary : option Q;
  lighthouse_top_skills : option str;
  lighthouse_education_requirements : option str;
  lighthouse_experience_level : option str;
  lighthouse_salary_category : option str;
  lighthouse_posting_intensity : option Q
}.

(** The value stored under a cleaned title. *)
Record LighthouseData := mkLighthouseData {
  original_title : str;
  median_duration : option Q;
  total_postings : option Q;
  median_salary : option Q;
  top_skills : option str;
  education_requirements : option str;
  experience_level : option str;
  salary_category : option str;
  posting_intensity : option Q
}.

Definition lighthouse_lookup_t := list (str * LighthouseData).

(** One iteration of the loop that fills [lighthouse_lookup]: a later row
    with the same cleaned title replaces the value. *)
Definition lighthouse_lookup_add (d : lighthouse_lookup_t) (row : LighthouseRow)
    : lighthouse_lookup_t :=
  match lighthouse_job_title row with
  | None | Some [] => d
  | Some job_title =>
      dict_upsert str_eqb d (clean_title job_title)
        (fun _ => mkLighthouseData job_title
                    (lighthouse_median_posting_duration row)
                    (lighthouse_total_postings row)
                    (lighthouse_median_salary row)
                    (lighthouse_top_skills row)
                    (lighthouse_education_requirements row)
                    (lighthouse_experience_level row)
                    (lighthouse_salary_category row)
                    (lighthouse_posting_intensity row))
  end.

Definition lighthouse_lookup (rows : list LighthouseRow) : lighthouse_lookup_t :=
  fold_left lighthouse_lookup_add rows [].

(** [best_data] is a dictionary: [None] stands for the empty [{}]. *)
Definition lighthouse_state := (option str * Q * option LighthouseData)%type.

(** The body of [for lighthouse_title in lighthouse_titles];
    [lighthouse_lookup[lighthouse_title]] reads a key of the dictionary
    itself. *)
Definition lighthouse_step (lookup : lighthouse_lookup_t) (match_threshold : Q)
    (clean_business_title : str) (st : lighthouse_state) (lighthouse_title : str)
    : lighthouse_state :=
  if nonempty lighthouse_title then
    let score := ratio clean_business_title lighthouse_title in
    if Qltb (snd (fst st)) score && Qleb match_threshold score
    then (Some lighthouse_title, score, dict_get str_eqb lookup lighthouse_title)
    else st
  else st.

(** [find_best_lighthouse_match(business_title, match_threshold)] *)
Definition find_best_lighthouse_match (lookup : lighthouse_lookup_t)
    (business_title : option str) (match_threshold : Q) : lighthouse_state :=
  match business_title with
  | None | Some [] => (None, 0%Q, None)
  | Some bt =>
      fold_left (lighthouse_step lookup match_threshold (clean_title bt))
        (dict_keys lookup) (None, 0%Q, None)
  end.

(** The default [match_threshold=0.7], which the driver never overrides. *)
Definition lighthouse_threshold : Q := 7 # 10.

(** [lighthouse_data.get(field) if best_match else None] *)
Definition promoted {A : Type} (best_match : option str)
    (lighthouse_data : option LighthouseData) (field : LighthouseData -> option A)
    : option A :=
  if truthy best_match then
    match lighthouse_data with
    | Some d => field d
    | None => None
    end
  else None.

(** Lines 352-360: the duration comparison. *)
Definition duration_comparison (actual expected : option Q) : option Q * option Q :=
  match actual, expected with
  | Some actual_duration, Some expected_duration =>
      (Some (actual_duration - expected_duration)%Q,
       if Qltb 0%Q expected_duration
       then Some ((actual_duration - expected_duration) / expected_duration * 100)%Q
       else None)
  | _, _ => (None, None)
  end.

Record CombinedRow := mkCombinedRow {
  job_posting : JobRow;
  lighthouse_match_title : option str;
  lighthouse_match_score : option Q;
  matched_median_posting_duration : option Q;
  matched_total_postings : option Q;
  matched_median_salary : option Q;
  matched_top_skills : option str;
  matched_education_requirements : option str;
  matched_experience_level : option str;
  matched_salary_category : option str;
  matched_posting_intensity : option Q;
  duration_variance : option Q;
  duration_variance_pct : option Q
}.

(** The body of [for row in jobs_processed.iter_rows(named=True)]. *)
Definition combine_row (lookup : lighthouse_lookup_t) (match_threshold : Q) (row : JobRow)
    : CombinedRow :=
  let '(best_match, match_score, lighthouse_data) :=
    find_best_lighthouse_match lookup (business_title row) match_threshold in
  let expected := promoted best_match lighthouse_data median_duration in
  let cmp := duration_comparison (posting_duration_days row) expected in
  mkCombinedRow row
    (promoted best_match lighthouse_data (fun d => Some (original_title d)))
    (if truthy best_match then Some match_score else None)
    expected
    (promoted best_match lighthouse_data total_postings)
    (promoted best_match lighthouse_data median_salary)
    (promoted best_match lighthouse_data top_skills)
    (promoted best_match lighthouse_data education_requirements)
    (promoted best_match lighthouse_data experience_level)
    (promoted best_match lighthouse_data salary_category)
    (promoted best_match lighthouse_data posting_intensity)
    (fst cmp) (snd cmp).

Record JobsFrame := mkJobsFrame {
  jobs_columns : list string;
  jobs_rows : list JobRow
}.

Record LighthouseFrame := mkLighthouseFrame {
  lighthouse_columns : list string;
  lighthouse_rows : list LighthouseRow
}.

Definition has_column (columns : list string) (col : string) : bool :=
  existsb (String.eqb col) columns.

Definition required_jobs_cols : list string :=
  ["business_title"; "posting_duration_days"]%string.

Definition required_lighthouse_cols : list string :=
  ["lighthouse_job_title"; "lighthouse_median_posting_duration"]%string.

(** [[col for col in required if col not in columns]] *)
Definition missing_cols (required columns : list string) : list string :=
  filter (fun col => negb (has_column columns col)) required.

(** [generate_posting_duration_dataset], up to the frame it returns ([[]]
    is the empty [pl.DataFrame()]); the statistics, the saved file and the
    metadata are left out.  [match_threshold] is what
    [find_best_lighthouse_match] runs with. *)
Definition generate_posting_duration_dataset_at (match_threshold : Q)
    (jobs_processed : JobsFrame) (lighthouse_processed : LighthouseFrame)
    : list CombinedRow :=
  match missing_cols required_jobs_cols (jobs_columns jobs_processed),
        missing_cols required_lighthouse_cols (lighthouse_columns lighthouse_processed) with
  | [], [] =>
      let lookup := lighthouse_lookup (lighthouse_rows lighthouse_processed) in
      map (combine_row lookup match_threshold) (jobs_rows jobs_processed)
  | _, _ => []
  end.

Definition generate_posting_duration_dataset :=
  generate_posting_duration_dataset_at lighthouse_threshold.

(** ** What a pass emits, and how a run is counted *)

(** Matched key and score of one payroll resolution. *)
Definition payroll_emitted (r : outcome match_tuple) : outcome (option str * option Q) :=
  match r with
  | Returned (best_match, score, _, _) => Returned (best_match, score)
  | KeyError => KeyError
  end.

(** Matched key and score of one lighthouse resolution, the score as the
    driver writes it: [match_score if best_match else None]. *)
Definition lighthouse_emitted (st : lighthouse_state) : outcome (option str * option Q) :=
  let '(best_match, match_score, _) := st in
  Returned (best_match, if truthy best_match then Some match_score else None).

Definition is_some {A : Type} (x : option A) : bool :=
  match x with Some _ => true | None => false end.

Definition payroll_accepted (threshold : Q) (lookup : salary_lookup)
    (job_fuzzy_string : option str) : bool :=
  match find_best_match_with_salary_at threshold lookup job_fuzzy_string with
  | Returned (best_match, _, _, _) => is_some best_match
  | KeyError => false
  end.

Definition lighthouse_accepted (lookup : lighthouse_lookup_t) (match_threshold : Q)
    (business_title : option str) : bool :=
  truthy (fst (fst (find_best_lighthouse_match lookup business_title match_threshold))).

Definition matched_count {A : Type} (accepted : A -> bool) (left : list A) : nat :=
  length (filter accepted left).

(** The candidate [m] holds the maximal score over the non-empty
    candidates and is the first one that does. *)
Definition first_best (job : str) (cands : list str) (m : str) : Prop :=
  exists pre post,
    cands = pre ++ m :: post /\ nonempty m = true /\
    (forall c, In c pre -> nonempty c = true -> (ratio job c < ratio job m)%Q) /\
    (forall c, In c post -> nonempty c = true -> (ratio job c <= ratio job m)%Q).

(** The payroll rows that enter the lookup under the key [k]: the key is
    [k], not empty, and both salaries are there. *)
Definition in_group (k : str) (row : PayrollRow) : bool :=
  match payroll_fuzzy_match_string row, salary_min row, salary_max row with
  | Some fs, Some _, Some _ => nonempty fs && str_eqb fs k
  | _, _, _ => false
  end.

Definition group (rows : list PayrollRow) (k : str) : list PayrollRow :=
  filter (in_group k) rows.

Definition values (field : PayrollRow -> option Q) (rows : list PayrollRow) : list Q :=
  flat_map (fun row => match field row with Some v => [v] | None => [] end) rows.

(** The least element of a list of numbers. *)
Definition Qmin_list (l : list Q) : option Q :=
  match l with
  | [] => None
  | x :: l' => Some (fold_left (fun m y => if Qltb y m then y else m) l' x)
  end.

(** ** Vocabulary of the proofs *)

(** A match that lies inside the two ranges. *)
Definition within (alo ahi blo bhi : nat) (m : Match) : Prop :=
  alo <= m_a m /\ m_a m + m_size m <= ahi /\
  blo <= m_b m /\ m_b m + m_size m <= bhi.

(** The entries of [j2len] after [n] rows of the range. *)
Definition row_ok (blo bhi n : nat) (j2len : j2len_t) : Prop :=
  forall j k, dict_get Nat.eqb j2len j = Some k ->
    blo <= j /\ j < bhi /\ k <= j + 1 - blo /\ k <= n.

Definition range_ok (r : range4) : Prop :=
  let '(alo, ahi, blo, bhi) := r in alo <= ahi /\ blo <= bhi.

(** What a queued range can still cost in steps, and hold in matches. *)
Definition range_cost (r : range4) : nat :=
  let '(alo, ahi, blo, bhi) := r in 2 * (ahi - alo) + 1.

Definition range_cap (r : range4) : nat :=
  let '(alo, ahi, blo, bhi) := r in Nat.min (ahi - alo) (bhi - blo).

Definition queue_cost (q : list range4) : nat :=
  fold_right (fun r acc => range_cost r + acc) 0 q.

Definition queue_cap (q : list range4) : nat :=
  fold_right (fun r acc => range_cap r + acc) 0 q.

(** The number of matched elements, [M] in [2*M/T]. *)
Definition matches (a b : str) : nat :=
  match get_matching_blocks a b with
  | Some blocks => sum_sizes blocks
  | None => 0
  end.

(** The positions of [x] in [b], counted from [i]. *)
Fixpoint indices_from (x : ascii) (b : str) (i : nat) : list nat :=
  match b with
  | [] => []
  | c :: b' =>
      if Ascii.eqb c x then i :: indices_from x b' (S i) else indices_from x b' (S i)
  end.

(** The positions of [a] whose element [__chain_b] purged from [b2j]. *)
Definition purged (a : str) (i : nat) : bool :=
  match nth_error a i with
  | Some x => match b2j_get (chain_b a) x with [] => true | _ :: _ => false end
  | None => true
  end.

(** Length of the run of kept elements that ends at [i]. *)
Fixpoint runlen (a : str) (i : nat) : nat :=
  if purged a i then 0
  else S (match i with 0 => 0 | S i' => runlen a i' end).

Definition prevrun (a : str) (i : nat) : nat :=
  match i with 0 => 0 | S i' => runlen a i' end.

Definition entries_le (a : str) (bound : nat) (j2len : j2len_t) : Prop :=
  forall j k, dict_get Nat.eqb j2len j = Some k -> k <= runlen a j /\ k <= bound.

Definition row_inv (a : str) (i : nat) (j2len : j2len_t) : Prop :=
  entries_le a (prevrun a i) j2len /\ j2lenget_pred j2len i = prevrun a i.

Definition all (P : ascii -> Prop) (x : str) : Prop := Forall P x.

(** Characters of a key: word characters that lowering leaves alone. *)
Definition key_char (c : ascii) : Prop := re_word c = true /\ lower_char c = c.

Definition is_key (k : str) : Prop := all key_char k.

(** Characters of a cleaned title. *)
Definition word_char (c : ascii) : Prop := py_isalnum c = true /\ lower_char c = c.

Definition title_char (c : ascii) : Prop := word_char c \/ c = underscore.

Definition not_underscore (c : ascii) : bool := negb (Ascii.eqb c underscore).

(** The two scans side by side: either the best score so far meets the
    threshold and both hold the same candidate and score, or no score has
    met it yet and the lighthouse scan holds nothing. *)
Definition agree (thr : Q) (p : option str * Q) (l : lighthouse_state) : Prop :=
  ((thr <= snd p)%Q /\ fst (fst l) = fst p /\ snd (fst l) = snd p)
  \/ ((snd p < thr)%Q /\ (snd (fst l) < thr)%Q /\ fst (fst l) = None).

(** The two lists stored under [k], empty when [k] is not a key. *)
Definition lists_of (d : salary_lists) (k : str) : list Q * list Q :=
  match dict_get str_eqb d k with
  | Some p => p
  | None => ([], [])
  end.

(** ** Sample data *)

Definition sample_lookup : salary_lookup :=
  [(lit "parks_dept_park_worker", (40000, 55000)%Q);
   (lit "sanitation_driver", (50000, 60000)%Q)].

Definition sample_payroll : list PayrollRow :=
  [mkPayrollRow (Some (lit "dept_x_clerk")) (Some 30000%Q) (Some 50000%Q);
   mkPayrollRow (Some (lit "dept_x_clerk")) (Some 40000%Q) (Some 60000%Q);
   mkPayrollRow None (Some 1%Q) (Some 2%Q);
   mkPayrollRow (Some (lit "dept_x_clerk")) None (Some 60000%Q)].

Definition sample_benchmark (title : string) (median : Q) : LighthouseRow :=
  mkLighthouseRow (Some (lit title)) (Some median) None None None None None None None.

Definition sample_job (title : string) (days : Q) : JobRow :=
  mkJobRow 1 (Some (lit "parks")) (Some (lit title)) (Some days) None.

(** A posting with the key [dept_x_clerk]. *)
Definition sample_posting : JobRow :=
  mkJobRow 7 (Some (lit "Dept. X")) (Some (lit "Clerk")) (Some 45%Q)
    (create_fuzzy_matching_string (Some (lit "Dept. X")) (Some (lit "Clerk"))).

Definition all_columns_jobs : list string :=
  ["job_id"; "agency"; "business_title"; "posting_duration_days"]%string.

Definition all_columns_lighthouse : list string :=
  ["lighthouse_job_title"; "lighthouse_median_posting_duration"]%string.

(** ** The alphabet of the keys and the shape of a cleaned title *)

(** The characters [a-z], [0-9] and [_]. *)
Definition key_alphabet (c : ascii) : bool :=
  in_range 48 57 c || in_range 97 122 c || (code c =? 95).



(** ** What the lighthouse lookup stores *)

(** The dictionary that the loop of lines 283-300 stores for a row. *)
Definition lighthouse_entry (job_title : str) (row : LighthouseRow) : LighthouseData :=
  mkLighthouseData job_title
    (lighthouse_median_posting_duration row)
    (lighthouse_total_postings row)
    (lighthouse_median_salary row)
    (lighthouse_top_skills row)
    (lighthouse_education_requirements row)
    (lighthouse_experience_level row)
    (lighthouse_salary_category row)
    (lighthouse_posting_intensity row).

(** The row has a title ([if job_title:]) and its cleaned title is [k]. *)
Definition titled (k : str) (row : LighthouseRow) : bool :=
  match lighthouse_job_title row with
  | Some (c :: t) => str_eqb (clean_title (c :: t)) k
  | _ => false
  end.

(** ** The columns a pass adds to a row *)

(** A row without a payroll match: the four columns are null. *)
Definition payroll_blank (r : MatchedJob) : Prop :=
  best_payroll_match r = None /\ best_match_score r = None /\
  payroll_salary_min r = None /\ payroll_salary_max r = None.

(** A row without a lighthouse match: the twelve columns are null. *)
Definition lighthouse_blank (r : CombinedRow) : Prop :=
  lighthouse_match_title r = None /\ lighthouse_match_score r = None /\
  matched_median_posting_duration r = None /\ matched_total_postings r = None /\
  matched_median_salary r = None /\ matched_top_skills r = None /\
  matched_education_requirements r = None /\ matched_experience_level r = None /\
  matched_salary_category r = None /\ matched_posting_intensity r = None /\
  duration_variance r = None /\ duration_variance_pct r = None.

(** The matched columns of [r] are the fields of the lighthouse row [row]. *)
Definition lighthouse_fields_of (row : LighthouseRow) (r : CombinedRow) : Prop :=
  matched_median_posting_duration r = lighthouse_median_posting_duration row /\
  matched_total_postings r = lighthouse_total_postings row /\
  matched_median_salary r = lighthouse_median_salary row /\
  matched_top_skills r = lighthouse_top_skills row /\
  matched_education_requirements r = lighthouse_education_requirements row /\
  matched_experience_level r = lighthouse_experience_level row /\
  matched_salary_category r = lighthouse_salary_category row /\
  matched_posting_intensity r = lighthouse_posting_intensity row.

(** Every row that has both salaries has them in order. *)
Definition salaries_ordered (rows : list PayrollRow) : Prop :=
  forall row mn mx, In row rows ->
    salary_min row = Some mn -> salary_max row = Some mx -> (mn <= mx)%Q.

(** ** Expressions of polars on columns with nulls *)

(** [col.fill_null(v)] *)
Definition fill_null (x : option Q) (v : Q) : Q :=
  match x with Some a => a | None => v end.

(** [col == "text"]: null on a null. *)
Definition col_eq (x : option str) (v : str) : option bool :=
  option_map (fun a => str_eqb a v) x.

(** [col < v]: null on a null. *)
Definition col_lt (x : option Q) (v : Q) : option bool :=
  option_map (fun a => Qltb a v) x.

(** [pl.when(c)] takes its branch when [c] is true; a null condition
    goes on to the next branch. *)
Definition holds (c : option bool) : bool :=
  match c with Some true => true | _ => false end.

(** [x - y] on columns: null when an operand is null. *)
Definition sub_null (x y : option Q) : option Q :=
  match x, y with
  | Some a, Some b => Some (a - b)%Q
  | _, _ => None
  end.

(** The values of a column that are not null. *)
Definition present (l : list (option Q)) : list Q :=
  flat_map (fun o => match o with Some v => [v] | None => [] end) l.

(** The greatest element of a list of numbers. *)
Definition Qmax_list (l : list Q) : option Q :=
  match l with
  | [] => None
  | x :: l' => Some (fold_left (fun m y => if Qltb m y then y else m) l' x)
  end.

(** Equality of values that may be null, as [group_by] takes it: null is
    a key of its own. *)
Definition opt_str_eqb (x y : option str) : bool :=
  match x, y with
  | Some a, Some b => str_eqb a b
  | None, None => true
  | _, _ => false
  end.

(** ** The payroll processor (citywide_payroll_processor.py) *)

Module Payroll.

(** A payroll record after the casts of lines 36-43: the numbers are the
    [_num] columns, null where the cast found no number. *)
Record Raw := mkRaw {
  agency_name : option str;
  title_description : option str;
  pay_basis : option str;
  base_salary_num : option Q;
  regular_gross_num : option Q;
  total_ot_num : option Q;
  total_other_num : option Q
}.

(** The column [annual_salary_standardized] of
    [standardize_annual_salary]. *)
Definition standardize_annual_salary (r : Raw) : option Q :=
  if holds (col_eq (pay_basis r) (lit "per Annum")) then base_salary_num r
  else if holds (col_eq (pay_basis r) (lit "per Hour"))
  then option_map (fun b => b * 2080)%Q (base_salary_num r)
  else if holds (col_eq (pay_basis r) (lit "per Day"))
  then option_map (fun b => b * 260)%Q (base_salary_num r)
  else option_map
         (fun g => g + fill_null (total_ot_num r) 0 + fill_null (total_other_num r) 0)%Q
         (regular_gross_num r).

(** The key of [group_by(['agency_name', 'title_description'])]. *)
Definition role := (option str * option str)%type.

Definition role_eqb (x y : role) : bool :=
  opt_str_eqb (fst x) (fst y) && opt_str_eqb (snd x) (snd y).

Definition role_of (r : Raw) : role := (agency_name r, title_description r).

(** The [base_salary_num] of the records of each role, in the order in
    which the roles first occur. *)
Definition role_salaries (df : list Raw) : list (role * list (option Q)) :=
  fold_left
    (fun d r =>
       dict_upsert role_eqb d (role_of r)
         (fun o => match o with
                   | None => [base_salary_num r]
                   | Some l => l ++ [base_salary_num r]
                   end))
    df [].

(** [salary_ranges]: [min()], [max()] and [count()] skip the nulls. *)
Definition salary_ranges (df : list Raw) : list (role * (option Q * option Q * nat)) :=
  map (fun e => (fst e, (Qmin_list (present (snd e)), Qmax_list (present (snd e)),
                         length (present (snd e)))))
      (role_salaries df).

(** The row of [salary_ranges] that a left join on the two columns finds
    for a record: a null in a key column matches nothing. *)
Definition joined (ranges : list (role * (option Q * option Q * nat))) (r : Raw)
    : option (option Q * option Q * nat) :=
  match role_of r with
  | (Some _, Some _) => dict_get role_eqb ranges (role_of r)
  | _ => None
  end.

(** A record of the frame [select_and_process_columns] returns. *)
Record Processed := mkProcessed {
  raw : Raw;
  annual_salary_standardized : option Q;
  salary_min : option Q;
  salary_max : option Q;
  salary_range_width : option Q;
  employee_count_in_role : option nat;
  fuzzy_match_string : option str
}.

(** [standardize_annual_salary], [create_salary_min_max] and
    [create_fuzzy_matching_string] in the order of
    [select_and_process_columns]. *)
Definition select_and_process_columns (df : list Raw) : list Processed :=
  let ranges := salary_ranges df in
  map (fun r =>
         let '(mn, mx, n) :=
           match joined ranges r with
           | Some (mn, mx, n) => (mn, mx, Some n)
           | None => (None, None, None)
           end in
         mkProcessed r (standardize_annual_salary r) mn mx (sub_null mx mn) n
           (create_fuzzy_matching_string (agency_name r) (title_description r)))
      df.

End Payroll.

(** The three columns of a processed payroll record that
    [calculate_fuzzy_matches_with_payroll] reads. *)
Definition payroll_row_of (p : Payroll.Processed) : PayrollRow :=
  mkPayrollRow (Payroll.fuzzy_match_string p) (Payroll.salary_min p) (Payroll.salary_max p).

(** The members of a role. *)
Definition role_members (df : list Payroll.Raw) (k : Payroll.role) : list Payroll.Raw :=
  filter (fun r => Payroll.role_eqb (Payroll.role_of r) k) df.

Definition sample_raw (basis : string) (base : Q) : Payroll.Raw :=
  Payroll.mkRaw (Some (lit "Dept. X")) (Some (lit "Clerk")) (Some (lit basis))
    (Some base) (Some 1000%Q) None None.

(** A number that is not negative, or null. *)
Definition nonneg (x : option Q) : Prop :=
  match x with Some a => (0 <= a)%Q | None => True end.

(** ** The lighthouse processor: column names and analysis columns *)

(** [self.column_mappings] *)
Definition column_mappings : list (str * str) :=
  [(lit "job_title", lit "lighthouse_job_title");
   (lit "title", lit "lighthouse_job_title");
   (lit "Job Title", lit "lighthouse_job_title");
   (lit "total_postings", lit "lighthouse_total_postings");
   (lit "postings", lit "lighthouse_total_postings");
   (lit "Total Postings", lit "lighthouse_total_postings");
   (lit "median_posting_duration", lit "lighthouse_median_posting_duration");
   (lit "posting_duration", lit "lighthouse_median_posting_duration");
   (lit "Median Posting Duration", lit "lighthouse_median_posting_duration");
   (lit "median_salary", lit "lighthouse_median_salary");
   (lit "salary", lit "lighthouse_median_salary");
   (lit "Median Salary", lit "lighthouse_median_salary");
   (lit "skills", lit "lighthouse_top_skills");
   (lit "top_skills", lit "lighthouse_top_skills");
   (lit "Top Skills", lit "lighthouse_top_skills");
   (lit "education", lit "lighthouse_education_requirements");
   (lit "education_requirements", lit "lighthouse_education_requirements");
   (lit "Education Requirements", lit "lighthouse_education_requirements");
   (lit "experience", lit "lighthouse_experience_level");
   (lit "experience_level", lit "lighthouse_experience_level");
   (lit "Experience Level", lit "lighthouse_experience_level")].

(** [x.replace(old, new)] for single characters *)
Definition replace_char (old new : ascii) (x : str) : str :=
  map (fun c => if Ascii.eqb c old then new else c) x.

(** [x.startswith(prefix)] *)
Fixpoint startswith (prefix x : str) : bool :=
  match prefix, x with
  | [], _ => true
  | p :: prefix', c :: x' => Ascii.eqb p c && startswith prefix' x'
  | _ :: _, [] => false
  end.

(** Lines 56-57 of [clean_column_names]. *)
Definition cleaned_col (col : str) : str :=
  filter (fun char => py_isalnum char || Ascii.eqb char underscore)
    (replace_char "-" "_" (replace_char " " "_" (lower (strip py_isspace col)))).

(** [rename_mapping[col]] as the loop of [clean_column_names] sets it. *)
Definition rename_mapping (col : str) : str :=
  match dict_get str_eqb column_mappings col with
  | Some name => name
  | None =>
      match dict_get str_eqb column_mappings (cleaned_col col) with
      | Some name => name
      | None =>
          if negb (startswith (lit "lighthouse_") (cleaned_col col))
          then lit "lighthouse_" ++ cleaned_col col
          else cleaned_col col
      end
  end.

(** The names of the columns after [clean_column_names]. *)
Definition clean_column_names (columns : list str) : list str :=
  map rename_mapping columns.

(** The column [lighthouse_salary_category] of [create_analysis_columns]. *)
Definition salary_category_of (lighthouse_median_salary : option Q) : str :=
  if holds (col_lt lighthouse_median_salary 40000) then lit "Low"
  else if holds (col_lt lighthouse_median_salary 70000) then lit "Medium"
  else if holds (col_lt lighthouse_median_salary 100000) then lit "High"
  else lit "Very High".

(** ** Posting durations (jobs_nyc_posting_processor.py, lines 67-107) *)

(** A datetime is a number of ticks of the column's time unit, a null
    where the text did not parse; [ticks_per_day] is the number of ticks
    in a day. *)

(** [pl.duration(days=n)] *)
Definition duration_days (ticks_per_day n : Z) : Z := (n * ticks_per_day)%Z.

(** [d.dt.total_days()]: the whole days of a duration, by the integer
    division of the ticks. *)
Definition total_days (ticks_per_day d : Z) : Z := Z.quot d ticks_per_day.

(** The column [calculated_end_date]. *)
Definition calculated_end_date (ticks_per_day : Z)
    (posting_start posting_end posting_updated_parsed : option Z) : option Z :=
  match posting_end with
  | Some e => Some e
  | None =>
      match posting_updated_parsed with
      | Some u => Some u
      | None => option_map (fun s => s + duration_days ticks_per_day 30)%Z posting_start
      end
  end.

(** The column [posting_duration_days] of [calculate_posting_duration]. *)
Definition calculate_posting_duration (ticks_per_day : Z)
    (posting_start posting_end posting_updated_parsed : option Z) : option Z :=
  match calculated_end_date ticks_per_day posting_start posting_end posting_updated_parsed,
        posting_start with
  | Some e, Some s => Some (total_days ticks_per_day (e - s))
  | _, _ => None
  end.

(** Microseconds in a day. *)
Definition us_per_day : Z := 86400000000.

(** ** Fetching the postings (data_acquisition/jobs_nyc_posting.py) *)

(** [Config.DEFAULT_BATCH_SIZE] *)
Definition DEFAULT_BATCH_SIZE : nat := 1000.

(** [if max_rows:] and the number it holds. *)
Definition limited (max_rows : option nat) : bool :=
  match max_rows with Some (S _) => true | _ => false end.

Definition rows_of (max_rows : option nat) : nat :=
  match max_rows with Some n => n | None => 0 end.

Section Fetch.
Context {A : Type}.

(** [fetch_batch(offset, limit)]: the records of the answer, [[]] when
    the request failed. *)
Variable fetch_batch : nat -> nat -> list A.

(** The [while True] loop of [fetch_data]; [None] when [fuel] iterations
    did not reach a [break].  [max_rows - offset] is only computed with
    [offset < max_rows]. *)
Fixpoint fetch_loop (fuel : nat) (max_rows : option nat) (all_data : list A)
    (offset batch_size : nat) : option (list A) :=
  match fuel with
  | 0 => None
  | S fuel' =>
      let batch_size :=
        if limited max_rows && (rows_of max_rows <? offset + batch_size)
        then rows_of max_rows - offset else batch_size in
      match fetch_batch offset batch_size with
      | [] => Some all_data
      | batch_data =>
          let all_data := all_data ++ batch_data in
          let offset := offset + length batch_data in
          if limited max_rows && (rows_of max_rows <=? length all_data) then Some all_data
          else if length batch_data <? batch_size then Some all_data
          else fetch_loop fuel' max_rows all_data offset batch_size
      end
  end.

(** [fetch_data(max_rows, use_cache=False)], up to the rows of the frame
    it returns. *)
Definition fetch_data (fuel : nat) (max_rows : option nat) : option (list A) :=
  fetch_loop fuel max_rows [] 0 DEFAULT_BATCH_SIZE.

End Fetch.

(** An API that serves the records [data] page by page. *)
Definition paged {A : Type} (data : list A) (offset limit : nat) : list A :=
  firstn limit (skipn offset data).

(** What [fetch_data] is asked for: the first [max_rows] records, or all. *)
Definition requested {A : Type} (max_rows : option nat) (data : list A) : list A :=
  if limited max_rows then firstn (rows_of max_rows) data else data.

(** ** File names (data_acquisition/lighthouse_data.py, base_pipeline.py) *)

(** [re.sub(r'[-\s]+', '_', x)] and the like: every maximal run of
    characters of the class [p] becomes one underscore. *)
Fixpoint replace_runs (p : ascii -> bool) (x : str) (in_run : bool) : str :=
  match x with
  | [] => []
  | c :: x' =>
      if p c
      then if in_run then replace_runs p x' true
           else underscore :: replace_runs p x' true
      else c :: replace_runs p x' false
  end.

Definition hyphen : ascii := "-"%char.

(** [create_filename(sheet_name)]; in Python's [re], [\w] is
    [isalnum() or '_'] and [\s] is [isspace()] on the ASCII repertoire. *)
Definition create_filename (sheet_name : str) : str :=
  let clean_name :=
    filter (fun c => (py_isalnum c || Ascii.eqb c underscore) || py_isspace c
                     || Ascii.eqb c hyphen)
           (lower sheet_name) in
  let clean_name := replace_runs (fun c => Ascii.eqb c hyphen || py_isspace c) clean_name false in
  lit "lighthouse_" ++ clean_name.

(** [x.split(sep)]: every separator splits, empty fields are kept. *)
Fixpoint split_on (sep : ascii) (x : str) (cur : str) : list str :=
  match x with
  | [] => [cur]
  | c :: x' =>
      if Ascii.eqb c sep then cur :: split_on sep x' []
      else split_on sep x' (cur ++ [c])
  end.

(** [x.split(sep, 1)]: only the first separator splits. *)
Fixpoint split_once (sep : ascii) (x : str) (cur : str) : list str :=
  match x with
  | [] => [cur]
  | c :: x' =>
      if Ascii.eqb c sep then [cur; x']
      else split_once sep x' (cur ++ [c])
  end.

(** The expression that [find_recent_raw_file] evaluates on
    [filepath.stem]; [None] is its [IndexError]. *)
Definition timestamp_str (stem : str) : option str :=
  match nth_error (split_once underscore stem []) 1 with
  | Some rest =>
      match nth_error (split_on underscore rest []) 0,
            nth_error (split_on underscore rest []) 1 with
      | Some date, Some time => Some (date ++ [underscore] ++ time)
      | _, _ => None
      end
  | None => None
  end.

(** Strings in the order of [sorted]. *)
Fixpoint str_ltb (x y : str) : bool :=
  match x, y with
  | _, [] => false
  | [], _ :: _ => true
  | c :: x', d :: y' =>
      (code c <? code d) || ((code c =? code d) && str_ltb x' y')
  end.

Fixpoint insert_desc (x : str) (l : list str) : list str :=
  match l with
  | [] => [x]
  | y :: l' => if str_ltb x y then y :: insert_desc x l' else x :: l
  end.

(** [sorted(files, reverse=True)] *)
Definition sorted_reverse (files : list str) : list str :=
  fold_right insert_desc [] files.

Section RawFiles.

(** [datetime.strptime(text, Config.TIMESTAMP_FORMAT)] as a number of
    seconds, [None] for its [ValueError]. *)
Variable strptime : str -> option Z.

(** The loop of [find_recent_raw_file] over the stems of the files. *)
Fixpoint first_recent (cutoff_time : Z) (files : list str) : option str :=
  match files with
  | [] => None
  | filepath :: files' =>
      match timestamp_str filepath with
      | Some text =>
          match strptime text with
          | Some file_time =>
              if (cutoff_time <? file_time)%Z then Some filepath
              else first_recent cutoff_time files'
          | None => first_recent cutoff_time files'
          end
      | None => first_recent cutoff_time files'
      end
  end.

(** [find_recent_raw_file]: [directory] holds the stems of the [.json]
    files of the raw data directory, [now] and [max_age] are in seconds;
    the pattern is [f"{source_name}_*.json"]. *)
Definition find_recent_raw_file (source_name : str) (directory : list str)
    (now max_age : Z) : option str :=
  first_recent (now - max_age)%Z
    (sorted_reverse (filter (startswith (source_name ++ [underscore])) directory)).

End RawFiles.

Definition is_digit (c : ascii) : bool := in_range 48 57 c.

(** A reader of time stamps that accepts what begins with a digit. *)
Definition sample_strptime (text : str) : option Z :=
  match text with
  | c :: _ => if is_digit c then Some 0%Z else None
  | [] => None
  end.

(** ** The orchestration (airflow/dags/nyc_hiring_audit_dag.py) *)

(** The statistic [high_quality_matches] of
    [process_and_match_payroll_jobs]: a filter keeps the rows on which
    the comparison is true, not those on which it is null. *)
Definition high_quality_matches (jobs_df : list MatchedJob) : nat :=
  length (filter (fun r => holds (option_map (Qleb (85 # 100)) (best_match_score r)))
            jobs_df).

Definition quote : ascii := "'"%char.

(** [value.replace("'", "''")] *)
Definition escaped_value (value : str) : str :=
  flat_map (fun c => if Ascii.eqb c quote then [quote; quote] else [c]) value.

(** A cell of the pandas frame: [pd.isna], a string, or anything else
    with its [str(value)]. *)
Inductive cell : Type :=
| NA
| Text (value : str)
| Other (rendered : str).

(** The text the loaders put into the [VALUES] list for a cell. *)
Definition row_value (value : cell) : str :=
  match value with
  | NA => lit "NULL"
  | Text s => [quote] ++ escaped_value s ++ [quote]
  | Other rendered => rendered
  end.

(** The loop [for i in range(0, total_rows, batch_size)] with
    [batch = pandas_df.iloc[i:i+batch_size]]; the range has at most
    [fuel] elements. *)
Fixpoint batches_from {A : Type} (batch_size fuel i : nat) (pandas_df : list A)
    : list (list A) :=
  match fuel with
  | 0 => []
  | S fuel' =>
      if i <? length pandas_df
      then firstn batch_size (skipn i pandas_df)
             :: batches_from batch_size fuel' (i + batch_size) pandas_df
      else []
  end.

(** The batches of [_load_jobs_to_database] and
    [_load_duration_to_database]. *)
Definition insert_batches {A : Type} (pandas_df : list A) : list (list A) :=
  batches_from 1000 (length pandas_df) 0 pandas_df.

(** The body of an SQL string literal, read after its opening quote up to
    the closing one, a doubled quote standing for a quote: the value and
    the text left after the literal. *)
Fixpoint read_literal (x : str) : option (str * str) :=
  match x with
  | [] => None
  | c :: x' =>
      if Ascii.eqb c quote then
        match x' with
        | d :: x'' =>
            if Ascii.eqb d quote
            then option_map (fun p => (quote :: fst p, snd p)) (read_literal x'')
            else Some ([], x')
        | [] => Some ([], [])
        end
      else option_map (fun p => (c :: fst p, snd p)) (read_literal x')
  end.

(** ** The validation script (airflow/scripts/validation_scripts.py) *)

Module Validation.

(** The rows the queries of [run_data_quality_checks] return. *)
Record QueryResults := mkQueryResults {
  job_postings_count : Z;
  duration_records_count : Z;
  total_records : Z;
  agency_complete : Z;
  title_complete : Z;
  date_complete : Z;
  salary_from_complete : Z;
  salary_to_complete : Z;
  high_quality_payroll_matches : Z;
  good_payroll_matches : Z;
  jobs_with_payroll_salary : Z;
  avg_match_score : option Q;
  high_quality_lighthouse_matches : Z;
  good_lighthouse_matches : Z;
  avg_lighthouse_match_score : option Q;
  avg_duration_variance_pct : option Q;
  orphaned_duration_records : Z;
  invalid_salary_ranges : Z;
  negative_durations : Z;
  excessive_durations : Z
}.

Definition results_t := list (string * Q).

(** [d[key] = value] and [d.update({...})] *)
Definition setitem (d : results_t) (key : string) (value : Q) : results_t :=
  dict_upsert String.eqb d key (fun _ => value).

Definition update (d : results_t) (items : list (string * Q)) : results_t :=
  fold_left (fun d kv => setitem d (fst kv) (snd kv)) items d.

(** [(x / total_records) * 100] *)
Definition pct (x total : Z) : Q := (inject_Z x / inject_Z total * 100)%Q.

(** [float(x) if x else 0] *)
Definition float_or_0 (x : option Q) : Q :=
  match x with Some v => v | None => 0%Q end.

(** [run_data_quality_checks], from the rows of its queries. *)
Definition run_data_quality_checks (q : QueryResults) : results_t :=
  let validation_results : results_t := [] in
  let validation_results :=
    update validation_results
      [("total_job_postings", inject_Z (job_postings_count q));
       ("total_duration_records", inject_Z (duration_records_count q))]%string in
  let validation_results :=
    if (0 <? total_records q)%Z then
      update validation_results
        [("agency_completeness_pct", pct (agency_complete q) (total_records q));
         ("title_completeness_pct", pct (title_complete q) (total_records q));
         ("date_completeness_pct", pct (date_complete q) (total_records q));
         ("salary_from_completeness_pct", pct (salary_from_complete q) (total_records q));
         ("salary_to_completeness_pct", pct (salary_to_complete q) (total_records q))]%string
    else validation_results in
  let validation_results :=
    update validation_results
      [("high_quality_payroll_matches", inject_Z (high_quality_payroll_matches q));
       ("good_payroll_matches", inject_Z (good_payroll_matches q));
       ("jobs_with_payroll_salary", inject_Z (jobs_with_payroll_salary q));
       ("avg_payroll_match_score", float_or_0 (avg_match_score q))]%string in
  let validation_results :=
    update validation_results
      [("high_quality_lighthouse_matches", inject_Z (high_quality_lighthouse_matches q));
       ("good_lighthouse_matches", inject_Z (good_lighthouse_matches q));
       ("avg_lighthouse_match_score", float_or_0 (avg_lighthouse_match_score q));
       ("avg_duration_variance_pct", float_or_0 (avg_duration_variance_pct q))]%string in
  let validation_results :=
    setitem validation_results "orphaned_duration_records"%string
      (inject_Z (orphaned_duration_records q)) in
  update validation_results
    [("invalid_salary_ranges", inject_Z (invalid_salary_ranges q));
     ("negative_durations", inject_Z (negative_durations q));
     ("excessive_durations", inject_Z (excessive_durations q))]%string.

(** The entries of [critical_issues]. *)
Inductive issue : Type :=
| NoJobPostings
| AgencyCompleteness (pct : Q)
| TitleCompleteness (pct : Q)
| OrphanedRecords (count : Q).

(** How [validate_pipeline_execution] ends: it returns, it raises its
    [Exception] with the critical issues, or a key is not in
    [quality_results]. *)
Inductive ending : Type :=
| Success
| ValidationFailed (critical_issues : list issue)
| MissingKey (key : string).

(** The part of [validate_pipeline_execution] that follows the two
    calls, on the [quality_results] of the first. *)
Definition validate (quality_results : results_t) : ending :=
  match dict_get String.eqb quality_results "total_job_postings"%string with
  | None => MissingKey "total_job_postings"%string
  | Some total =>
      let critical_issues := if Qeq_bool total 0 then [NoJobPostings] else [] in
      match dict_get String.eqb quality_results "agency_completeness_pct"%string with
      | None => MissingKey "agency_completeness_pct"%string
      | Some agency =>
          let critical_issues :=
            if Qltb agency 95 then critical_issues ++ [AgencyCompleteness agency]
            else critical_issues in
          match dict_get String.eqb quality_results "title_completeness_pct"%string with
          | None => MissingKey "title_completeness_pct"%string
          | Some title =>
              let critical_issues :=
                if Qltb title 95 then critical_issues ++ [TitleCompleteness title]
                else critical_issues in
              match dict_get String.eqb quality_results "orphaned_duration_records"%string with
              | None => MissingKey "orphaned_duration_records"%string
              | Some orphaned =>
                  let critical_issues :=
                    if Qltb 0 orphaned then critical_issues ++ [OrphanedRecords orphaned]
                    else critical_issues in
                  match critical_issues with
                  | [] => Success
                  | _ :: _ => ValidationFailed critical_issues
                  end
              end
          end
      end
  end.

Definition validate_pipeline_execution (q : QueryResults) : ending :=
  validate (run_data_quality_checks q).

End Validation.

(** The rows of the queries on a database with [jobs] job postings, all of
    them complete, and nothing else. *)
Definition sample_queries (jobs : Z) : Validation.QueryResults :=
  Validation.mkQueryResults jobs 0 jobs jobs jobs jobs jobs jobs 0 0 0 None 0 0 None None
    0 0 0 0.

(** Every character is one of 256: the tables are checked case by case. *)
Ltac each_char c :=
  destruct c as [[|] [|] [|] [|] [|] [|] [|] [|]];
  vm_compute; try reflexivity; try discriminate; auto.

(** * Facts about the dictionaries *)

Section DictFacts.
Context {K V : Type} (keq : K -> K -> bool).
Hypothesis keq_spec : forall x y, keq x y = true <-> x = y.

Lemma keq_refl x : keq x x = true.
Proof. apply keq_spec; reflexivity. Qed.

Lemma keq_neq x y : x <> y -> keq x y = false.
Proof.
  intros H. destruct (keq x y) eqn:E; [|reflexivity].
  apply keq_spec in E. contradiction.
Qed.

Lemma dict_get_upsert (d : list (K * V)) x f y :
  dict_get keq (dict_upsert keq d x f) y =
  if keq x y then Some (f (dict_get keq d x)) else dict_get keq d y.
Proof.
  induction d as [|[k v] d IH]; simpl.
  - reflexivity.
  - destruct (keq k x) eqn:Ekx; simpl.
    + apply keq_spec in Ekx. subst k.
      destruct (keq x y); reflexivity.
    + destruct (keq k y) eqn:Eky.
      * apply keq_spec in Eky. subst k. rewrite keq_neq; [reflexivity|].
        intros ->. rewrite keq_refl in Ekx. discriminate.
      * apply IH.
Qed.

Lemma dict_keys_upsert (d : list (K * V)) x f :
  dict_keys (dict_upsert keq d x f) =
  if existsb (fun k => keq k x) (dict_keys d) then dict_keys d else dict_keys d ++ [x].
Proof.
  induction d as [|[k v] d IH]; simpl; [reflexivity|].
  destruct (keq k x) eqn:E; simpl; [reflexivity|].
  unfold dict_keys in *. rewrite IH.
  destruct (existsb _ _); reflexivity.
Qed.

Lemma dict_get_None (d : list (K * V)) x :
  dict_get keq d x = None <-> ~ In x (dict_keys d).
Proof.
  induction d as [|[k v] d IH]; simpl; [tauto|].
  destruct (keq k x) eqn:E.
  - apply keq_spec in E. split; [discriminate|]. intros H. exfalso. auto.
  - rewrite IH. split.
    + intros H [H1|H1]; [|auto]. subst. rewrite keq_refl in E. discriminate.
    + tauto.
Qed.

Lemma dict_get_In (d : list (K * V)) x :
  In x (dict_keys d) -> exists v, dict_get keq d x = Some v.
Proof.
  intros H. destruct (dict_get keq d x) eqn:E; [eauto|].
  apply dict_get_None in E. contradiction.
Qed.

Lemma dict_get_Some_In (d : list (K * V)) x v :
  dict_get keq d x = Some v -> In x (dict_keys d).
Proof.
  induction d as [|[k w] d IH]; simpl; [discriminate|].
  destruct (keq k x) eqn:E.
  - apply keq_spec in E. auto.
  - auto.
Qed.

Lemma NoDup_keys_upsert (d : list (K * V)) x f :
  NoDup (dict_keys d) -> NoDup (dict_keys (dict_upsert keq d x f)).
Proof.
  intros H. rewrite dict_keys_upsert.
  destruct (existsb _ _) eqn:E; [assumption|].
  apply NoDup_app; [assumption|repeat constructor; simpl; tauto|].
  intros a Ha [<-|[]].
  assert (existsb (fun k => keq k x) (dict_keys d) = true); [|congruence].
  apply existsb_exists. exists x. split; [assumption|apply keq_refl].
Qed.

Lemma dict_get_filter (p : K * V -> bool) (d : list (K * V)) x :
  NoDup (dict_keys d) ->
  dict_get keq (filter p d) x =
  match dict_get keq d x with
  | Some v => if p (x, v) then Some v else None
  | None => None
  end.
Proof.
  induction d as [|[k v] d IH]; simpl; [reflexivity|].
  intros H. inversion H as [|? ? Hk Hd]; subst.
  destruct (keq k x) eqn:E.
  - apply keq_spec in E. subst k.
    destruct (p (x, v)) eqn:Ep; simpl.
    + rewrite keq_refl. reflexivity.
    + rewrite IH by assumption.
      assert (dict_get keq d x = None) as -> by (apply dict_get_None; assumption).
      reflexivity.
  - destruct (p (k, v)); simpl; [rewrite E|]; apply IH; assumption.
Qed.

End DictFacts.

Lemma ascii_eqb_spec' x y : Ascii.eqb x y = true <-> x = y.
Proof. apply Ascii.eqb_eq. Qed.

Lemma str_eqb_spec x y : str_eqb x y = true <-> x = y.
Proof.
  revert y. induction x as [|c x IH]; intros [|d y]; simpl;
    try (split; [discriminate|congruence]); [tauto|].
  rewrite andb_true_iff, Ascii.eqb_eq, IH.
  split; [intros [-> ->]; reflexivity|intros H; inversion H; auto].
Qed.

(** * find_longest_match stays inside the range it is given *)

Lemma j2lenget_pred_bound blo bhi n j2len j :
  row_ok blo bhi n j2len -> blo <= j ->
  j2lenget_pred j2len j + 1 <= j + 1 - blo /\ j2lenget_pred j2len j <= n.
Proof.
  intros H Hj. destruct j as [|j']; unfold j2lenget_pred; [lia|].
  destruct (dict_get Nat.eqb j2len j') as [k|] eqn:E; [|lia].
  apply H in E. lia.
Qed.

Lemma flm_inner_within alo blo bhi i n j2len js :
  row_ok blo bhi n j2len -> alo + n = i ->
  forall newj2len best,
    row_ok blo bhi (S n) newj2len -> within alo (S i) blo bhi best ->
    row_ok blo bhi (S n) (fst (flm_inner blo bhi i j2len js newj2len best)) /\
    within alo (S i) blo bhi (snd (flm_inner blo bhi i j2len js newj2len best)).
Proof.
  intros Hrow Hi. induction js as [|j js IH]; intros newj2len best Hnew Hbest; simpl.
  - auto.
  - destruct (j <? blo) eqn:E1; [apply IH; assumption|].
    destruct (bhi <=? j) eqn:E2; [auto|].
    apply Nat.ltb_ge in E1. apply Nat.leb_gt in E2.
    destruct (j2lenget_pred_bound blo bhi n j2len j Hrow E1) as [Hk1 Hk2].
    apply IH.
    + intros j0 k0. simpl. destruct (j =? j0) eqn:Ej.
      * apply Nat.eqb_eq in Ej. subst j0. intros [= <-]. lia.
      * apply Hnew.
    + destruct (m_size best <? j2lenget_pred j2len j + 1); [|assumption].
      unfold within; simpl. lia.
Qed.

Lemma within_weaken alo ahi ahi' blo bhi m :
  within alo ahi blo bhi m -> ahi <= ahi' -> within alo ahi' blo bhi m.
Proof. unfold within. lia. Qed.

Lemma flm_outer_within a b2j alo blo bhi len :
  forall i n j2len best,
    alo + n = i -> row_ok blo bhi n j2len -> within alo i blo bhi best ->
    within alo (i + len) blo bhi (flm_outer a b2j blo bhi (seq i len) j2len best).
Proof.
  induction len as [|len IH]; intros i n j2len best Hi Hrow Hbest; simpl.
  - rewrite Nat.add_0_r. assumption.
  - destruct (flm_inner blo bhi i j2len _ [] best) as [newj2len best'] eqn:E.
    pose proof (flm_inner_within alo blo bhi i n j2len
                  (match nth_error a i with Some x => b2j_get b2j x | None => [] end)
                  Hrow Hi [] best) as H.
    rewrite E in H. simpl in H.
    destruct H as [H1 H2].
    + intros j k. simpl. discriminate.
    + eapply within_weaken; [eassumption|lia].
    + replace (i + S len) with (S i + len) by lia.
      apply (IH (S i) (S n)); [lia|assumption|assumption].
Qed.

Lemma extend_back_within a b alo ahi blo bhi want besti :
  forall bestj bestsize,
    within alo ahi blo bhi (mkMatch besti bestj bestsize) ->
    within alo ahi blo bhi (extend_back a b alo blo want besti bestj bestsize).
Proof.
  induction besti as [|i' IH]; intros bestj bestsize H; simpl; [assumption|].
  destruct (_ && _) eqn:E; [|assumption].
  repeat rewrite andb_true_iff in E. destruct E as [[[E1 E2] _] _].
  apply Nat.ltb_lt in E1, E2.
  apply IH. unfold within in *; simpl in *. lia.
Qed.

Lemma extend_fwd_within a b alo ahi blo bhi want gap :
  forall besti bestj bestsize,
    within alo ahi blo bhi (mkMatch besti bestj bestsize) ->
    besti + bestsize + gap <= ahi ->
    within alo ahi blo bhi (extend_fwd a b bhi want gap besti bestj bestsize).
Proof.
  induction gap as [|gap IH]; intros besti bestj bestsize H Hg; simpl; [assumption|].
  destruct (_ && _) eqn:E; [|assumption].
  repeat rewrite andb_true_iff in E. destruct E as [[E1 _] _].
  apply Nat.ltb_lt in E1.
  apply IH; [|lia]. unfold within in *; simpl in *. lia.
Qed.

Lemma extend_within a b alo ahi blo bhi want m :
  within alo ahi blo bhi m -> within alo ahi blo bhi (extend a b alo ahi blo bhi want m).
Proof.
  intros H. unfold extend.
  pose proof (extend_back_within a b alo ahi blo bhi want (m_a m) (m_b m) (m_size m)) as Hb.
  destruct m as [i j k]; simpl in *. specialize (Hb H).
  destruct (extend_back a b alo blo want i j k) as [i1 j1 k1] eqn:E; simpl.
  apply extend_fwd_within; [assumption|].
  unfold within in Hb; simpl in Hb. lia.
Qed.

Lemma find_longest_match_within a b b2j alo ahi blo bhi :
  alo <= ahi -> blo <= bhi ->
  within alo ahi blo bhi (find_longest_match a b b2j alo ahi blo bhi).
Proof.
  intros Ha Hb. unfold find_longest_match.
  apply extend_within, extend_within.
  replace ahi with (alo + (ahi - alo)) at 1 by lia.
  apply (flm_outer_within a b2j alo blo bhi (ahi - alo) alo 0); [lia| |].
  - intros j k. simpl. discriminate.
  - unfold within; simpl. lia.
Qed.

(** * get_matching_blocks ends, and matches no more than the shorter string *)

Lemma sum_sizes_app l1 l2 : sum_sizes (l1 ++ l2) = sum_sizes l1 + sum_sizes l2.
Proof.
  induction l1 as [|x l1 IH]; simpl; [reflexivity|].
  unfold sum_sizes in *. simpl. rewrite IH. lia.
Qed.

Lemma gmb_loop_spec a b b2j fuel :
  forall queue acc,
    Forall range_ok queue -> queue_cost queue <= fuel ->
    exists blocks,
      gmb_loop a b b2j fuel queue acc = Some blocks /\
      sum_sizes blocks <= sum_sizes acc + queue_cap queue.
Proof.
  induction fuel as [|fuel IH]; intros queue acc Hok Hcost.
  - destruct queue as [|[[[alo ahi] blo] bhi] q]; simpl in *; [|lia].
    exists acc. split; [reflexivity|lia].
  - destruct queue as [|[[[alo ahi] blo] bhi] q].
    + exists acc. split; [reflexivity|simpl; lia].
    + inversion Hok as [|? ? Hr Hq]; subst. destruct Hr as [Ha Hb].
      simpl gmb_loop.
      pose proof (find_longest_match_within a b b2j alo ahi blo bhi Ha Hb) as Hw.
      destruct (find_longest_match a b b2j alo ahi blo bhi) as [i j k].
      unfold within in Hw; simpl in Hw. simpl in Hcost |- *.
      destruct (k =? 0) eqn:Ek.
      * destruct (IH q acc Hq) as [bl [H1 H2]]; [lia|].
        exists bl. split; [assumption|lia].
      * apply Nat.eqb_neq in Ek.
        remember (if (alo <? i) && (blo <? j) then (alo, i, blo, j) :: q else q) as q1 eqn:Eq1.
        remember (if (i + k <? ahi) && (j + k <? bhi)
                  then (i + k, ahi, j + k, bhi) :: q1 else q1) as q2 eqn:Eq2.
        assert (Hq1 : Forall range_ok q1 /\
                      queue_cost q1 <= 2 * (i - alo) + 1 + queue_cost q /\
                      queue_cap q1 <= Nat.min (i - alo) (j - blo) + queue_cap q).
        { rewrite Eq1. destruct ((alo <? i) && (blo <? j)); simpl.
          - split; [constructor; [simpl; lia|assumption]|lia].
          - split; [assumption|lia]. }
        destruct Hq1 as [Hq1a [Hq1b Hq1c]].
        assert (Hq2 : Forall range_ok q2 /\
                      queue_cost q2 + 1 <= 2 * (ahi - alo) + 1 + queue_cost q /\
                      queue_cap q2 + k <= Nat.min (ahi - alo) (bhi - blo) + queue_cap q).
        { rewrite Eq2. destruct ((i + k <? ahi) && (j + k <? bhi)); simpl.
          - split; [constructor; [simpl; lia|assumption]|lia].
          - split; [assumption|lia]. }
        destruct Hq2 as [Hq2a [Hq2b Hq2c]].
        destruct (IH q2 (acc ++ [mkMatch i j k]) Hq2a) as [bl [H1 H2]]; [lia|].
        exists bl. split; [assumption|].
        rewrite sum_sizes_app in H2. simpl in H2. lia.
Qed.

Lemma sum_sizes_insert x l : sum_sizes (insert_block x l) = m_size x + sum_sizes l.
Proof.
  induction l as [|y l IH]; simpl; [reflexivity|].
  destruct (match_leb x y); simpl; [reflexivity|].
  unfold sum_sizes in *; simpl. rewrite IH. lia.
Qed.

Lemma sum_sizes_sort l : sum_sizes (sort_blocks l) = sum_sizes l.
Proof.
  induction l as [|x l IH]; simpl; [reflexivity|].
  rewrite sum_sizes_insert. unfold sum_sizes in *; simpl. rewrite IH. reflexivity.
Qed.

Lemma sum_sizes_collapse blocks :
  forall i1 j1 k1 non_adjacent,
    sum_sizes (collapse blocks i1 j1 k1 non_adjacent) =
    sum_sizes non_adjacent + k1 + sum_sizes blocks.
Proof.
  induction blocks as [|x blocks IH]; intros i1 j1 k1 na; simpl.
  - destruct (k1 =? 0) eqn:E.
    + apply Nat.eqb_eq in E. lia.
    + rewrite sum_sizes_app. simpl. lia.
  - destruct (_ && _); rewrite IH.
    + unfold sum_sizes; simpl. lia.
    + destruct (k1 =? 0) eqn:E.
      * apply Nat.eqb_eq in E. unfold sum_sizes; simpl. lia.
      * rewrite sum_sizes_app. unfold sum_sizes; simpl. lia.
Qed.

(** [get_matching_blocks] always returns, and the blocks it returns hold
    at most [min (len a) (len b)] elements. *)
Lemma get_matching_blocks_spec a b :
  exists blocks,
    get_matching_blocks a b = Some blocks /\
    sum_sizes blocks <= Nat.min (length a) (length b).
Proof.
  unfold get_matching_blocks.
  destruct (gmb_loop_spec a b (chain_b b) (2 * length a + 1)
              [(0, length a, 0, length b)] []) as [raw [H1 H2]].
  - repeat constructor; simpl; lia.
  - simpl. lia.
  - rewrite H1. eexists. split; [reflexivity|].
    rewrite sum_sizes_app, sum_sizes_collapse, sum_sizes_sort.
    simpl in *. lia.
Qed.

Lemma ratio_total a b : ratio_opt a b = Some (ratio a b).
Proof.
  unfold ratio, ratio_opt.
  destruct (get_matching_blocks_spec a b) as [bl [H _]]. rewrite H. reflexivity.
Qed.

Lemma ratio_matches a b :
  ratio a b = calculate_ratio (matches a b) (length a + length b).
Proof.
  unfold ratio, ratio_opt, matches.
  destruct (get_matching_blocks_spec a b) as [bl [H _]]. rewrite H. reflexivity.
Qed.

Lemma matches_le_min a b : matches a b <= Nat.min (length a) (length b).
Proof.
  unfold matches.
  destruct (get_matching_blocks_spec a b) as [bl [H Hle]]. rewrite H. assumption.
Qed.

Lemma calculate_ratio_bounds m t : 2 * m <= t -> (0 <= calculate_ratio m t <= 1)%Q.
Proof.
  intros H. unfold calculate_ratio.
  destruct (t =? 0) eqn:E.
  - split; discriminate.
  - apply Nat.eqb_neq in E. unfold Qle; simpl. split.
    + lia.
    + rewrite <- (Nat2Pos.id t) in H by assumption.
      lia.
Qed.

Lemma ratio_bounds a b : (0 <= ratio a b <= 1)%Q.
Proof.
  rewrite ratio_matches. apply calculate_ratio_bounds.
  pose proof (matches_le_min a b). lia.
Qed.

Lemma ratio_zero_of_empty a b :
  a = [] \/ b = [] -> a <> b -> (ratio a b == 0)%Q.
Proof.
  intros H Hne. rewrite ratio_matches.
  pose proof (matches_le_min a b) as Hm.
  assert (matches a b = 0) as -> by (destruct H; subst; simpl in Hm; lia).
  unfold calculate_ratio.
  destruct (length a + length b =? 0) eqn:E.
  - apply Nat.eqb_eq in E. exfalso. apply Hne.
    destruct a, b; simpl in E; try lia. reflexivity.
  - reflexivity.
Qed.

(** * What [__chain_b] stores: every position of an element, or nothing *)

Lemma b2j_get_setdefault_append d e i x :
  b2j_get (setdefault_append d e i) x =
  b2j_get d x ++ (if Ascii.eqb e x then [i] else []).
Proof.
  unfold b2j_get, setdefault_append.
  rewrite (dict_get_upsert Ascii.eqb ascii_eqb_spec').
  destruct (Ascii.eqb e x) eqn:E.
  - apply Ascii.eqb_eq in E. subst e.
    destruct (dict_get Ascii.eqb d x); reflexivity.
  - rewrite app_nil_r. reflexivity.
Qed.

Lemma b2j_get_fill b :
  forall i d x, b2j_get (chain_b_fill b i d) x = b2j_get d x ++ indices_from x b i.
Proof.
  induction b as [|c b IH]; intros i d x; simpl.
  - rewrite app_nil_r. reflexivity.
  - rewrite IH, b2j_get_setdefault_append.
    destruct (Ascii.eqb c x); rewrite <- app_assoc; reflexivity.
Qed.

Lemma NoDup_keys_fill b :
  forall i d, NoDup (dict_keys d) -> NoDup (dict_keys (chain_b_fill b i d)).
Proof.
  induction b as [|c b IH]; intros i d H; simpl; [assumption|].
  apply IH. apply (NoDup_keys_upsert Ascii.eqb ascii_eqb_spec'). assumption.
Qed.

Lemma b2j_get_chain_b b x :
  b2j_get (chain_b b) x = [] \/ b2j_get (chain_b b) x = indices_from x b 0.
Proof.
  unfold chain_b.
  pose proof (b2j_get_fill b 0 [] x) as Hfill. simpl in Hfill.
  destruct (200 <=? length b); [|right; assumption].
  unfold b2j_get in *.
  rewrite (dict_get_filter Ascii.eqb ascii_eqb_spec')
    by (apply NoDup_keys_fill; constructor).
  destruct (dict_get Ascii.eqb (chain_b_fill b 0 []) x) as [v|]; [|left; reflexivity].
  destruct (negb _); [right; assumption|left; reflexivity].
Qed.

Lemma indices_from_In x b :
  forall i j, In j (indices_from x b i) <-> i <= j /\ nth_error b (j - i) = Some x.
Proof.
  induction b as [|c b IH]; intros i j; simpl.
  - split; [tauto|]. intros [_ H]. destruct (j - i); discriminate.
  - assert (Hrest : In j (indices_from x b (S i)) <->
                    i < j /\ nth_error (c :: b) (j - i) = Some x).
    { rewrite IH. split.
      - intros [H1 H2]. split; [lia|].
        replace (j - i) with (S (j - S i)) by lia. assumption.
      - intros [H1 H2]. split; [lia|].
        replace (j - i) with (S (j - S i)) in H2 by lia. assumption. }
    destruct (Ascii.eqb c x) eqn:E.
    + apply Ascii.eqb_eq in E. subst c. simpl. rewrite Hrest. split.
      * intros [<-|[H1 H2]]; [|split; [lia|assumption]].
        split; [lia|]. rewrite Nat.sub_diag. reflexivity.
      * intros [H1 H2]. destruct (Nat.eq_dec i j); [auto|].
        right. split; [lia|assumption].
    + rewrite Hrest. split.
      * intros [H1 H2]. split; [lia|assumption].
      * intros [H1 H2]. split; [|assumption].
        destruct (Nat.eq_dec i j); [|lia]. subst j.
        rewrite Nat.sub_diag in H2. simpl in H2. inversion H2; subst.
        rewrite Ascii.eqb_refl in E. discriminate.
Qed.

Lemma indices_from_sorted x b :
  forall i, StronglySorted lt (indices_from x b i).
Proof.
  induction b as [|c b IH]; intros i; simpl; [constructor|].
  destruct (Ascii.eqb c x); [|apply IH].
  constructor; [apply IH|].
  apply Forall_forall. intros j Hj. apply indices_from_In in Hj. lia.
Qed.

(** * Identical strings: the longest match is the whole string *)

Section Identical.
Variable a : str.

Lemma runlen_eq i : runlen a i = if purged a i then 0 else S (prevrun a i).
Proof. destruct i; reflexivity. Qed.

Lemma next_le i j2len j :
  row_inv a i j2len -> purged a i = false -> purged a j = false ->
  j2lenget_pred j2len j + 1 <= runlen a j /\ j2lenget_pred j2len j + 1 <= runlen a i.
Proof.
  intros [He Hd] Hi Hj. rewrite (runlen_eq j), (runlen_eq i), Hi, Hj.
  destruct j as [|j']; unfold j2lenget_pred; [simpl; lia|].
  destruct (dict_get Nat.eqb j2len j') as [k|] eqn:E; [|lia].
  apply He in E. simpl. lia.
Qed.

Lemma next_diag i j2len :
  row_inv a i j2len -> purged a i = false -> j2lenget_pred j2len i + 1 = runlen a i.
Proof.
  intros [_ Hd] Hi. rewrite runlen_eq, Hi, Hd. lia.
Qed.

Lemma flm_inner_diag i j2len :
  row_inv a i j2len -> purged a i = false ->
  forall js newj2len best,
    StronglySorted lt js ->
    (forall j, In j js -> j < length a /\ purged a j = false) ->
    m_a best = m_b best ->
    (forall j', j' < i -> runlen a j' <= m_size best) ->
    (In i js \/ (runlen a i <= m_size best /\
                 dict_get Nat.eqb newj2len i = Some (runlen a i))) ->
    entries_le a (runlen a i) newj2len ->
    let r := flm_inner 0 (length a) i j2len js newj2len best in
    m_a (snd r) = m_b (snd r) /\
    (forall j', j' <= i -> runlen a j' <= m_size (snd r)) /\
    dict_get Nat.eqb (fst r) i = Some (runlen a i) /\
    entries_le a (runlen a i) (fst r).
Proof.
  intros Hrow Hi.
  induction js as [|j js IH]; intros newj2len best Hs Hjs Hdiag Hbefore Hat Hent; simpl.
  - destruct Hat as [[]|[Hat1 Hat2]].
    split; [assumption|]. split; [|split; assumption].
    intros j' Hj'. destruct (Nat.eq_dec j' i); [subst; assumption|].
    apply Hbefore. lia.
  - destruct (Hjs j (or_introl eq_refl)) as [Hjn Hjp].
    assert ((length a <=? j) = false) as -> by (apply Nat.leb_gt; assumption).
    inversion Hs as [|? ? Hs' Hall]; subst.
    destruct (next_le i j2len j Hrow Hi Hjp) as [Hk1 Hk2].
    set (k := j2lenget_pred j2len j + 1) in *.
    assert (Hent' : entries_le a (runlen a i) ((j, k) :: newj2len)).
    { intros j0 k0. simpl. destruct (j =? j0) eqn:Ej; [|apply Hent].
      apply Nat.eqb_eq in Ej. subst j0. intros [= <-]. auto. }
    assert (Hjs' : forall j0, In j0 js -> j0 < length a /\ purged a j0 = false)
      by (intros; apply Hjs; right; assumption).
    destruct (lt_eq_lt_dec j i) as [[Hlt|Heq]|Hgt].
    + (* before the diagonal: the entry cannot beat the best *)
      assert ((m_size best <? k) = false) as ->.
      { apply Nat.ltb_ge. specialize (Hbefore j Hlt). lia. }
      apply IH; try assumption.
      destruct Hat as [[Hat|Hat]|[Hat1 Hat2]]; [lia|left; assumption|].
      right. split; [assumption|]. simpl.
      assert ((j =? i) = false) as -> by (apply Nat.eqb_neq; lia). assumption.
    + (* on the diagonal *)
      subst j. assert (Hk : k = runlen a i) by (apply next_diag; assumption).
      apply IH; try assumption.
      * destruct (m_size best <? k); [reflexivity|assumption].
      * intros j' Hj'. specialize (Hbefore j' Hj').
        destruct (m_size best <? k) eqn:E; simpl; [|assumption].
        apply Nat.ltb_lt in E. lia.
      * right. split.
        -- destruct (m_size best <? k) eqn:E; simpl; [lia|].
           apply Nat.ltb_ge in E. lia.
        -- simpl. rewrite Nat.eqb_refl. congruence.
    + (* past the diagonal: the diagonal has been seen *)
      assert (Hseen : runlen a i <= m_size best /\
                      dict_get Nat.eqb newj2len i = Some (runlen a i)).
      { destruct Hat as [[Hat|Hat]|Hat]; [lia| |assumption].
        rewrite Forall_forall in Hall. specialize (Hall i Hat). lia. }
      assert ((m_size best <? k) = false) as -> by (apply Nat.ltb_ge; lia).
      apply IH; try assumption.
      right. split; [tauto|]. simpl.
      assert ((j =? i) = false) as -> by (apply Nat.eqb_neq; lia). tauto.
Qed.

Lemma purged_same i j x :
  nth_error a i = Some x -> nth_error a j = Some x -> purged a j = purged a i.
Proof. intros Hi Hj. unfold purged. rewrite Hi, Hj. reflexivity. Qed.

Lemma flm_outer_diag len :
  forall i j2len best,
    i + len = length a -> row_inv a i j2len ->
    m_a best = m_b best ->
    (forall j', j' < i -> runlen a j' <= m_size best) ->
    let r := flm_outer a (chain_b a) 0 (length a) (seq i len) j2len best in
    m_a r = m_b r.
Proof.
  induction len as [|len IH]; intros i j2len best Hlen Hrow Hdiag Hbefore; simpl.
  - assumption.
  - assert (Hin : i < length a) by lia.
    destruct (nth_error a i) as [x|] eqn:Ex;
      [|apply nth_error_None in Ex; lia].
    destruct (b2j_get_chain_b a x) as [Hnil|Hall].
    + (* the element was purged: the row is empty *)
      rewrite Hnil. simpl.
      assert (Hp : purged a i = true) by (unfold purged; rewrite Ex, Hnil; reflexivity).
      apply IH; [lia| |assumption|].
      * split; [intros j k; simpl; discriminate|].
        simpl. rewrite runlen_eq, Hp. reflexivity.
      * intros j' Hj'. destruct (Nat.eq_dec j' i) as [->|];
          [rewrite runlen_eq, Hp; lia|apply Hbefore; lia].
    + destruct (b2j_get (chain_b a) x) as [|j0 js0] eqn:Ejs.
      * simpl.
        assert (Hp : purged a i = true) by (unfold purged; rewrite Ex, Ejs; reflexivity).
        apply IH; [lia| |assumption|].
        -- split; [intros j k; simpl; discriminate|].
           simpl. rewrite runlen_eq, Hp. reflexivity.
        -- intros j' Hj'. destruct (Nat.eq_dec j' i) as [->|];
             [rewrite runlen_eq, Hp; lia|apply Hbefore; lia].
      * assert (Hp : purged a i = false) by (unfold purged; rewrite Ex, Ejs; reflexivity).
        pose proof (flm_inner_diag i j2len Hrow Hp (j0 :: js0) [] best) as H.
        rewrite <- Ejs in *. rewrite Hall in *.
        destruct H as [H1 [H2 [H3 H4]]].
        -- apply indices_from_sorted.
        -- intros j Hj. apply indices_from_In in Hj. destruct Hj as [_ Hj].
           rewrite Nat.sub_0_r in Hj. split.
           ++ apply nth_error_Some. congruence.
           ++ rewrite (purged_same i j x); assumption.
        -- assumption.
        -- assumption.
        -- left. apply indices_from_In. rewrite Nat.sub_0_r. split; [lia|assumption].
        -- intros j k. simpl. discriminate.
        -- destruct (flm_inner 0 (length a) i j2len (indices_from x a 0) [] best)
             as [newj2len best'] eqn:E.
           simpl in *. apply IH; [lia| |assumption|].
           ++ split; [assumption|]. simpl. rewrite H3. reflexivity.
           ++ intros j' Hj'. apply H2. lia.
Qed.

Lemma extend_back_same d :
  forall size, d <= length a ->
    extend_back a a 0 0 false d d size = mkMatch 0 0 (size + d).
Proof.
  induction d as [|d IH]; intros size Hd; simpl.
  - rewrite Nat.add_0_r. reflexivity.
  - rewrite Nat.sub_0_r.
    destruct (nth_error a d) as [c|] eqn:E;
      [|apply nth_error_None in E; lia].
    simpl. rewrite Ascii.eqb_refl. simpl.
    rewrite IH by lia. f_equal. lia.
Qed.

Lemma extend_fwd_same gap :
  forall size, size + gap = length a ->
    extend_fwd a a (length a) false gap 0 0 size = mkMatch 0 0 (length a).
Proof.
  induction gap as [|gap IH]; intros size Hs; simpl.
  - f_equal. lia.
  - assert ((size <? length a) = true) as -> by (apply Nat.ltb_lt; lia).
    destruct (nth_error a size) as [c|] eqn:E;
      [|apply nth_error_None in E; lia].
    simpl. rewrite Ascii.eqb_refl. simpl.
    apply IH. lia.
Qed.

Lemma find_longest_match_same :
  find_longest_match a a (chain_b a) 0 (length a) 0 (length a) = mkMatch 0 0 (length a).
Proof.
  unfold find_longest_match.
  pose proof (flm_outer_diag (length a - 0) 0 [] (mkMatch 0 0 0)) as Hd.
  pose proof (flm_outer_within a (chain_b a) 0 0 (length a) (length a - 0) 0 0 []
                (mkMatch 0 0 0)) as Hw.
  destruct (flm_outer a (chain_b a) 0 (length a) (seq 0 (length a - 0)) []
              (mkMatch 0 0 0)) as [i j k].
  simpl in Hd, Hw.
  assert (i = j) as <-.
  { apply Hd; [lia| |reflexivity|intros; lia].
    split; [intros j' k'; simpl; discriminate|reflexivity]. }
  assert (Hwi : within 0 (length a) 0 (length a) (mkMatch i i k)).
  { replace (length a) with (0 + (length a - 0)) at 1 by lia. apply Hw; [reflexivity| |].
    - intros j' k'. simpl. discriminate.
    - unfold within; simpl. lia. }
  unfold within in Hwi; simpl in Hwi.
  unfold extend at 2. simpl.
  rewrite extend_back_same by lia. simpl.
  rewrite extend_fwd_same by lia.
  unfold extend. simpl. rewrite Nat.sub_diag. reflexivity.
Qed.
End Identical.

Lemma gmb_loop_nil a b b2j fuel acc : gmb_loop a b b2j fuel [] acc = Some acc.
Proof. destruct fuel; reflexivity. Qed.

Lemma matches_same a : matches a a = length a.
Proof.
  unfold matches, get_matching_blocks.
  replace (2 * length a + 1) with (S (2 * length a)) by lia.
  simpl gmb_loop. rewrite find_longest_match_same. simpl.
  destruct (length a =? 0) eqn:E.
  - rewrite gmb_loop_nil. apply Nat.eqb_eq in E. rewrite E. reflexivity.
  - rewrite Nat.ltb_irrefl. simpl. rewrite gmb_loop_nil.
    rewrite sum_sizes_app, sum_sizes_collapse. simpl. lia.
Qed.

Lemma ratio_same a : (ratio a a == 1)%Q.
Proof.
  rewrite ratio_matches, matches_same. unfold calculate_ratio.
  destruct (length a + length a =? 0) eqn:E; [reflexivity|].
  apply Nat.eqb_neq in E. unfold Qeq; simpl.
  rewrite <- (positive_nat_Z (Pos.of_nat _)), Nat2Pos.id by assumption.
  lia.
Qed.

(** * The character tables *)

Lemma lower_char_idem c : lower_char (lower_char c) = lower_char c.
Proof. each_char c. Qed.

Lemma re_word_not_space c : re_word c = true -> re_space c = false.
Proof. each_char c. Qed.

Lemma alnum_not_space c : py_isalnum c = true -> py_isspace c = false.
Proof. each_char c. Qed.

Lemma alnum_not_underscore c : py_isalnum c = true -> Ascii.eqb c underscore = false.
Proof. each_char c. Qed.

(** * Lists of characters that a predicate holds on *)

Lemma all_lstrip P sp x : all P x -> all P (lstrip sp x).
Proof.
  induction 1 as [|c x Hc Hx IH]; simpl; [constructor|].
  destruct (sp c); [assumption|constructor; assumption].
Qed.

Lemma all_strip P sp x : all P x -> all P (strip sp x).
Proof.
  intros H. unfold strip, all in *.
  apply Forall_rev, all_lstrip, Forall_rev, all_lstrip. assumption.
Qed.

Lemma all_filter P f x : all P x -> all P (filter f x).
Proof.
  unfold all. rewrite !Forall_forall. intros H c Hc.
  apply filter_In in Hc. apply H. tauto.
Qed.

Lemma lstrip_none sp x : all (fun c => sp c = false) x -> lstrip sp x = x.
Proof. destruct 1 as [|c x Hc _]; simpl; [reflexivity|]. rewrite Hc. reflexivity. Qed.

Lemma strip_none sp x : all (fun c => sp c = false) x -> strip sp x = x.
Proof.
  intros H. unfold strip. rewrite (lstrip_none sp x H).
  rewrite lstrip_none by (apply Forall_rev; assumption).
  apply rev_involutive.
Qed.

Lemma filter_all f (x : str) : all (fun c => f c = true) x -> filter f x = x.
Proof.
  induction 1 as [|c x Hc _ IH]; simpl; [reflexivity|].
  rewrite Hc, IH. reflexivity.
Qed.

Lemma lower_fixed x : all (fun c => lower_char c = c) x -> lower x = x.
Proof.
  induction 1 as [|c x Hc _ IH]; [reflexivity|].
  unfold lower in *. simpl. rewrite Hc, IH. reflexivity.
Qed.

Lemma all_lower x : all (fun c => lower_char c = c) (lower x).
Proof.
  induction x as [|c x IH]; simpl; constructor; [apply lower_char_idem|assumption].
Qed.

(** * The polars chain: its results are fixed points *)

Lemma key_char_underscore : key_char underscore.
Proof. split; reflexivity. Qed.

Lemma replace_spaces_none x :
  all (fun c => re_space c = false) x -> forall r, replace_spaces x r = x.
Proof.
  induction 1 as [|c x Hc _ IH]; intros r; simpl; [reflexivity|].
  rewrite Hc, IH. reflexivity.
Qed.

Lemma replace_spaces_key x :
  all (fun c => lower_char c = c) x ->
  all (fun c => re_word c || re_space c = true) x ->
  forall r, is_key (replace_spaces x r).
Proof.
  intros Hl Hw. revert Hl.
  induction Hw as [|c x Hc _ IH]; intros Hl r; simpl; [constructor|].
  inversion Hl as [|? ? Hlc Hlx]; subst.
  destruct (re_space c) eqn:E.
  - destruct r; [apply IH; assumption|].
    constructor; [apply key_char_underscore|apply IH; assumption].
  - constructor; [|apply IH; assumption].
    rewrite orb_false_r in Hc. split; assumption.
Qed.

Lemma all_remove_special x : all (fun c => re_word c || re_space c = true) (remove_special x).
Proof.
  unfold all, remove_special. apply Forall_forall. intros c Hc.
  apply filter_In in Hc. tauto.
Qed.

(** Whatever goes through the last two [replace_all] is a key as soon as
    it was lowered before. *)
Lemma chain_is_key x :
  all (fun c => lower_char c = c) x ->
  is_key (replace_spaces (remove_special x) false).
Proof.
  intros H. apply replace_spaces_key.
  - apply all_filter. assumption.
  - apply all_remove_special.
Qed.

Lemma lighthouse_fuzzy_match_string_is_key t : is_key (lighthouse_fuzzy_match_string t).
Proof.
  unfold lighthouse_fuzzy_match_string, lower_strip.
  apply chain_is_key, all_strip, all_lower.
Qed.

Lemma create_fuzzy_matching_string_is_key ag bt k :
  create_fuzzy_matching_string ag bt = Some k -> is_key k.
Proof.
  destruct ag as [ag|], bt as [bt|]; simpl; try discriminate.
  intros [= <-]. apply chain_is_key. unfold lower_strip, all.
  apply Forall_app. split; [apply all_strip, all_lower|].
  constructor; [reflexivity|apply all_strip, all_lower].
Qed.

Lemma key_fixed k : is_key k -> lighthouse_fuzzy_match_string k = k.
Proof.
  intros H. unfold lighthouse_fuzzy_match_string, lower_strip.
  assert (Hl : all (fun c => lower_char c = c) k)
    by (eapply Forall_impl; [|exact H]; intros c [_ Hc]; exact Hc).
  assert (Hs : all (fun c => re_space c = false) k)
    by (eapply Forall_impl; [|exact H]; intros c [Hc _]; apply re_word_not_space, Hc).
  assert (Hw : all (fun c => re_word c || re_space c = true) k)
    by (eapply Forall_impl; [|exact H]; intros c [Hc _]; rewrite Hc; reflexivity).
  rewrite (lower_fixed k Hl), (strip_none re_space k Hs).
  unfold remove_special. rewrite (filter_all _ k Hw).
  apply replace_spaces_none. assumption.
Qed.

(** * The cleaner of the lighthouse pass: it removes its own separator *)

Lemma split_from_words x :
  all (fun c => lower_char c = c /\ (py_isalnum c || py_isspace c = true)) x ->
  forall cur, all word_char cur -> Forall (all word_char) (split_from x cur).
Proof.
  induction 1 as [|c x [Hl Hc] _ IH]; intros cur Hcur; simpl.
  - destruct cur; [constructor|]. constructor; [assumption|constructor].
  - destruct (py_isspace c) eqn:E.
    + destruct cur; [apply IH; constructor|].
      constructor; [assumption|apply IH; constructor].
    + apply IH. unfold all. apply Forall_app. split; [assumption|].
      constructor; [|constructor].
      rewrite orb_false_r in Hc. split; assumption.
Qed.

Lemma join_title_chars ws :
  Forall (all word_char) ws -> all title_char (join [underscore] ws).
Proof.
  induction 1 as [|w ws Hw Hws IH]; simpl; [constructor|].
  assert (Hw' : all title_char w)
    by (eapply Forall_impl; [|exact Hw]; intros c Hc; left; exact Hc).
  destruct ws as [|w2 ws]; [assumption|].
  unfold all. apply Forall_app. split; [assumption|].
  simpl. constructor; [right; reflexivity|assumption].
Qed.

Lemma clean_title_chars t : all title_char (clean_title t).
Proof.
  unfold clean_title. apply join_title_chars. unfold split.
  apply split_from_words; [|constructor].
  unfold all. apply Forall_forall. intros c Hc.
  apply filter_In in Hc. destruct Hc as [Hc1 Hc2]. split; [|assumption].
  clear Hc2. revert c Hc1. apply Forall_forall. apply all_strip, all_lower.
Qed.

Lemma split_from_no_space x :
  all (fun c => py_isspace c = false) x ->
  forall cur, split_from x cur = match cur ++ x with [] => [] | _ :: _ => [cur ++ x] end.
Proof.
  induction 1 as [|c x Hc _ IH]; intros cur; simpl.
  - rewrite app_nil_r. destruct cur; reflexivity.
  - rewrite Hc, IH, <- app_assoc. reflexivity.
Qed.

(** Cleaning what consists of title characters only deletes the underscores. *)
Lemma clean_title_of_title k :
  all title_char k -> clean_title k = filter not_underscore k.
Proof.
  intros H. unfold clean_title.
  assert (Hl : all (fun c => lower_char c = c) k).
  { eapply Forall_impl; [|exact H]. intros c [[_ Hc]| ->]; [exact Hc|reflexivity]. }
  assert (Hs : all (fun c => py_isspace c = false) k).
  { eapply Forall_impl; [|exact H].
    intros c [[Hc _]| ->]; [apply alnum_not_space, Hc|reflexivity]. }
  rewrite (lower_fixed k Hl), (strip_none py_isspace k Hs).
  assert (Hf : filter (fun c => py_isalnum c || py_isspace c) k = filter not_underscore k).
  { apply filter_ext_in. intros c Hc.
    unfold all in H. rewrite Forall_forall in H.
    destruct (H c Hc) as [[Hc1 _]| ->]; [|reflexivity].
    unfold not_underscore. rewrite Hc1, (alnum_not_underscore c Hc1). reflexivity. }
  rewrite Hf. unfold split. rewrite split_from_no_space.
  - simpl. destruct (filter not_underscore k); reflexivity.
  - apply all_filter. assumption.
Qed.

Lemma filter_filter (f : ascii -> bool) x : filter f (filter f x) = filter f x.
Proof.
  induction x as [|c x IH]; simpl; [reflexivity|].
  destruct (f c) eqn:E; simpl; [rewrite E, IH|]; auto.
Qed.

Lemma clean_title_twice t :
  clean_title (clean_title t) = filter not_underscore (clean_title t).
Proof. apply clean_title_of_title, clean_title_chars. Qed.

Lemma clean_title_thrice t :
  clean_title (clean_title (clean_title t)) = clean_title (clean_title t).
Proof.
  rewrite (clean_title_twice t). rewrite clean_title_of_title.
  - apply filter_filter.
  - apply all_filter, clean_title_chars.
Qed.

(** * Comparisons of scores *)

Lemma Qleb_le x y : Qleb x y = true <-> (x <= y)%Q.
Proof. apply Qle_bool_iff. Qed.

Lemma Qleb_gt x y : Qleb x y = false <-> (y < x)%Q.
Proof.
  split.
  - intros H. apply Qnot_le_lt. intros Hle. apply Qleb_le in Hle. congruence.
  - intros H. destruct (Qleb x y) eqn:E; [|reflexivity].
    apply Qleb_le in E. exfalso. exact (Qlt_not_le _ _ H E).
Qed.

Lemma Qltb_lt x y : Qltb x y = true <-> (x < y)%Q.
Proof. unfold Qltb. rewrite negb_true_iff. apply Qleb_gt. Qed.

Lemma Qltb_ge x y : Qltb x y = false <-> (y <= x)%Q.
Proof. unfold Qltb. rewrite negb_false_iff. apply Qleb_le. Qed.

(** * The scan of the payroll pass *)

Lemma payroll_step_eq job bm bs h :
  payroll_step job (bm, bs) h =
  if nonempty h
  then if Qltb bs (ratio job h) then (Some h, ratio job h) else (bm, bs)
  else (bm, bs).
Proof. reflexivity. Qed.

Lemma first_best_cons job h cands m :
  first_best job cands m ->
  (nonempty h = true -> (ratio job h < ratio job m)%Q) ->
  first_best job (h :: cands) m.
Proof.
  intros (pre & post & Hc & Hne & Hpre & Hpost) Hh.
  exists (h :: pre), post. rewrite Hc. repeat split; try assumption.
  intros c [<-|Hin] Hn; auto.
Qed.

Lemma first_best_In job cands m : first_best job cands m -> In m cands.
Proof.
  intros (pre & post & Hc & _). rewrite Hc. apply in_or_app. right. left. reflexivity.
Qed.

(** From the state [(bm, bs)] the scan either changes nothing, every score
    being at most [bs], or stops on the first candidate of maximal score,
    which exceeds [bs]. *)
Lemma payroll_scan job cands :
  forall bm bs,
    (fold_left (payroll_step job) cands (bm, bs) = (bm, bs) /\
     forall c, In c cands -> nonempty c = true -> (ratio job c <= bs)%Q)
    \/ (exists m,
          fold_left (payroll_step job) cands (bm, bs) = (Some m, ratio job m) /\
          (bs < ratio job m)%Q /\ first_best job cands m).
Proof.
  induction cands as [|h cands IH]; intros bm bs; simpl fold_left.
  - left. split; [reflexivity|intros c []].
  - rewrite payroll_step_eq. destruct (nonempty h) eqn:Eh.
    + destruct (Qltb bs (ratio job h)) eqn:El.
      * apply Qltb_lt in El.
        destruct (IH (Some h) (ratio job h)) as [[Hr Hall]|[m [Hr [Hlt Hfb]]]].
        -- right. exists h. split; [assumption|]. split; [assumption|].
           exists [], cands. repeat split; try assumption. intros c [].
        -- right. exists m. split; [assumption|].
           split; [eapply Qlt_trans; eassumption|].
           apply first_best_cons; auto.
      * apply Qltb_ge in El.
        destruct (IH bm bs) as [[Hr Hall]|[m [Hr [Hlt Hfb]]]].
        -- left. split; [assumption|]. intros c [<-|Hin] Hn; auto.
        -- right. exists m. split; [assumption|]. split; [assumption|].
           apply first_best_cons; [assumption|].
           intros _. eapply Qle_lt_trans; eassumption.
    + destruct (IH bm bs) as [[Hr Hall]|[m [Hr [Hlt Hfb]]]].
      * left. split; [assumption|].
        intros c [<-|Hin] Hn; [congruence|auto].
      * right. exists m. split; [assumption|]. split; [assumption|].
        apply first_best_cons; [assumption|]. congruence.
Qed.

Lemma find_at_unfold threshold lookup c k :
  find_best_match_with_salary_at threshold lookup (Some (c :: k)) =
  let st := fold_left (payroll_step (c :: k)) (dict_keys lookup) (None, 0%Q) in
  if Qleb threshold (snd st) then
    match fst st with
    | Some m =>
        match dict_get str_eqb lookup m with
        | Some (avg_min, avg_max) =>
            Returned (Some m, Some (snd st), Some avg_min, Some avg_max)
        | None => KeyError
        end
    | None => KeyError
    end
  else Returned no_match.
Proof.
  unfold find_best_match_with_salary_at.
  destruct (fold_left _ _ _) as [bm bs]. reflexivity.
Qed.

(** * The scan of the lighthouse pass *)

Lemma lighthouse_step_eq lookup thr job bm bs bd h :
  lighthouse_step lookup thr job (bm, bs, bd) h =
  if nonempty h
  then if Qltb bs (ratio job h) && Qleb thr (ratio job h)
       then (Some h, ratio job h, dict_get str_eqb lookup h)
       else (bm, bs, bd)
  else (bm, bs, bd).
Proof. reflexivity. Qed.

(** The scan either changes nothing, or stops on a candidate whose score
    exceeds the initial one and meets the threshold. *)
Lemma lighthouse_scan lookup thr job cands :
  forall bm bs bd,
    (fold_left (lighthouse_step lookup thr job) cands (bm, bs, bd) = (bm, bs, bd) /\
     forall c, In c cands -> nonempty c = true ->
       ~ ((bs < ratio job c)%Q /\ (thr <= ratio job c)%Q))
    \/ (exists m,
          fold_left (lighthouse_step lookup thr job) cands (bm, bs, bd) =
            (Some m, ratio job m, dict_get str_eqb lookup m) /\
          In m cands /\ nonempty m = true /\
          (bs < ratio job m)%Q /\ (thr <= ratio job m)%Q).
Proof.
  induction cands as [|h cands IH]; intros bm bs bd; simpl fold_left.
  - left. split; [reflexivity|intros c []].
  - rewrite lighthouse_step_eq. destruct (nonempty h) eqn:Eh.
    + destruct (Qltb bs (ratio job h) && Qleb thr (ratio job h)) eqn:El.
      * apply andb_true_iff in El. destruct El as [El1 El2].
        apply Qltb_lt in El1. apply Qleb_le in El2.
        destruct (IH (Some h) (ratio job h) (dict_get str_eqb lookup h))
          as [[Hr Hall]|[m [Hr [Hin [Hne [Hlt Hthr]]]]]].
        -- right. exists h. repeat split; try assumption. left. reflexivity.
        -- right. exists m. repeat split; try assumption.
           ++ right. assumption.
           ++ eapply Qlt_trans; eassumption.
      * destruct (IH bm bs bd) as [[Hr Hall]|[m [Hr [Hin [Hne [Hlt Hthr]]]]]].
        -- left. split; [assumption|].
           intros c [<-|Hin] Hn; [|auto].
           intros [H1 H2]. apply Qltb_lt in H1. apply Qleb_le in H2.
           rewrite H1, H2 in El. discriminate.
        -- right. exists m. repeat split; try assumption. right. assumption.
    + destruct (IH bm bs bd) as [[Hr Hall]|[m [Hr [Hin [Hne [Hlt Hthr]]]]]].
      * left. split; [assumption|].
        intros c [<-|Hin] Hn; [congruence|auto].
      * right. exists m. repeat split; try assumption. right. assumption.
Qed.

Lemma lighthouse_scan_empty_key lookup thr cands :
  fold_left (lighthouse_step lookup thr []) cands (None, 0%Q, None) = (None, 0%Q, None).
Proof.
  destruct (lighthouse_scan lookup thr [] cands None 0%Q None)
    as [[Hr _]|[m [_ [_ [Hne [Hlt _]]]]]]; [assumption|].
  exfalso. assert (H0 : (ratio [] m == 0)%Q).
  { apply ratio_zero_of_empty; [left; reflexivity|]. intros <-. discriminate. }
  rewrite H0 in Hlt. exact (Qlt_irrefl _ Hlt).
Qed.

(** * The two scans side by side *)

Lemma step_agree lookup thr job p l h :
  agree thr p l ->
  agree thr (payroll_step job p h) (lighthouse_step lookup thr job l h).
Proof.
  destruct p as [bm bs], l as [[lm ls] ld].
  rewrite payroll_step_eq, lighthouse_step_eq.
  destruct (nonempty h); [|auto].
  intros [[H1 [H2 H3]]|[H1 [H2 H3]]]; simpl in *; subst.
  - destruct (Qltb bs (ratio job h)) eqn:E.
    + assert (Qleb thr (ratio job h) = true) as ->.
      { apply Qleb_le. apply Qltb_lt in E.
        apply Qlt_le_weak. eapply Qle_lt_trans; eassumption. }
      left. simpl. repeat split; try reflexivity.
      apply Qltb_lt in E. apply Qlt_le_weak. eapply Qle_lt_trans; eassumption.
    + left. simpl. auto.
  - destruct (Qleb thr (ratio job h)) eqn:E.
    + apply Qleb_le in E.
      assert (Qltb bs (ratio job h) = true) as ->
        by (apply Qltb_lt; eapply Qlt_le_trans; eassumption).
      assert (Qltb ls (ratio job h) = true) as ->
        by (apply Qltb_lt; eapply Qlt_le_trans; eassumption).
      left. simpl. auto.
    + apply Qleb_gt in E. rewrite andb_false_r.
      destruct (Qltb bs (ratio job h)); right; simpl; auto.
Qed.

Lemma scan_agree lookup thr job cands :
  forall p l,
    agree thr p l ->
    agree thr (fold_left (payroll_step job) cands p)
              (fold_left (lighthouse_step lookup thr job) cands l).
Proof.
  induction cands as [|h cands IH]; intros p l H; simpl; [assumption|].
  apply IH, step_agree, H.
Qed.

Lemma agree_init thr : agree thr (None, 0%Q) (None, 0%Q, None).
Proof.
  destruct (Qlt_le_dec 0 thr) as [H|H].
  - right. simpl. auto.
  - left. simpl. auto.
Qed.

(** Whatever the threshold, the payroll resolution either raises, or is
    what the lighthouse resolution emits for the same cleaned key. *)
Lemma resolvers_agree_or_raise thr plookup llookup bt :
  dict_keys plookup = dict_keys llookup ->
  find_best_match_with_salary_at thr plookup (Some (clean_title bt)) = KeyError \/
  payroll_emitted (find_best_match_with_salary_at thr plookup (Some (clean_title bt))) =
  lighthouse_emitted (find_best_lighthouse_match llookup (Some bt) thr).
Proof.
  intros Hk. destruct bt as [|c0 bt0]; [right; reflexivity|].
  set (bt := c0 :: bt0). unfold find_best_lighthouse_match. fold bt.
  destruct (clean_title bt) as [|c k] eqn:Ek.
  - right. rewrite <- Hk. simpl. rewrite lighthouse_scan_empty_key. reflexivity.
  - rewrite find_at_unfold. cbv zeta. rewrite <- Hk.
    pose proof (scan_agree llookup thr (c :: k) (dict_keys plookup) _ _ (agree_init thr)) as H.
    pose proof (payroll_scan (c :: k) (dict_keys plookup) None 0%Q) as Hs.
    destruct (fold_left (payroll_step (c :: k)) (dict_keys plookup) (None, 0%Q)) as [bm bs].
    destruct (fold_left (lighthouse_step llookup thr (c :: k)) (dict_keys plookup)
                (None, 0%Q, None)) as [[lm ls] ld].
    unfold agree in H. simpl in *.
    destruct H as [[H1 [H2 H3]]|[H1 [H2 H3]]]; subst.
    + assert (Qleb thr bs = true) as -> by (apply Qleb_le; assumption).
      destruct bm as [m|]; [|left; reflexivity].
      destruct Hs as [[Hr _]|[m' [Hr [_ Hfb]]]]; [discriminate|].
      inversion Hr; subst.
      destruct (dict_get_In str_eqb str_eqb_spec plookup m' (first_best_In _ _ _ Hfb))
        as [[amin amax] Hg].
      rewrite Hg. right.
      destruct Hfb as (pre & post & _ & Hne & _).
      destruct m' as [|c1 m1]; [discriminate|reflexivity].
    + assert (Qleb thr bs = false) as -> by (apply Qleb_gt; assumption).
      right. reflexivity.
Qed.

(** With a positive threshold the payroll resolution never raises. *)
Lemma find_at_returns thr lookup job :
  (0 < thr)%Q ->
  find_best_match_with_salary_at thr lookup job <> KeyError.
Proof.
  intros Hthr. destruct job as [[|c k]|]; try discriminate.
  rewrite find_at_unfold. cbv zeta.
  destruct (payroll_scan (c :: k) (dict_keys lookup) None 0%Q)
    as [[Hr _]|[m [Hr [_ Hfb]]]]; rewrite Hr; simpl.
  - assert (Qleb thr 0 = false) as -> by (apply Qleb_gt; assumption). discriminate.
  - destruct (Qleb thr (ratio (c :: k) m)); [|discriminate].
    destruct (dict_get_In str_eqb str_eqb_spec lookup m (first_best_In _ _ _ Hfb))
      as [[amin amax] Hg].
    rewrite Hg. discriminate.
Qed.

(** * Acceptance against the threshold *)

Lemma filter_length_le {A : Type} (f g : A -> bool) (l : list A) :
  (forall x, f x = true -> g x = true) ->
  length (filter f l) <= length (filter g l).
Proof.
  intros H. induction l as [|x l IH]; simpl; [lia|].
  destruct (f x) eqn:Ef.
  - rewrite (H x Ef). simpl. lia.
  - destruct (g x); simpl; lia.
Qed.

Lemma payroll_accepted_mono t1 t2 lookup job :
  (t1 <= t2)%Q ->
  payroll_accepted t2 lookup job = true -> payroll_accepted t1 lookup job = true.
Proof.
  intros Ht. unfold payroll_accepted.
  destruct job as [[|c k]|]; try (simpl; discriminate).
  rewrite !find_at_unfold. cbv zeta.
  destruct (fold_left _ _ _) as [bm bs]. simpl.
  destruct (Qleb t2 bs) eqn:E2; [|simpl; discriminate].
  assert (Qleb t1 bs = true) as ->.
  { apply Qleb_le. apply Qleb_le in E2. eapply Qle_trans; eassumption. }
  auto.
Qed.

Lemma lighthouse_accepted_mono t1 t2 lookup bt :
  (t1 <= t2)%Q ->
  lighthouse_accepted lookup t2 bt = true -> lighthouse_accepted lookup t1 bt = true.
Proof.
  intros Ht. unfold lighthouse_accepted, find_best_lighthouse_match.
  destruct bt as [[|c k]|]; try (simpl; discriminate).
  set (job := clean_title (c :: k)).
  destruct (lighthouse_scan lookup t2 job (dict_keys lookup) None 0%Q None)
    as [[Hr _]|[m [_ [Hin [Hne [Hlt Hthr]]]]]]; [rewrite Hr; simpl; discriminate|].
  intros _.
  destruct (lighthouse_scan lookup t1 job (dict_keys lookup) None 0%Q None)
    as [[_ Hall]|[m' [Hr' [_ [Hne' _]]]]].
  - exfalso. apply (Hall m Hin Hne). split; [assumption|].
    eapply Qle_trans; eassumption.
  - rewrite Hr'. destruct m' as [|c1 m1]; [discriminate|reflexivity].
Qed.

(** * One output row per input row *)

Lemma posting_with_match row m : posting (with_match row m) = row.
Proof. destruct m as [[[bm sc] smin] smax]. reflexivity. Qed.

Lemma collect_length {A : Type} (l : list (outcome A)) xs :
  collect l = Returned xs -> length xs = length l.
Proof.
  revert xs. induction l as [|[x|] l IH]; intros xs; simpl.
  - intros [= <-]. reflexivity.
  - destruct (collect l) as [ys|]; [|discriminate].
    intros [= <-]. simpl. rewrite (IH ys eq_refl). reflexivity.
  - discriminate.
Qed.

Lemma map_posting_combine df :
  forall ms, length ms = length df ->
    map posting (map (fun p => with_match (fst p) (snd p)) (combine df ms)) = df.
Proof.
  induction df as [|row df IH]; intros [|m ms] H; simpl in *; try discriminate;
    [reflexivity|].
  rewrite posting_with_match, IH by lia. reflexivity.
Qed.

Lemma payroll_pass_rows threshold payroll df :
  map posting (calculate_fuzzy_matches_with_payroll_at threshold payroll df) = df.
Proof.
  unfold calculate_fuzzy_matches_with_payroll_at.
  assert (Hblank : map posting (map (fun row => with_match row no_match) df) = df).
  { rewrite map_map. rewrite <- (map_id df) at 2. apply map_ext. reflexivity. }
  destruct payroll as [payroll_df|]; [|assumption].
  destruct (collect _) as [ms|] eqn:E; [|assumption].
  apply map_posting_combine.
  rewrite (collect_length _ _ E). apply length_map.
Qed.

Lemma job_posting_combine_row lookup thr row :
  job_posting (combine_row lookup thr row) = row.
Proof.
  unfold combine_row.
  destruct (find_best_lighthouse_match lookup (business_title row) thr) as [[bm sc] d].
  reflexivity.
Qed.

Lemma lighthouse_score_combine_row lookup thr row :
  is_some (lighthouse_match_score (combine_row lookup thr row)) =
  lighthouse_accepted lookup thr (business_title row).
Proof.
  unfold combine_row, lighthouse_accepted.
  destruct (find_best_lighthouse_match lookup (business_title row) thr) as [[bm sc] d].
  destruct bm as [[|c k]|]; reflexivity.
Qed.

(** * The salary lookup holds the means of the groups *)

Lemma lookup_add_other d row k :
  in_group k row = false ->
  dict_get str_eqb (lookup_add d row) k = dict_get str_eqb d k.
Proof.
  unfold in_group, lookup_add.
  destruct (payroll_fuzzy_match_string row) as [fs|]; [|reflexivity].
  destruct (salary_min row) as [mn|]; [|reflexivity].
  destruct (salary_max row) as [mx|]; [|reflexivity].
  destruct (nonempty fs); [|reflexivity]. simpl. intros H.
  rewrite (dict_get_upsert str_eqb str_eqb_spec), H. reflexivity.
Qed.

Lemma lookup_add_same d row k :
  in_group k row = true ->
  exists mn mx,
    salary_min row = Some mn /\ salary_max row = Some mx /\
    dict_get str_eqb (lookup_add d row) k =
    Some (fst (lists_of d k) ++ [mn], snd (lists_of d k) ++ [mx]).
Proof.
  unfold in_group, lookup_add, lists_of.
  destruct (payroll_fuzzy_match_string row) as [fs|]; [|discriminate].
  destruct (salary_min row) as [mn|]; [|discriminate].
  destruct (salary_max row) as [mx|]; [|discriminate].
  destruct (nonempty fs); [|discriminate]. simpl. intros H.
  apply str_eqb_spec in H. subst fs.
  exists mn, mx. repeat split.
  rewrite (dict_get_upsert str_eqb str_eqb_spec).
  rewrite (proj2 (str_eqb_spec k k) eq_refl).
  destruct (dict_get str_eqb d k) as [[mins maxs]|]; reflexivity.
Qed.

Lemma values_cons field row g :
  values field (row :: g) =
  match field row with Some v => [v] | None => [] end ++ values field g.
Proof. reflexivity. Qed.

Lemma fold_lookup_add rows :
  forall d k,
    dict_get str_eqb (fold_left lookup_add rows d) k =
    match group rows k with
    | [] => dict_get str_eqb d k
    | g => Some (fst (lists_of d k) ++ values salary_min g,
                 snd (lists_of d k) ++ values salary_max g)
    end.
Proof.
  induction rows as [|row rows IH]; intros d k; [reflexivity|].
  simpl fold_left. rewrite IH. unfold group. simpl filter.
  destruct (in_group k row) eqn:E.
  - destruct (lookup_add_same d row k E) as [mn [mx [Hmn [Hmx Hg]]]].
    rewrite !values_cons, Hmn, Hmx.
    unfold lists_of at 1 2. rewrite Hg. simpl fst. simpl snd.
    destruct (filter (in_group k) rows) as [|r g].
    + reflexivity.
    + rewrite <- !app_assoc. reflexivity.
  - unfold lists_of. rewrite (lookup_add_other d row k E). reflexivity.
Qed.

Lemma dict_get_map_values {V W : Type} (g : V -> W) (d : list (str * V)) x :
  dict_get str_eqb (map (fun e => (fst e, g (snd e))) d) x =
  option_map g (dict_get str_eqb d x).
Proof.
  induction d as [|[k v] d IH]; simpl; [reflexivity|].
  destruct (str_eqb k x); [reflexivity|apply IH].
Qed.

(** The value stored under [k]: nothing when no row qualifies, the two
    means of the qualifying rows otherwise. *)
Lemma payroll_salary_lookup_get rows k :
  dict_get str_eqb (payroll_salary_lookup rows) k =
  match group rows k with
  | [] => None
  | g => Some (average (values salary_min g), average (values salary_max g))
  end.
Proof.
  unfold payroll_salary_lookup.
  rewrite (dict_get_map_values (fun p => (average (fst p), average (snd p)))).
  rewrite fold_lookup_add. unfold lists_of. simpl.
  destruct (group rows k); reflexivity.
Qed.

Lemma payroll_salary_lookup_keys rows c :
  In c (dict_keys (payroll_salary_lookup rows)) <->
  exists row, In row rows /\ in_group c row = true.
Proof.
  split.
  - intros H. apply (dict_get_In str_eqb str_eqb_spec) in H. destruct H as [v Hv].
    rewrite payroll_salary_lookup_get in Hv.
    destruct (group rows c) as [|row g] eqn:E; [discriminate|].
    exists row. apply filter_In. unfold group in E. rewrite E. left. reflexivity.
  - intros [row Hrow]. apply filter_In in Hrow. fold (group rows c) in Hrow.
    destruct (dict_get str_eqb (payroll_salary_lookup rows) c) as [v|] eqn:E.
    + eapply dict_get_Some_In; [apply str_eqb_spec|eassumption].
    + rewrite payroll_salary_lookup_get in E.
      destruct (group rows c); [contradiction|discriminate].
Qed.

(** What an accepting resolution returns was read from the lookup. *)
Lemma find_at_accepts thr lookup job m sc amin amax :
  find_best_match_with_salary_at thr lookup job =
    Returned (Some m, Some sc, Some amin, Some amax) ->
  dict_get str_eqb lookup m = Some (amin, amax).
Proof.
  destruct job as [[|c k]|]; try discriminate.
  rewrite find_at_unfold. cbv zeta.
  destruct (fold_left _ _ _) as [bm bs]. simpl.
  destruct (Qleb thr bs); [|discriminate].
  destruct bm as [m0|]; [|discriminate].
  destruct (dict_get str_eqb lookup m0) as [[a1 a2]|] eqn:E; [|discriminate].
  intros [= <- _ <- <-]. assumption.
Qed.

(** * The best-match resolver (C1) *)

Lemma first_best_max job cands m :
  first_best job cands m ->
  forall c, In c cands -> nonempty c = true -> (ratio job c <= ratio job m)%Q.
Proof.
  intros (pre & post & Hc & Hne & Hpre & Hpost) c Hin Hn. subst cands.
  apply in_app_or in Hin. destruct Hin as [Hin|[<-|Hin]].
  - apply Qlt_le_weak. auto.
  - apply Qle_refl.
  - auto.
Qed.

(** C1. The payroll resolver scores the key against every candidate and
    keeps the maximum: when some candidate reaches the threshold 0.85 it
    returns the first candidate of maximal score, with that score and the
    payload stored under it; when none does, and when the key is empty or
    null, every field of the result is absent. *)
Theorem best_match_resolver (lookup : salary_lookup) (job : option str) :
  (forall k, job = Some k -> k <> [] ->
     (exists c, In c (dict_keys lookup) /\ nonempty c = true /\
                (payroll_threshold <= ratio k c)%Q) ->
     exists m avg_min avg_max,
       first_best k (dict_keys lookup) m /\
       (payroll_threshold <= ratio k m)%Q /\
       dict_get str_eqb lookup m = Some (avg_min, avg_max) /\
       find_best_match_with_salary lookup job =
         Returned (Some m, Some (ratio k m), Some avg_min, Some avg_max))
  /\ (forall k, job = Some k ->
        (forall c, In c (dict_keys lookup) -> nonempty c = true ->
                   (ratio k c < payroll_threshold)%Q) ->
        find_best_match_with_salary lookup job = Returned no_match)
  /\ (job = None \/ job = Some [] ->
        find_best_match_with_salary lookup job = Returned no_match).
Proof.
  unfold find_best_match_with_salary. repeat split.
  - intros k -> Hk [c [Hin [Hne Hc]]].
    destruct k as [|c0 k]; [contradiction|].
    rewrite find_at_unfold. cbv zeta.
    destruct (payroll_scan (c0 :: k) (dict_keys lookup) None 0%Q)
      as [[Hr Hall]|[m [Hr [Hlt Hfb]]]].
    + exfalso. specialize (Hall c Hin Hne).
      assert (H : (payroll_threshold <= 0)%Q) by (eapply Qle_trans; eassumption).
      revert H. unfold payroll_threshold, Qle. simpl. lia.
    + assert (Hm : (payroll_threshold <= ratio (c0 :: k) m)%Q).
      { eapply Qle_trans; [exact Hc|]. apply (first_best_max _ _ _ Hfb); assumption. }
      destruct (dict_get_In str_eqb str_eqb_spec lookup m (first_best_In _ _ _ Hfb))
        as [[amin amax] Hg].
      exists m, amin, amax. rewrite Hr. simpl.
      rewrite (proj2 (Qleb_le _ _) Hm), Hg. auto.
  - intros k -> Hall. destruct k as [|c0 k]; [reflexivity|].
    rewrite find_at_unfold. cbv zeta.
    destruct (payroll_scan (c0 :: k) (dict_keys lookup) None 0%Q)
      as [[Hr _]|[m [Hr [_ Hfb]]]]; rewrite Hr; simpl.
    + reflexivity.
    + assert (Hlt : (ratio (c0 :: k) m < payroll_threshold)%Q).
      { apply Hall; [apply (first_best_In _ _ _ Hfb)|].
        destruct Hfb as (pre & post & _ & Hne & _). exact Hne. }
      rewrite (proj2 (Qleb_gt _ _) Hlt). reflexivity.
  - intros [->| ->]; reflexivity.
Qed.

Lemma best_match_resolver_witness :
  exists m avg_min avg_max,
    first_best (lit "parks_dept_parkworker") (dict_keys sample_lookup) m /\
    (payroll_threshold <= ratio (lit "parks_dept_parkworker") m)%Q /\
    dict_get str_eqb sample_lookup m = Some (avg_min, avg_max) /\
    find_best_match_with_salary sample_lookup (Some (lit "parks_dept_parkworker")) =
      Returned (Some m, Some (ratio (lit "parks_dept_parkworker") m),
                Some avg_min, Some avg_max).
Proof.
  apply (proj1 (best_match_resolver sample_lookup (Some (lit "parks_dept_parkworker")))
           (lit "parks_dept_parkworker") eq_refl).
  - discriminate.
  - exists (lit "parks_dept_park_worker").
    split; [left; reflexivity|]. split; [reflexivity|].
    vm_compute. discriminate.
Defined.

(** * The duration comparison (C2) *)

(** C2 at [expected = 0]: the variance is emitted (45 here), only the
    percentage is absent. *)
Lemma variance_present_at_zero_expected :
  let r := combine_row (lighthouse_lookup [sample_benchmark "Clerk" 0])
             lighthouse_threshold (sample_job "clerk" 45) in
  matched_median_posting_duration r = Some 0%Q /\
  duration_variance r <> None /\ duration_variance_pct r = None.
Proof. vm_compute. repeat split. discriminate. Qed.

(** C2 as amended.  For a row with an actual and a matched expected
    duration, [variance = actual - expected] is always emitted, and
    [variance_pct = variance / expected * 100] is emitted when
    [expected > 0] and absent otherwise; both are absent when a duration
    is missing, in particular when nothing matched. *)
Theorem duration_variance_fields (lookup : lighthouse_lookup_t) (thr : Q) (row : JobRow) :
  (forall actual expected,
     posting_duration_days row = Some actual ->
     matched_median_posting_duration (combine_row lookup thr row) = Some expected ->
     duration_variance (combine_row lookup thr row) = Some (actual - expected)%Q /\
     ((0 < expected)%Q ->
      duration_variance_pct (combine_row lookup thr row) =
        Some ((actual - expected) / expected * 100)%Q) /\
     ((expected <= 0)%Q ->
      duration_variance_pct (combine_row lookup thr row) = None))
  /\ (posting_duration_days row = None \/
      matched_median_posting_duration (combine_row lookup thr row) = None ->
      duration_variance (combine_row lookup thr row) = None /\
      duration_variance_pct (combine_row lookup thr row) = None)
  /\ (lighthouse_match_score (combine_row lookup thr row) = None ->
      duration_variance (combine_row lookup thr row) = None /\
      duration_variance_pct (combine_row lookup thr row) = None).
Proof.
  unfold combine_row.
  destruct (find_best_lighthouse_match lookup (business_title row) thr) as [[bm sc] d].
  simpl. split; [|split].
  - intros actual expected Ha He. rewrite Ha, He. simpl.
    split; [reflexivity|]. split.
    + intros Hpos. rewrite (proj2 (Qltb_lt _ _) Hpos). reflexivity.
    + intros Hneg. rewrite (proj2 (Qltb_ge _ _) Hneg). reflexivity.
  - intros [-> | ->]; [split; reflexivity|].
    destruct (posting_duration_days row); split; reflexivity.
  - destruct bm as [[|c k]|]; try discriminate; intros _;
      destruct (posting_duration_days row); split; reflexivity.
Qed.

Lemma duration_variance_fields_witness :
  let r := combine_row (lighthouse_lookup [sample_benchmark "Clerk" 30])
             lighthouse_threshold (sample_job "clerk" 45) in
  duration_variance r = Some (45 - 30)%Q /\
  duration_variance_pct r = Some ((45 - 30) / 30 * 100)%Q /\
  (45 - 30 == 15)%Q /\ ((45 - 30) / 30 * 100 == 50)%Q.
Proof.
  cbv zeta.
  destruct (proj1 (duration_variance_fields
                     (lighthouse_lookup [sample_benchmark "Clerk" 30])
                     lighthouse_threshold (sample_job "clerk" 45))
              45%Q 30%Q eq_refl eq_refl) as [Hv [Hp _]].
  split; [exact Hv|]. split; [apply Hp; reflexivity|].
  split; reflexivity.
Defined.

(** * Resolutions without a candidate (C3) *)

(** C3, the score of a resolution against no candidate: absent, not 0.0. *)
Lemma no_candidate_score_absent :
  payroll_emitted (find_best_match_with_salary [] (Some (lit "parks_park_worker")))
  <> Returned (None, Some 0%Q).
Proof. vm_compute. discriminate. Qed.

Lemma collect_returned {A B : Type} (g : A -> B) (l : list A) :
  collect (map (fun x => Returned (g x)) l) = Returned (map g l).
Proof.
  induction l as [|x l IH]; simpl; [reflexivity|]. rewrite IH. reflexivity.
Qed.

Lemma In_blank_rows row (df : list JobRow) (ms : list match_tuple) :
  Forall (fun m => m = no_match) ms ->
  In row (map (fun p => with_match (fst p) (snd p)) (combine df ms)) ->
  best_payroll_match row = None /\ best_match_score row = None /\
  payroll_salary_min row = None /\ payroll_salary_max row = None.
Proof.
  intros Hms Hin. apply in_map_iff in Hin. destruct Hin as [[r m] [<- Hin]].
  apply in_combine_r in Hin. rewrite Forall_forall in Hms.
  rewrite (Hms m Hin). simpl. auto.
Qed.

Lemma find_at_no_candidate lookup job :
  lookup = [] \/ job = None \/ job = Some [] ->
  find_best_match_with_salary lookup job = Returned no_match.
Proof.
  intros [->|[->| ->]]; try reflexivity.
  destruct job as [[|c k]|]; reflexivity.
Qed.

(** C3 as amended.  With no candidate or an empty key, the resolution is
    rejected and the emitted score is absent: the payroll resolver returns
    four [None], and so does every row of a run without candidates; the
    lighthouse resolver returns [(None, 0.0, {})], and the row built from
    it carries no title and no score. *)
Theorem no_match_safety :
  (forall lookup job,
     lookup = [] \/ job = None \/ job = Some [] ->
     find_best_match_with_salary lookup job = Returned no_match)
  /\ (forall payroll df row,
        payroll = None \/
        (exists rows, payroll = Some rows /\ payroll_salary_lookup rows = []) ->
        In row (calculate_fuzzy_matches_with_payroll payroll df) ->
        best_payroll_match row = None /\ best_match_score row = None /\
        payroll_salary_min row = None /\ payroll_salary_max row = None)
  /\ (forall lookup bt thr,
        lookup = [] \/ bt = None \/ bt = Some [] ->
        find_best_lighthouse_match lookup bt thr = (None, 0%Q, None))
  /\ (forall lookup thr row,
        lookup = [] \/ business_title row = None \/ business_title row = Some [] ->
        lighthouse_match_title (combine_row lookup thr row) = None /\
        lighthouse_match_score (combine_row lookup thr row) = None).
Proof.
  assert (Hl : forall lookup bt thr,
             lookup = [] \/ bt = None \/ bt = Some [] ->
             find_best_lighthouse_match lookup bt thr = (None, 0%Q, None)).
  { intros lookup bt thr [->|[->| ->]]; try reflexivity.
    destruct bt as [[|c k]|]; reflexivity. }
  split; [exact find_at_no_candidate|]. split; [|split; [exact Hl|]].
  - intros payroll df row Hp Hin.
    unfold calculate_fuzzy_matches_with_payroll,
      calculate_fuzzy_matches_with_payroll_at in Hin.
    destruct Hp as [->|[rows [-> Hrows]]].
    + apply in_map_iff in Hin. destruct Hin as [r [<- _]]. simpl. auto.
    + rewrite Hrows in Hin.
      rewrite (map_ext _ (fun _ : JobRow => Returned no_match)) in Hin
        by (intros r; apply find_at_no_candidate; left; reflexivity).
      rewrite (collect_returned (fun _ : JobRow => no_match)) in Hin.
      revert Hin. apply In_blank_rows.
      apply Forall_forall. intros m Hm. apply in_map_iff in Hm.
      destruct Hm as [r [<- _]]. reflexivity.
  - intros lookup thr row H. unfold combine_row.
    rewrite (Hl lookup (business_title row) thr H). simpl. auto.
Qed.

Lemma no_match_safety_witness :
  find_best_match_with_salary [] (Some (lit "parks_park_worker")) = Returned no_match /\
  lighthouse_match_score (combine_row [] lighthouse_threshold (sample_job "clerk" 45)) = None.
Proof.
  split.
  - apply (proj1 no_match_safety). left. reflexivity.
  - apply (proj2 (proj2 (proj2 no_match_safety))). left. reflexivity.
Defined.

(** * The order of the arguments of the score (C4) *)

(** C4, the order of the arguments matters: 0.25 one way, 0.5 the other. *)
Lemma ratio_not_symmetric :
  ~ (ratio (lit "tide") (lit "diet") == ratio (lit "diet") (lit "tide"))%Q.
Proof. vm_compute. discriminate. Qed.

(** C4 as amended.  Both scores are fractions [2*M/T] over the same total
    length [T], with [M] at most the shorter length, and they are equal
    when the strings are equal or one of them is empty. *)
Theorem ratio_symmetric_cases (a b : str) :
  (a = b \/ a = [] \/ b = [] -> (ratio a b == ratio b a)%Q)
  /\ (exists M M',
        ratio a b = calculate_ratio M (length a + length b) /\
        ratio b a = calculate_ratio M' (length a + length b) /\
        M <= Nat.min (length a) (length b) /\
        M' <= Nat.min (length a) (length b)).
Proof.
  split.
  - intros [->|H]; [reflexivity|].
    destruct (list_eq_dec ascii_dec a b) as [->|Hne]; [reflexivity|].
    rewrite (ratio_zero_of_empty a b) by tauto.
    rewrite (ratio_zero_of_empty b a) by (try tauto; congruence).
    reflexivity.
  - exists (matches a b), (matches b a).
    rewrite (ratio_matches a b), (ratio_matches b a), (Nat.add_comm (length b)).
    repeat split; try reflexivity; [apply matches_le_min|].
    rewrite Nat.min_comm. apply matches_le_min.
Qed.

Lemma ratio_symmetric_cases_witness :
  (ratio [] (lit "tide") == ratio (lit "tide") [])%Q.
Proof.
  apply (proj1 (ratio_symmetric_cases [] (lit "tide"))). right. left. reflexivity.
Defined.

(** * Bounds of the score (C5) *)

(** C5. The ratio is always computed ([ratio_opt] never runs out), lies
    between 0 and 1, and is 1 on identical strings. *)
Theorem ratio_bounds_and_identity (a b : str) :
  ratio_opt a b = Some (ratio a b) /\
  (0 <= ratio a b)%Q /\ (ratio a b <= 1)%Q /\
  (ratio a a == 1)%Q.
Proof.
  split; [apply ratio_total|].
  split; [apply ratio_bounds|].
  split; [apply ratio_bounds|apply ratio_same].
Qed.

(** * Normalizing twice (C6) *)

(** C6, cleaning a cleaned title: the underscore goes. *)
Lemma clean_title_not_idempotent :
  clean_title (clean_title (lit "Park Worker")) <> clean_title (lit "Park Worker").
Proof. vm_compute. discriminate. Qed.

(** C6 as amended.  The polars chain is idempotent, on its own results and
    on the keys of the postings; the cleaner of the lighthouse pass deletes
    the underscores it inserted, so that a cleaned title is a fixed point
    exactly when it has no underscore, and a second cleaning changes
    nothing any more. *)
Theorem normalization_fixed_points :
  (forall t, lighthouse_fuzzy_match_string (lighthouse_fuzzy_match_string t) =
             lighthouse_fuzzy_match_string t)
  /\ (forall ag bt k, create_fuzzy_matching_string ag bt = Some k ->
                      lighthouse_fuzzy_match_string k = k)
  /\ (forall t, clean_title (clean_title t) = filter not_underscore (clean_title t))
  /\ (forall t, clean_title (clean_title t) = clean_title t <->
                ~ In underscore (clean_title t))
  /\ (forall t, clean_title (clean_title (clean_title t)) = clean_title (clean_title t)).
Proof.
  split; [intros t; apply key_fixed, lighthouse_fuzzy_match_string_is_key|].
  split; [intros ag bt k H; eapply key_fixed, create_fuzzy_matching_string_is_key, H|].
  split; [exact clean_title_twice|].
  split; [|exact clean_title_thrice].
  intros t. rewrite clean_title_twice. split.
  - intros H Hin. rewrite <- H in Hin. apply filter_In in Hin.
    destruct Hin as [_ Hin]. discriminate.
  - intros H. apply filter_all. apply Forall_forall. intros c Hc.
    unfold not_underscore. destruct (Ascii.eqb c underscore) eqn:E; [|reflexivity].
    apply Ascii.eqb_eq in E. subst c. contradiction.
Qed.

Lemma normalization_fixed_points_witness :
  lighthouse_fuzzy_match_string (lit "parks_park_worker_ii") = lit "parks_park_worker_ii".
Proof.
  apply (proj1 (proj2 normalization_fixed_points)
           (Some (lit " Parks ")) (Some (lit "Park   Worker, II"))).
  reflexivity.
Defined.

(** * Raising the threshold (C7) *)

Lemma filter_map_length {A B : Type} (f : A -> B) (p : B -> bool) (l : list A) :
  length (filter p (map f l)) = length (filter (fun x => p (f x)) l).
Proof.
  induction l as [|x l IH]; simpl; [reflexivity|].
  destruct (p (f x)); simpl; rewrite IH; reflexivity.
Qed.

Lemma collect_all_returned {A B : Type} (f : A -> outcome B) (g : A -> B) (l : list A) :
  (forall x, f x = Returned (g x)) -> collect (map f l) = Returned (map g l).
Proof.
  intros H. induction l as [|x l IH]; simpl; [reflexivity|].
  rewrite H, IH. reflexivity.
Qed.

Lemma combine_with_map {A B : Type} (g : A -> B) (l : list A) :
  combine l (map g l) = map (fun x => (x, g x)) l.
Proof.
  induction l as [|x l IH]; simpl; [reflexivity|]. rewrite IH. reflexivity.
Qed.

(** The tuple of a payroll resolution, blank when it raised. *)
Lemma payroll_run_rows thr payroll_df df :
  (0 < thr)%Q ->
  calculate_fuzzy_matches_with_payroll_at thr (Some payroll_df) df =
  map (fun row =>
         with_match row
           match find_best_match_with_salary_at thr (payroll_salary_lookup payroll_df)
                   (fuzzy_match_string row) with
           | Returned m => m
           | KeyError => no_match
           end) df.
Proof.
  intros Hthr. unfold calculate_fuzzy_matches_with_payroll_at.
  rewrite (collect_all_returned _
             (fun row =>
                match find_best_match_with_salary_at thr (payroll_salary_lookup payroll_df)
                        (fuzzy_match_string row) with
                | Returned m => m
                | KeyError => no_match
                end)).
  - rewrite combine_with_map, map_map. reflexivity.
  - intros row.
    pose proof (find_at_returns thr (payroll_salary_lookup payroll_df)
                  (fuzzy_match_string row) Hthr) as H.
    destruct (find_best_match_with_salary_at _ _ _); [reflexivity|contradiction].
Qed.

Lemma payroll_row_accepted thr lookup row :
  is_some (best_payroll_match
             (with_match row
                match find_best_match_with_salary_at thr lookup (fuzzy_match_string row) with
                | Returned m => m
                | KeyError => no_match
                end)) =
  payroll_accepted thr lookup (fuzzy_match_string row).
Proof.
  unfold payroll_accepted.
  destruct (find_best_match_with_salary_at thr lookup (fuzzy_match_string row))
    as [[[[bm sc] smin] smax]|]; reflexivity.
Qed.

(** C7. Raising the threshold never accepts more left records: in the
    lighthouse resolver, in the payroll resolver, in the rows a lighthouse
    run emits with a score and, for positive thresholds, in the rows a
    payroll run emits with a match. *)
Theorem threshold_monotonicity (t1 t2 : Q) :
  (t1 <= t2)%Q ->
  (forall lookup titles,
     matched_count (lighthouse_accepted lookup t2) titles <=
     matched_count (lighthouse_accepted lookup t1) titles)
  /\ (forall lookup keys,
        matched_count (payroll_accepted t2 lookup) keys <=
        matched_count (payroll_accepted t1 lookup) keys)
  /\ (forall jobs lighthouse,
        matched_count (fun r => is_some (lighthouse_match_score r))
          (generate_posting_duration_dataset_at t2 jobs lighthouse) <=
        matched_count (fun r => is_some (lighthouse_match_score r))
          (generate_posting_duration_dataset_at t1 jobs lighthouse))
  /\ ((0 < t1)%Q ->
      forall payroll df,
        matched_count (fun r => is_some (best_payroll_match r))
          (calculate_fuzzy_matches_with_payroll_at t2 payroll df) <=
        matched_count (fun r => is_some (best_payroll_match r))
          (calculate_fuzzy_matches_with_payroll_at t1 payroll df)).
Proof.
  intros Ht. unfold matched_count. split; [|split; [|split]].
  - intros lookup titles. apply filter_length_le.
    intros bt. apply lighthouse_accepted_mono, Ht.
  - intros lookup keys. apply filter_length_le.
    intros job. apply payroll_accepted_mono, Ht.
  - intros jobs lighthouse. unfold generate_posting_duration_dataset_at.
    destruct (missing_cols _ _); [|simpl; lia].
    destruct (missing_cols _ _); [|simpl; lia].
    rewrite !filter_map_length. apply filter_length_le.
    intros row. rewrite !lighthouse_score_combine_row.
    apply lighthouse_accepted_mono, Ht.
  - intros H1 payroll df.
    assert (H2 : (0 < t2)%Q) by (eapply Qlt_le_trans; eassumption).
    destruct payroll as [payroll_df|]; [|simpl; lia].
    rewrite !payroll_run_rows by assumption.
    rewrite !filter_map_length. apply filter_length_le.
    intros row. rewrite !payroll_row_accepted.
    apply payroll_accepted_mono, Ht.
Qed.

Lemma threshold_monotonicity_witness :
  matched_count (lighthouse_accepted (lighthouse_lookup [sample_benchmark "Clerk" 30])
                   (85 # 100))
    [Some (lit "clerk"); Some (lit "clerks II"); None] <=
  matched_count (lighthouse_accepted (lighthouse_lookup [sample_benchmark "Clerk" 30])
                   (7 # 10))
    [Some (lit "clerk"); Some (lit "clerks II"); None].
Proof.
  apply (proj1 (threshold_monotonicity (7 # 10) (85 # 100) ltac:(vm_compute; discriminate))).
Defined.

(** * One record out per record in (C8) *)

(** C8, a run on a frame that lacks a required column: one row in, none out. *)
Lemma missing_column_drops_rows :
  length (generate_posting_duration_dataset
            (mkJobsFrame ["job_id"; "business_title"]%string [sample_job "clerk" 45])
            (mkLighthouseFrame all_columns_lighthouse [sample_benchmark "Clerk" 30]))
  <> length [sample_job "clerk" 45].
Proof. vm_compute. discriminate. Qed.

(** C8 as amended.  The payroll pass returns one row per left record, in
    the order of the input, whether the payroll file is missing, the
    matching fails or it succeeds; the lighthouse pass does so when the
    required columns are present, and returns an empty collection when
    one is missing. *)
Theorem order_preservation :
  (forall payroll df,
     map posting (calculate_fuzzy_matches_with_payroll payroll df) = df /\
     length (calculate_fuzzy_matches_with_payroll payroll df) = length df)
  /\ (forall jobs lighthouse,
        missing_cols required_jobs_cols (jobs_columns jobs) = [] ->
        missing_cols required_lighthouse_cols (lighthouse_columns lighthouse) = [] ->
        map job_posting (generate_posting_duration_dataset jobs lighthouse) = jobs_rows jobs /\
        length (generate_posting_duration_dataset jobs lighthouse) = length (jobs_rows jobs))
  /\ (forall jobs lighthouse,
        missing_cols required_jobs_cols (jobs_columns jobs) <> [] \/
        missing_cols required_lighthouse_cols (lighthouse_columns lighthouse) <> [] ->
        generate_posting_duration_dataset jobs lighthouse = []).
Proof.
  split; [|split].
  - intros payroll df. split; [apply payroll_pass_rows|].
    rewrite <- (payroll_pass_rows payroll_threshold payroll df) at 2.
    rewrite length_map. reflexivity.
  - intros jobs lighthouse Hjobs Hlighthouse.
    unfold generate_posting_duration_dataset, generate_posting_duration_dataset_at.
    rewrite Hjobs, Hlighthouse. split; [|apply length_map].
    rewrite map_map. rewrite <- (map_id (jobs_rows jobs)) at 2.
    apply map_ext. intros row. apply job_posting_combine_row.
  - intros jobs lighthouse H.
    unfold generate_posting_duration_dataset, generate_posting_duration_dataset_at.
    destruct (missing_cols required_jobs_cols (jobs_columns jobs)) as [|x l];
      destruct (missing_cols required_lighthouse_cols (lighthouse_columns lighthouse));
      try reflexivity.
    destruct H as [H|H]; contradiction.
Qed.

Lemma order_preservation_witness :
  map job_posting
    (generate_posting_duration_dataset
       (mkJobsFrame all_columns_jobs [sample_job "clerk" 45; sample_job "driver" 10])
       (mkLighthouseFrame all_columns_lighthouse [sample_benchmark "Clerk" 30]))
  = [sample_job "clerk" 45; sample_job "driver" 10].
Proof.
  apply (proj1 (proj1 (proj2 order_preservation)
                  (mkJobsFrame all_columns_jobs [sample_job "clerk" 45; sample_job "driver" 10])
                  (mkLighthouseFrame all_columns_lighthouse [sample_benchmark "Clerk" 30])
                  eq_refl eq_refl)).
Defined.

(** * The two resolvers compared (C9) *)

(** C9, at the threshold 0 and a key that shares nothing with the
    candidate: the payroll resolver takes its accepting branch and reads
    the payload of [None], the lighthouse resolver rejects. *)
Lemma resolvers_differ_at_zero_threshold :
  payroll_emitted
    (find_best_match_with_salary_at 0 [(lit "b", (1, 1)%Q)] (Some (clean_title (lit "a"))))
  <> lighthouse_emitted
       (find_best_lighthouse_match (lighthouse_lookup [sample_benchmark "b" 30])
          (Some (lit "a")) 0).
Proof. vm_compute. discriminate. Qed.

(** C9 as amended.  Over the same candidates and for every positive
    threshold, the payroll resolver on a cleaned key and the lighthouse
    resolver on the title it was cleaned from emit the same decision, the
    same matched key and the same score; at any threshold they do so
    unless the payroll resolver raises. *)
Theorem resolvers_equivalent (thr : Q) (plookup : salary_lookup)
    (llookup : lighthouse_lookup_t) (bt : str) :
  dict_keys plookup = dict_keys llookup ->
  ((0 < thr)%Q ->
   payroll_emitted (find_best_match_with_salary_at thr plookup (Some (clean_title bt))) =
   lighthouse_emitted (find_best_lighthouse_match llookup (Some bt) thr))
  /\ (find_best_match_with_salary_at thr plookup (Some (clean_title bt)) = KeyError \/
      payroll_emitted (find_best_match_with_salary_at thr plookup (Some (clean_title bt))) =
      lighthouse_emitted (find_best_lighthouse_match llookup (Some bt) thr)).
Proof.
  intros Hk. split; [|apply resolvers_agree_or_raise; assumption].
  intros Hthr.
  destruct (resolvers_agree_or_raise thr plookup llookup bt Hk) as [H|H]; [|assumption].
  exfalso. exact (find_at_returns thr plookup _ Hthr H).
Qed.

Lemma resolvers_equivalent_witness :
  payroll_emitted
    (find_best_match_with_salary_at (85 # 100) [(lit "clerk", (1, 2)%Q)]
       (Some (clean_title (lit "Clerks")))) =
  lighthouse_emitted
    (find_best_lighthouse_match (lighthouse_lookup [sample_benchmark "Clerk" 30])
       (Some (lit "Clerks")) (85 # 100)).
Proof.
  apply (proj1 (resolvers_equivalent (85 # 100) [(lit "clerk", (1, 2)%Q)]
                  (lighthouse_lookup [sample_benchmark "Clerk" 30]) (lit "Clerks") eq_refl)).
  reflexivity.
Defined.

(** * The salaries of an accepted match (C10) *)

(** C10. The candidates are the keys of the payroll rows that have a
    non-empty key and both salaries; an accepted match carries the
    arithmetic means of [salary_min] and of [salary_max] over the rows of
    its group, which on the sample is 35000 where the minimum is 30000. *)
Theorem payroll_salary_is_group_mean :
  (forall rows job m sc avg_min avg_max,
     find_best_match_with_salary (payroll_salary_lookup rows) job =
       Returned (Some m, Some sc, Some avg_min, Some avg_max) ->
     group rows m <> [] /\
     avg_min = average (values salary_min (group rows m)) /\
     avg_max = average (values salary_max (group rows m)))
  /\ (forall rows c,
        In c (dict_keys (payroll_salary_lookup rows)) <->
        exists row, In row rows /\ in_group c row = true)
  /\ (exists row avg_min least,
        calculate_fuzzy_matches_with_payroll (Some sample_payroll) [sample_posting] = [row] /\
        best_payroll_match row = Some (lit "dept_x_clerk") /\
        payroll_salary_min row = Some avg_min /\
        Qmin_list (values salary_min (group sample_payroll (lit "dept_x_clerk"))) = Some least /\
        (avg_min == 35000)%Q /\ (least == 30000)%Q).
Proof.
  split; [|split; [exact payroll_salary_lookup_keys|]].
  - intros rows job m sc avg_min avg_max H.
    apply find_at_accepts in H. rewrite payroll_salary_lookup_get in H.
    destruct (group rows m) as [|r g]; [discriminate|].
    inversion H. repeat split. discriminate.
  - eexists. exists (70000 # 2)%Q, 30000%Q.
    split; [vm_compute; reflexivity|]. vm_compute. repeat split.
Qed.

Lemma payroll_salary_is_group_mean_witness :
  group sample_payroll (lit "dept_x_clerk") <> [] /\
  (70000 # 2)%Q = average (values salary_min (group sample_payroll (lit "dept_x_clerk"))) /\
  (110000 # 2)%Q = average (values salary_max (group sample_payroll (lit "dept_x_clerk"))).
Proof.
  apply (proj1 payroll_salary_is_group_mean sample_payroll (Some (lit "dept_x_clerk"))
           (lit "dept_x_clerk") (24 # 24)%Q).
  vm_compute. reflexivity.
Defined.

(** * The shape of the keys and of the cleaned titles *)

Lemma key_char_alphabet c : key_char c -> key_alphabet c = true.
Proof.
  intros [H1 H2]. revert H1 H2.
  destruct c as [[|] [|] [|] [|] [|] [|] [|] [|]]; vm_compute;
    intros; try reflexivity; try discriminate.
Qed.


Lemma all_forallb (f : ascii -> bool) (P : ascii -> Prop) x :
  (forall c, P c -> f c = true) -> all P x -> forallb f x = true.
Proof.
  intros H Hx. induction Hx as [|c x Hc Hx IH]; simpl; [reflexivity|].
  rewrite (H c Hc), IH. reflexivity.
Qed.

Lemma In_replace_spaces c x :
  re_space c = false -> In c x -> forall r, In c (replace_spaces x r).
Proof.
  intros Hc. induction x as [|d x IH]; simpl; [tauto|].
  intros [->|H] r.
  - rewrite Hc. left. reflexivity.
  - destruct (re_space d); [destruct r|]; simpl; auto.
Qed.

Lemma In_key_underscore x y :
  In underscore (replace_spaces (remove_special (x ++ [underscore] ++ y)) false).
Proof.
  apply In_replace_spaces; [reflexivity|].
  unfold remove_special. apply filter_In. split; [|reflexivity].
  apply in_or_app. right. left. reflexivity.
Qed.

(** Case and surrounding white space of a field *)

Lemma lstrip_app_spaces sp w x :
  all (fun c => sp c = true) w -> lstrip sp (w ++ x) = lstrip sp x.
Proof.
  intros H. induction H as [|c w Hc Hw IH]; simpl; [reflexivity|].
  rewrite Hc. exact IH.
Qed.

Lemma lstrip_fix sp x : lstrip sp (lstrip sp x) = lstrip sp x.
Proof.
  induction x as [|c x IH]; simpl; [reflexivity|].
  destruct (sp c) eqn:E; [exact IH|]. simpl. rewrite E. reflexivity.
Qed.

Lemma lstrip_app_r sp x w :
  all (fun c => sp c = true) w ->
  lstrip sp (rev (lstrip sp (x ++ w))) = lstrip sp (rev (lstrip sp x)).
Proof.
  intros Hw. induction x as [|c x IH]; simpl.
  - rewrite <- (app_nil_r w) at 1. rewrite lstrip_app_spaces by assumption. reflexivity.
  - destruct (sp c) eqn:E; [exact IH|].
    change (c :: x ++ w) with ((c :: x) ++ w).
    rewrite rev_app_distr. apply lstrip_app_spaces.
    unfold all in *. apply Forall_rev. assumption.
Qed.

Lemma strip_padding sp w1 x w2 :
  all (fun c => sp c = true) w1 -> all (fun c => sp c = true) w2 ->
  strip sp (w1 ++ x ++ w2) = strip sp x.
Proof.
  intros H1 H2. unfold strip.
  rewrite lstrip_app_spaces by assumption.
  rewrite lstrip_app_r by assumption. reflexivity.
Qed.

Lemma lower_space c : re_space c = true -> re_space (lower_char c) = true.
Proof.
  destruct c as [[|] [|] [|] [|] [|] [|] [|] [|]]; vm_compute;
    intros; try reflexivity; try discriminate.
Qed.

Lemma lower_strip_padding w1 x w2 :
  all (fun c => re_space c = true) w1 -> all (fun c => re_space c = true) w2 ->
  lower_strip (w1 ++ x ++ w2) = lower_strip x.
Proof.
  intros H1 H2. unfold lower_strip, lower. rewrite !map_app.
  apply strip_padding; unfold all in *; apply Forall_map;
    (eapply Forall_impl; [|eassumption]); intros c; apply lower_space.
Qed.

Lemma lower_strip_case x y : lower x = lower y -> lower_strip x = lower_strip y.
Proof. unfold lower_strip. intros ->. reflexivity. Qed.

(** Words of a cleaned title *)













(** X1. The key of a posting or of a payroll row is null exactly when the
    agency or the title is null; otherwise it is a non-empty string over
    [a-z0-9_] that contains the underscore put between the two fields, so
    that the resolver's test [if not job_fuzzy_string] only rejects null
    keys. *)
Theorem fuzzy_key_shape (ag bt : option str) :
  (create_fuzzy_matching_string ag bt = None <-> ag = None \/ bt = None)
  /\ (forall k, create_fuzzy_matching_string ag bt = Some k ->
        In underscore k /\ forallb key_alphabet k = true /\
        truthy (Some k) = true).
Proof.
  split.
  - destruct ag, bt; simpl; split; intros H; try reflexivity; try discriminate; auto.
    destruct H; discriminate.
  - intros k H.
    assert (Hu : In underscore k).
    { destruct ag as [a|], bt as [b|]; try discriminate.
      simpl in H. inversion H. apply In_key_underscore. }
    split; [assumption|]. split.
    + apply (all_forallb _ key_char); [apply key_char_alphabet|].
      apply (create_fuzzy_matching_string_is_key ag bt). assumption.
    + destruct k; [destruct Hu|reflexivity].
Qed.

Lemma fuzzy_key_shape_witness :
  In underscore (lit "dept_x_clerk") /\
  forallb key_alphabet (lit "dept_x_clerk") = true /\
  truthy (Some (lit "dept_x_clerk")) = true.
Proof.
  apply (proj2 (fuzzy_key_shape (Some (lit "Dept. X")) (Some (lit "Clerk")))).
  vm_compute. reflexivity.
Defined.

(** X2. The key ignores the letter case of the two fields and the white
    space around them. *)
Theorem fuzzy_key_ignores_case_and_padding (ag ag' bt bt' w1 w2 w3 w4 : str) :
  lower ag = lower ag' -> lower bt = lower bt' ->
  all (fun c => re_space c = true) (w1 ++ w2 ++ w3 ++ w4) ->
  create_fuzzy_matching_string (Some (w1 ++ ag ++ w2)) (Some (w3 ++ bt ++ w4)) =
  create_fuzzy_matching_string (Some ag') (Some bt').
Proof.
  intros Ha Hb Hw. unfold all in Hw.
  apply Forall_app in Hw. destruct Hw as [H1 Hw].
  apply Forall_app in Hw. destruct Hw as [H2 Hw].
  apply Forall_app in Hw. destruct Hw as [H3 H4].
  unfold create_fuzzy_matching_string.
  rewrite !lower_strip_padding by assumption.
  rewrite (lower_strip_case ag ag' Ha), (lower_strip_case bt bt' Hb). reflexivity.
Qed.

Lemma fuzzy_key_ignores_case_and_padding_witness :
  create_fuzzy_matching_string (Some (lit "  DEPT. X ")) (Some (lit "Clerk  ")) =
  create_fuzzy_matching_string (Some (lit "Dept. x")) (Some (lit "clerk")).
Proof.
  apply (fuzzy_key_ignores_case_and_padding (lit "DEPT. X") (lit "Dept. x")
           (lit "Clerk") (lit "clerk") (lit "  ") (lit " ") [] (lit "  "));
    vm_compute; try reflexivity.
  repeat constructor.
Defined.


(** * The lighthouse lookup and its resolver *)

Lemma lighthouse_lookup_add_get d row k :
  dict_get str_eqb (lighthouse_lookup_add d row) k =
  match lighthouse_job_title row with
  | Some (c :: t) =>
      if str_eqb (clean_title (c :: t)) k then Some (lighthouse_entry (c :: t) row)
      else dict_get str_eqb d k
  | _ => dict_get str_eqb d k
  end.
Proof.
  unfold lighthouse_lookup_add.
  destruct (lighthouse_job_title row) as [[|c t]|]; try reflexivity.
  rewrite (dict_get_upsert str_eqb str_eqb_spec). reflexivity.
Qed.

Lemma lighthouse_fold_untitled post k :
  (forall r, In r post -> titled k r = false) ->
  forall d, dict_get str_eqb (fold_left lighthouse_lookup_add post d) k =
            dict_get str_eqb d k.
Proof.
  induction post as [|r post IH]; intros H d; simpl; [reflexivity|].
  rewrite IH by (intros r' Hr'; apply H; right; assumption).
  rewrite lighthouse_lookup_add_get.
  pose proof (H r (or_introl eq_refl)) as Hr. unfold titled in Hr.
  destruct (lighthouse_job_title r) as [[|c t]|]; try reflexivity.
  rewrite Hr. reflexivity.
Qed.

Lemma lighthouse_fold_get rows :
  forall d k v,
    dict_get str_eqb (fold_left lighthouse_lookup_add rows d) k = Some v ->
    dict_get str_eqb d k = Some v \/
    exists row t, In row rows /\ lighthouse_job_title row = Some t /\
                  titled k row = true /\ v = lighthouse_entry t row.
Proof.
  induction rows as [|r rows IH]; intros d k v H; simpl in H; [auto|].
  apply IH in H. destruct H as [H|[row [t [Hin H]]]].
  - rewrite lighthouse_lookup_add_get in H.
    destruct (lighthouse_job_title r) as [[|c t]|] eqn:Et; auto.
    destruct (str_eqb (clean_title (c :: t)) k) eqn:Ek; auto.
    right. exists r, (c :: t). inversion H. unfold titled. rewrite Et, Ek.
    simpl. auto.
  - right. exists row, t. simpl. tauto.
Qed.

Lemma lighthouse_fold_keys rows :
  forall d k,
    In k (dict_keys (fold_left lighthouse_lookup_add rows d)) <->
    In k (dict_keys d) \/ exists row, In row rows /\ titled k row = true.
Proof.
  induction rows as [|r rows IH]; intros d k; simpl.
  - split; [auto|]. intros [H|[row [[] _]]]. assumption.
  - rewrite IH.
    assert (Hadd : In k (dict_keys (lighthouse_lookup_add d r)) <->
                   In k (dict_keys d) \/ titled k r = true).
    { unfold lighthouse_lookup_add, titled.
      destruct (lighthouse_job_title r) as [[|c t]|];
        try (split; [auto|intros [H|H]; [assumption|discriminate]]).
      rewrite (dict_keys_upsert str_eqb).
      destruct (existsb _ _) eqn:E.
      - split; [auto|]. intros [H|H]; [assumption|].
        apply str_eqb_spec in H. subst k.
        apply existsb_exists in E. destruct E as [x [Hx E]].
        apply str_eqb_spec in E. subst x. assumption.
      - rewrite in_app_iff. simpl. rewrite str_eqb_spec. tauto. }
    rewrite Hadd. split.
    + intros [[H|H]|[row [Hin H]]]; eauto.
    + intros [H|[row [[<-|Hin] H]]]; eauto.
Qed.

Lemma lighthouse_fold_NoDup rows :
  forall d, NoDup (dict_keys d) ->
            NoDup (dict_keys (fold_left lighthouse_lookup_add rows d)).
Proof.
  induction rows as [|r rows IH]; intros d H; simpl; [assumption|].
  apply IH. unfold lighthouse_lookup_add.
  destruct (lighthouse_job_title r) as [[|c t]|]; try assumption.
  apply (NoDup_keys_upsert str_eqb str_eqb_spec). assumption.
Qed.

(** X4. The lighthouse lookup has one entry per cleaned title of a titled
    row; under a cleaned title it holds the fields of the last row that
    cleans to it, the earlier ones being overwritten. *)
Theorem lighthouse_lookup_last_row_wins (rows : list LighthouseRow) (k : str) :
  NoDup (dict_keys (lighthouse_lookup rows))
  /\ (In k (dict_keys (lighthouse_lookup rows)) <->
      exists row, In row rows /\ titled k row = true)
  /\ (forall pre row post t,
        rows = pre ++ row :: post ->
        lighthouse_job_title row = Some t -> titled k row = true ->
        (forall r, In r post -> titled k r = false) ->
        dict_get str_eqb (lighthouse_lookup rows) k = Some (lighthouse_entry t row)).
Proof.
  unfold lighthouse_lookup. split; [|split].
  - apply lighthouse_fold_NoDup. constructor.
  - rewrite lighthouse_fold_keys. simpl. tauto.
  - intros pre row post t -> Ht Hk Hpost.
    rewrite fold_left_app. simpl.
    rewrite lighthouse_fold_untitled by assumption.
    rewrite lighthouse_lookup_add_get.
    unfold titled in Hk. rewrite Ht in *.
    destruct t as [|c t]; [discriminate|]. rewrite Hk. reflexivity.
Qed.

Lemma lighthouse_lookup_last_row_wins_witness :
  dict_get str_eqb
    (lighthouse_lookup [sample_benchmark "Clerk" 30; sample_benchmark "CLERK!" 45])
    (lit "clerk")
  = Some (lighthouse_entry (lit "CLERK!") (sample_benchmark "CLERK!" 45)).
Proof.
  apply (proj2 (proj2 (lighthouse_lookup_last_row_wins
                         [sample_benchmark "Clerk" 30; sample_benchmark "CLERK!" 45]
                         (lit "clerk")))
           [sample_benchmark "Clerk" 30] (sample_benchmark "CLERK!" 45) []).
  - reflexivity.
  - reflexivity.
  - vm_compute. reflexivity.
  - intros r [].
Defined.

Lemma lighthouse_find_unfold lookup thr c t :
  find_best_lighthouse_match lookup (Some (c :: t)) thr =
  fold_left (lighthouse_step lookup thr (clean_title (c :: t)))
    (dict_keys lookup) (None, 0%Q, None).
Proof. reflexivity. Qed.

Lemma lighthouse_find_some lookup bt thr m sc d :
  find_best_lighthouse_match lookup (Some bt) thr = (Some m, sc, d) ->
  first_best (clean_title bt) (dict_keys lookup) m /\
  sc = ratio (clean_title bt) m /\
  (thr <= sc)%Q /\ (0 < sc)%Q /\ (sc <= 1)%Q /\
  d = dict_get str_eqb lookup m /\ nonempty m = true.
Proof.
  destruct bt as [|c t]; [discriminate|].
  rewrite lighthouse_find_unfold.
  set (job := clean_title (c :: t)). intros H.
  pose proof (scan_agree lookup thr job (dict_keys lookup) _ _ (agree_init thr)) as Ha.
  rewrite H in Ha.
  destruct (lighthouse_scan lookup thr job (dict_keys lookup) None 0%Q None)
    as [[Hr _]|[m' [Hr [Hin [Hne [Hpos Hthr]]]]]]; rewrite Hr in H; [discriminate|].
  inversion H; subst m' sc d. clear H.
  destruct (payroll_scan job (dict_keys lookup) None 0%Q)
    as [[Hp _]|[m' [Hp [_ Hfb]]]]; rewrite Hp in Ha; unfold agree in Ha; simpl in Ha.
  - destruct Ha as [[_ [Ha _]]|[_ [_ Ha]]]; discriminate.
  - destruct Ha as [[_ [Ha _]]|[_ [_ Ha]]]; [|discriminate].
    inversion Ha; subst m'.
    repeat split; try assumption; try reflexivity.
    apply ratio_bounds.
Qed.

Lemma lighthouse_find_none lookup bt thr :
  fst (fst (find_best_lighthouse_match lookup (Some bt) thr)) = None <->
  (forall c, In c (dict_keys lookup) -> nonempty c = true ->
     ~ ((0 < ratio (clean_title bt) c)%Q /\ (thr <= ratio (clean_title bt) c)%Q)).
Proof.
  destruct bt as [|c t].
  - simpl. split; [|reflexivity]. intros _ k _ Hk [Hpos _].
    assert (E : (ratio (clean_title []) k == 0)%Q).
    { apply ratio_zero_of_empty; [left; reflexivity|].
      destruct k; [discriminate|]. vm_compute. discriminate. }
    rewrite E in Hpos. discriminate.
  - rewrite lighthouse_find_unfold.
    destruct (lighthouse_scan lookup thr (clean_title (c :: t)) (dict_keys lookup)
                None 0%Q None)
      as [[Hr Hno]|[m [Hr [Hin [Hne [Hpos Hthr]]]]]]; rewrite Hr; simpl.
    + split; [intros _; exact Hno|reflexivity].
    + split; [discriminate|]. intros H. exfalso. apply (H m); auto.
Qed.

(** X5. [find_best_lighthouse_match] returns a title exactly when some
    non-empty key of the lookup scores above 0 and at least the threshold
    against the cleaned business title; the title it returns is then the
    first key of maximal score, the score is that key's ratio, and the data
    are the lookup's entry for that key. *)
Theorem lighthouse_best_match (lookup : lighthouse_lookup_t) (bt : str) (thr : Q) :
  (forall m sc d,
     find_best_lighthouse_match lookup (Some bt) thr = (Some m, sc, d) ->
     first_best (clean_title bt) (dict_keys lookup) m /\
     sc = ratio (clean_title bt) m /\
     (thr <= sc)%Q /\ (0 < sc)%Q /\ (sc <= 1)%Q /\
     d = dict_get str_eqb lookup m /\ d <> None)
  /\ (fst (fst (find_best_lighthouse_match lookup (Some bt) thr)) = None <->
      forall c, In c (dict_keys lookup) -> nonempty c = true ->
        ~ ((0 < ratio (clean_title bt) c)%Q /\ (thr <= ratio (clean_title bt) c)%Q)).
Proof.
  split; [|apply lighthouse_find_none].
  intros m sc d H. apply lighthouse_find_some in H.
  destruct H as [Hfb [Hsc [Hthr [Hpos [Hle [Hd _]]]]]].
  repeat split; try assumption.
  subst d. destruct (dict_get_In str_eqb str_eqb_spec lookup m (first_best_In _ _ _ Hfb))
    as [v ->]. discriminate.
Qed.

Lemma lighthouse_best_match_witness :
  first_best (clean_title (lit "Clerks"))
    (dict_keys (lighthouse_lookup [sample_benchmark "Driver" 10; sample_benchmark "Clerk" 30]))
    (lit "clerk").
Proof.
  apply (proj1 (lighthouse_best_match
                  (lighthouse_lookup [sample_benchmark "Driver" 10; sample_benchmark "Clerk" 30])
                  (lit "Clerks") lighthouse_threshold)
           (lit "clerk") (10 # 11)%Q
           (Some (lighthouse_entry (lit "Clerk") (sample_benchmark "Clerk" 30)))).
  vm_compute. reflexivity.
Defined.

(** * The rows a pass returns *)

Lemma find_at_cases thr lookup job :
  (0 < thr)%Q ->
  find_best_match_with_salary_at thr lookup job = Returned no_match \/
  exists k m mn mx,
    job = Some k /\ k <> [] /\
    find_best_match_with_salary_at thr lookup job =
      Returned (Some m, Some (ratio k m), Some mn, Some mx) /\
    first_best k (dict_keys lookup) m /\ (thr <= ratio k m)%Q /\
    dict_get str_eqb lookup m = Some (mn, mx).
Proof.
  intros Hthr. destruct job as [[|c k]|]; try (left; reflexivity).
  rewrite find_at_unfold. cbv zeta.
  destruct (payroll_scan (c :: k) (dict_keys lookup) None 0%Q)
    as [[Hr _]|[m [Hr [_ Hfb]]]]; rewrite Hr; simpl.
  - assert (Qleb thr 0 = false) as -> by (apply Qleb_gt; assumption). left. reflexivity.
  - destruct (Qleb thr (ratio (c :: k) m)) eqn:E; [|left; reflexivity].
    destruct (dict_get_In str_eqb str_eqb_spec lookup m (first_best_In _ _ _ Hfb))
      as [[amin amax] Hg].
    rewrite Hg. right. exists (c :: k), m, amin, amax.
    repeat split; try assumption; try discriminate.
    apply Qleb_le. assumption.
Qed.

Lemma payroll_threshold_pos : (0 < payroll_threshold)%Q.
Proof. reflexivity. Qed.

Lemma payroll_rows_cases payroll df r :
  In r (calculate_fuzzy_matches_with_payroll payroll df) ->
  payroll_blank r \/
  exists rows k m mn mx,
    payroll = Some rows /\
    fuzzy_match_string (posting r) = Some k /\ k <> [] /\
    first_best k (dict_keys (payroll_salary_lookup rows)) m /\
    (payroll_threshold <= ratio k m)%Q /\
    dict_get str_eqb (payroll_salary_lookup rows) m = Some (mn, mx) /\
    best_payroll_match r = Some m /\ best_match_score r = Some (ratio k m) /\
    payroll_salary_min r = Some mn /\ payroll_salary_max r = Some mx.
Proof.
  unfold calculate_fuzzy_matches_with_payroll.
  destruct payroll as [rows|].
  - rewrite (payroll_run_rows _ _ _ payroll_threshold_pos).
    intros H. apply in_map_iff in H. destruct H as [row [<- _]].
    destruct (find_at_cases payroll_threshold (payroll_salary_lookup rows)
                (fuzzy_match_string row) payroll_threshold_pos)
      as [E|[k [m [mn [mx [Hk [Hne [E [Hfb [Hthr Hg]]]]]]]]]]; rewrite E.
    + left. repeat split.
    + right. exists rows, k, m, mn, mx. simpl. repeat split; assumption.
  - simpl. intros H. apply in_map_iff in H. destruct H as [row [<- _]].
    left. repeat split.
Qed.

(** X6. In the frame the payroll pass returns, the four payroll columns of
    a row are all null or all present; when present, the match is a key of
    the salary lookup, the first of maximal score against the row's own
    key, the score is that ratio and lies between 0.85 and 1, and the two
    salaries are the lookup's entry for the match. *)
Theorem payroll_columns_of_a_row (payroll : option (list PayrollRow))
    (df : list JobRow) (r : MatchedJob) :
  In r (calculate_fuzzy_matches_with_payroll payroll df) ->
  payroll_blank r \/
  exists rows k m sc mn mx,
    payroll = Some rows /\
    fuzzy_match_string (posting r) = Some k /\ k <> [] /\
    first_best k (dict_keys (payroll_salary_lookup rows)) m /\
    sc = ratio k m /\ (85 # 100 <= sc)%Q /\ (sc <= 1)%Q /\
    best_payroll_match r = Some m /\ best_match_score r = Some sc /\
    payroll_salary_min r = Some mn /\ payroll_salary_max r = Some mx /\
    dict_get str_eqb (payroll_salary_lookup rows) m = Some (mn, mx).
Proof.
  intros H. apply payroll_rows_cases in H.
  destruct H as [H|[rows [k [m [mn [mx H]]]]]]; [left; assumption|].
  right. exists rows, k, m, (ratio k m), mn, mx.
  destruct H as [H1 [H2 [H3 [H4 [H5 [H6 [H7 [H8 [H9 H10]]]]]]]]].
  repeat split; try assumption. apply ratio_bounds.
Qed.

Lemma payroll_columns_of_a_row_witness :
  let r := mkMatchedJob sample_posting (Some (lit "dept_x_clerk")) (Some (24 # 24)%Q)
             (Some (70000 # 2)%Q) (Some (110000 # 2)%Q) in
  payroll_blank r \/
  exists rows k m sc mn mx,
    Some sample_payroll = Some rows /\
    fuzzy_match_string (posting r) = Some k /\ k <> [] /\
    first_best k (dict_keys (payroll_salary_lookup rows)) m /\
    sc = ratio k m /\ (85 # 100 <= sc)%Q /\ (sc <= 1)%Q /\
    best_payroll_match r = Some m /\ best_match_score r = Some sc /\
    payroll_salary_min r = Some mn /\ payroll_salary_max r = Some mx /\
    dict_get str_eqb (payroll_salary_lookup rows) m = Some (mn, mx).
Proof.
  apply (payroll_columns_of_a_row (Some sample_payroll) [sample_posting]).
  vm_compute. left. reflexivity.
Defined.

(** Means of lists in order *)

Lemma fold_plus_le l1 l2 :
  Forall2 Qle l1 l2 ->
  forall a b, (a <= b)%Q -> (fold_left Qplus l1 a <= fold_left Qplus l2 b)%Q.
Proof.
  induction 1 as [|x y l1 l2 Hxy _ IH]; intros a b Hab; simpl; [assumption|].
  apply IH. apply Qplus_le_compat; assumption.
Qed.

Lemma average_le l1 l2 : Forall2 Qle l1 l2 -> (average l1 <= average l2)%Q.
Proof.
  intros H. unfold average, sumQ.
  rewrite (Forall2_length H).
  unfold Qdiv. apply Qmult_le_compat_r.
  - apply fold_plus_le; [assumption|apply Qle_refl].
  - apply Qinv_le_0_compat. unfold Qle. simpl. lia.
Qed.

Lemma values_group_ordered rows k :
  salaries_ordered rows ->
  Forall2 Qle (values salary_min (group rows k)) (values salary_max (group rows k)).
Proof.
  unfold salaries_ordered, group.
  induction rows as [|row rows IH]; intros H; simpl; [constructor|].
  assert (IH' : Forall2 Qle (values salary_min (filter (in_group k) rows))
                  (values salary_max (filter (in_group k) rows))).
  { apply IH. intros r mn mx Hr. apply H. right. assumption. }
  destruct (in_group k row) eqn:E; [|assumption].
  rewrite !values_cons. unfold in_group in E.
  destruct (payroll_fuzzy_match_string row); [|discriminate].
  destruct (salary_min row) as [mn|] eqn:Emn; [|discriminate].
  destruct (salary_max row) as [mx|] eqn:Emx; [|discriminate].
  simpl. constructor; [|assumption].
  apply (H row); auto. left. reflexivity.
Qed.

(** The rows of a lighthouse run *)

Lemma promoted_some {A : Type} c k d (field : LighthouseData -> option A) :
  promoted (Some (c :: k)) (Some d) field = field d.
Proof. reflexivity. Qed.

Lemma combine_row_cases lookup thr row :
  lighthouse_blank (combine_row lookup thr row) \/
  exists bt m d,
    business_title row = Some bt /\
    first_best (clean_title bt) (dict_keys lookup) m /\
    (thr <= ratio (clean_title bt) m)%Q /\
    dict_get str_eqb lookup m = Some d /\
    lighthouse_match_title (combine_row lookup thr row) = Some (original_title d) /\
    lighthouse_match_score (combine_row lookup thr row) = Some (ratio (clean_title bt) m) /\
    matched_median_posting_duration (combine_row lookup thr row) = median_duration d /\
    matched_total_postings (combine_row lookup thr row) = total_postings d /\
    matched_median_salary (combine_row lookup thr row) = median_salary d /\
    matched_top_skills (combine_row lookup thr row) = top_skills d /\
    matched_education_requirements (combine_row lookup thr row) = education_requirements d /\
    matched_experience_level (combine_row lookup thr row) = experience_level d /\
    matched_salary_category (combine_row lookup thr row) = salary_category d /\
    matched_posting_intensity (combine_row lookup thr row) = posting_intensity d.
Proof.
  unfold combine_row.
  destruct (business_title row) as [bt|] eqn:Ebt.
  - destruct (find_best_lighthouse_match lookup (Some bt) thr) as [[bm sc] d] eqn:E.
    destruct bm as [m|].
    + apply lighthouse_find_some in E.
      destruct E as [Hfb [Hsc [Hthr [_ [_ [Hd Hne]]]]]].
      destruct (dict_get_In str_eqb str_eqb_spec lookup m (first_best_In _ _ _ Hfb))
        as [v Hv].
      rewrite Hv in Hd. subst d sc. destruct m as [|c k]; [discriminate|].
      right. exists bt, (c :: k), v. rewrite !promoted_some. simpl.
      repeat split; try assumption; reflexivity.
    + left. unfold lighthouse_blank. simpl. repeat split; try reflexivity;
        destruct (posting_duration_days row); reflexivity.
  - simpl. left. unfold lighthouse_blank. simpl. repeat split; try reflexivity;
      destruct (posting_duration_days row); reflexivity.
Qed.

(** X7. In the frame a lighthouse run returns, a row either has its twelve
    lighthouse columns null, or carries one lighthouse row as a whole: the
    title as that row has it, its eight fields, and as score the ratio of
    the two cleaned titles, which is at least 0.7 and at most 1.  The
    columns of a row never come from two lighthouse rows. *)
Theorem lighthouse_columns_of_a_row (jobs : JobsFrame) (lighthouse : LighthouseFrame)
    (r : CombinedRow) :
  In r (generate_posting_duration_dataset jobs lighthouse) ->
  lighthouse_blank r \/
  exists row t bt sc,
    In row (lighthouse_rows lighthouse) /\
    lighthouse_job_title row = Some t /\
    business_title (job_posting r) = Some bt /\
    lighthouse_match_title r = Some t /\
    lighthouse_match_score r = Some sc /\
    sc = ratio (clean_title bt) (clean_title t) /\
    (7 # 10 <= sc)%Q /\ (sc <= 1)%Q /\
    lighthouse_fields_of row r.
Proof.
  unfold generate_posting_duration_dataset, generate_posting_duration_dataset_at.
  destruct (missing_cols required_jobs_cols (jobs_columns jobs)); [|intros []].
  destruct (missing_cols required_lighthouse_cols (lighthouse_columns lighthouse));
    [|intros []].
  intros H. apply in_map_iff in H. destruct H as [job [<- _]].
  set (lookup := lighthouse_lookup (lighthouse_rows lighthouse)).
  destruct (combine_row_cases lookup lighthouse_threshold job)
    as [Hb|[bt [m [d [Hbt [Hfb [Hthr [Hd H]]]]]]]]; [left; assumption|].
  right.
  destruct (lighthouse_fold_get (lighthouse_rows lighthouse) [] m d Hd)
    as [Hd0|[row [t [Hin [Ht [Hk ->]]]]]]; [discriminate|].
  assert (Em : clean_title t = m).
  { unfold titled in Hk. rewrite Ht in Hk. destruct t; [discriminate|].
    apply str_eqb_spec. assumption. }
  exists row, t, bt, (ratio (clean_title bt) m).
  rewrite job_posting_combine_row.
  destruct H as [H1 [H2 H3]]. simpl in H1, H3.
  repeat split; try assumption; try apply H3.
  - rewrite Em. reflexivity.
  - apply ratio_bounds.
Qed.

Lemma lighthouse_columns_of_a_row_witness :
  let r := combine_row (lighthouse_lookup [sample_benchmark "Clerk" 30])
             lighthouse_threshold (sample_job "clerks" 45) in
  lighthouse_blank r \/
  exists row t bt sc,
    In row [sample_benchmark "Clerk" 30] /\
    lighthouse_job_title row = Some t /\
    business_title (job_posting r) = Some bt /\
    lighthouse_match_title r = Some t /\
    lighthouse_match_score r = Some sc /\
    sc = ratio (clean_title bt) (clean_title t) /\
    (7 # 10 <= sc)%Q /\ (sc <= 1)%Q /\
    lighthouse_fields_of row r.
Proof.
  apply (lighthouse_columns_of_a_row
           (mkJobsFrame all_columns_jobs [sample_job "clerks" 45])
           (mkLighthouseFrame all_columns_lighthouse [sample_benchmark "Clerk" 30])).
  vm_compute. left. reflexivity.
Defined.

(** * The payroll processor *)

Lemma opt_str_eqb_spec x y : opt_str_eqb x y = true <-> x = y.
Proof.
  destruct x as [a|], y as [b|]; simpl; try (split; [discriminate|congruence]).
  - rewrite str_eqb_spec. split; congruence.
  - tauto.
Qed.

Lemma role_eqb_spec x y : Payroll.role_eqb x y = true <-> x = y.
Proof.
  destruct x as [a b], y as [c d]. unfold Payroll.role_eqb. simpl.
  rewrite andb_true_iff, !opt_str_eqb_spec. split; [intros [-> ->]|intros H; inversion H]; auto.
Qed.

Lemma fold_min_le l :
  forall a, (fold_left (fun m y => if Qltb y m then y else m) l a <= a)%Q /\
            forall x, In x l ->
              (fold_left (fun m y => if Qltb y m then y else m) l a <= x)%Q.
Proof.
  induction l as [|y l IH]; intros a; simpl.
  - split; [apply Qle_refl|tauto].
  - destruct (IH (if Qltb y a then y else a)) as [H1 H2].
    assert (Ha : ((if Qltb y a then y else a) <= a)%Q).
    { destruct (Qltb y a) eqn:E; [|apply Qle_refl].
      apply Qlt_le_weak. apply Qltb_lt. assumption. }
    assert (Hy : ((if Qltb y a then y else a) <= y)%Q).
    { destruct (Qltb y a) eqn:E; [apply Qle_refl|]. apply Qltb_ge. assumption. }
    split; [eapply Qle_trans; eassumption|].
    intros x [<-|Hx]; [eapply Qle_trans; eassumption|auto].
Qed.

Lemma fold_max_ge l :
  forall a, (a <= fold_left (fun m y => if Qltb m y then y else m) l a)%Q /\
            forall x, In x l ->
              (x <= fold_left (fun m y => if Qltb m y then y else m) l a)%Q.
Proof.
  induction l as [|y l IH]; intros a; simpl.
  - split; [apply Qle_refl|tauto].
  - destruct (IH (if Qltb a y then y else a)) as [H1 H2].
    assert (Ha : (a <= (if Qltb a y then y else a))%Q).
    { destruct (Qltb a y) eqn:E; [|apply Qle_refl].
      apply Qlt_le_weak. apply Qltb_lt. assumption. }
    assert (Hy : (y <= (if Qltb a y then y else a))%Q).
    { destruct (Qltb a y) eqn:E; [apply Qle_refl|]. apply Qltb_ge. assumption. }
    split; [eapply Qle_trans; eassumption|].
    intros x [<-|Hx]; [eapply Qle_trans; eassumption|auto].
Qed.

Lemma Qmin_list_le l m x : Qmin_list l = Some m -> In x l -> (m <= x)%Q.
Proof.
  destruct l as [|a l]; [discriminate|]. simpl. intros H. inversion H.
  destruct (fold_min_le l a) as [Hl1 Hl2]. intros [<-|Hx]; auto.
Qed.

Lemma Qmax_list_ge l m x : Qmax_list l = Some m -> In x l -> (x <= m)%Q.
Proof.
  destruct l as [|a l]; [discriminate|]. simpl. intros H. inversion H.
  destruct (fold_max_ge l a) as [Hl1 Hl2]. intros [<-|Hx]; auto.
Qed.

Lemma min_max_none l : Qmin_list l = None <-> Qmax_list l = None.
Proof. destruct l; simpl; split; intros H; try reflexivity; discriminate. Qed.

Lemma min_le_max l mn mx : Qmin_list l = Some mn -> Qmax_list l = Some mx -> (mn <= mx)%Q.
Proof.
  intros H1 H2. destruct l as [|a l]; [discriminate|].
  apply Qle_trans with a.
  - apply (Qmin_list_le _ _ _ H1). left. reflexivity.
  - apply (Qmax_list_ge _ _ _ H2). left. reflexivity.
Qed.

Lemma In_present l x : In x (present l) <-> In (Some x) l.
Proof.
  unfold present. rewrite in_flat_map. split.
  - intros [[v|] [H1 H2]]; simpl in H2; [|destruct H2].
    destruct H2 as [<-|[]]. assumption.
  - intros H. exists (Some x). simpl. auto.
Qed.

Lemma role_salaries_fold df :
  forall d k,
    dict_get Payroll.role_eqb
      (fold_left
         (fun d r =>
            dict_upsert Payroll.role_eqb d (Payroll.role_of r)
              (fun o => match o with
                        | None => [Payroll.base_salary_num r]
                        | Some l => l ++ [Payroll.base_salary_num r]
                        end))
         df d) k =
    match role_members df k with
    | [] => dict_get Payroll.role_eqb d k
    | g => Some (match dict_get Payroll.role_eqb d k with Some l => l | None => [] end
                 ++ map Payroll.base_salary_num g)
    end.
Proof.
  induction df as [|r df IH]; intros d k; [reflexivity|].
  simpl fold_left. rewrite IH. unfold role_members. simpl filter.
  rewrite (dict_get_upsert Payroll.role_eqb role_eqb_spec).
  destruct (Payroll.role_eqb (Payroll.role_of r) k) eqn:E.
  - apply role_eqb_spec in E. rewrite E.
    destruct (filter _ df) as [|r' g]; simpl.
    + destruct (dict_get Payroll.role_eqb d k); simpl; [|reflexivity].
      reflexivity.
    + destruct (dict_get Payroll.role_eqb d k); simpl; [|reflexivity].
      rewrite <- app_assoc. reflexivity.
  - reflexivity.
Qed.

Lemma salary_ranges_get df k :
  dict_get Payroll.role_eqb (Payroll.salary_ranges df) k =
  match role_members df k with
  | [] => None
  | g => let l := present (map Payroll.base_salary_num g) in
         Some (Qmin_list l, Qmax_list l, length l)
  end.
Proof.
  unfold Payroll.salary_ranges, Payroll.role_salaries.
  assert (Hmap : forall (d : list (Payroll.role * list (option Q))) x,
            dict_get Payroll.role_eqb
              (map (fun e => (fst e, (Qmin_list (present (snd e)), Qmax_list (present (snd e)),
                                      length (present (snd e))))) d) x =
            option_map (fun l => (Qmin_list (present l), Qmax_list (present l),
                                  length (present l)))
              (dict_get Payroll.role_eqb d x)).
  { induction d as [|[k0 v] d IHd]; intros x; simpl; [reflexivity|].
    destruct (Payroll.role_eqb k0 x); [reflexivity|apply IHd]. }
  rewrite Hmap, role_salaries_fold. simpl.
  destruct (role_members df k); reflexivity.
Qed.

Lemma processed_rows df p :
  In p (Payroll.select_and_process_columns df) ->
  In (Payroll.raw p) df /\
  Payroll.annual_salary_standardized p = Payroll.standardize_annual_salary (Payroll.raw p) /\
  Payroll.fuzzy_match_string p =
    create_fuzzy_matching_string (Payroll.agency_name (Payroll.raw p))
      (Payroll.title_description (Payroll.raw p)) /\
  Payroll.salary_range_width p = sub_null (Payroll.salary_max p) (Payroll.salary_min p) /\
  match Payroll.agency_name (Payroll.raw p), Payroll.title_description (Payroll.raw p) with
  | Some _, Some _ =>
      let l := present (map Payroll.base_salary_num
                          (role_members df (Payroll.role_of (Payroll.raw p)))) in
      Payroll.salary_min p = Qmin_list l /\ Payroll.salary_max p = Qmax_list l /\
      Payroll.employee_count_in_role p = Some (length l)
  | _, _ =>
      Payroll.salary_min p = None /\ Payroll.salary_max p = None /\
      Payroll.employee_count_in_role p = None
  end.
Proof.
  unfold Payroll.select_and_process_columns. intros H.
  apply in_map_iff in H. destruct H as [r [<- Hr]].
  unfold Payroll.joined.
  destruct (Payroll.role_of r) as [a b] eqn:Erole.
  assert (Ea : Payroll.agency_name r = a) by (unfold Payroll.role_of in Erole; congruence).
  assert (Eb : Payroll.title_description r = b) by (unfold Payroll.role_of in Erole; congruence).
  destruct a as [a|]; [destruct b as [b|]|].
  - rewrite salary_ranges_get.
    assert (Hm : In r (role_members df (Some a, Some b))).
    { unfold role_members. apply filter_In. split; [assumption|].
      apply role_eqb_spec. assumption. }
    destruct (role_members df (Some a, Some b)) as [|r0 g] eqn:Eg; [destruct Hm|].
    cbv zeta. simpl. rewrite Ea, Eb, Erole, Eg. simpl.
    repeat split; try assumption; reflexivity.
  - simpl. rewrite Ea, Eb. repeat split; try assumption; reflexivity.
  - simpl. rewrite Ea. repeat split; try assumption; reflexivity.
Qed.

Lemma processed_ordered df :
  salaries_ordered (map payroll_row_of (Payroll.select_and_process_columns df)).
Proof.
  intros row mn mx Hin Hmn Hmx.
  apply in_map_iff in Hin. destruct Hin as [p [<- Hp]].
  simpl in Hmn, Hmx.
  apply processed_rows in Hp. destruct Hp as [_ [_ [_ [_ H]]]].
  destruct (Payroll.agency_name (Payroll.raw p)); [|destruct H; congruence].
  destruct (Payroll.title_description (Payroll.raw p)); [|destruct H; congruence].
  cbv zeta in H. destruct H as [H1 [H2 _]].
  rewrite Hmn in H1. rewrite Hmx in H2.
  eapply min_le_max; eauto.
Qed.

(** X8. The annual salary is null exactly when the one column it is read
    from is null: the base salary for the pay bases per Annum, per Hour
    and per Day, the regular gross pay for every other pay basis, a null
    one included; a null overtime or other pay counts as 0 and never makes
    it null.  It is not negative when none of the amounts is. *)
Theorem annual_salary_null_and_sign (r : Payroll.Raw) :
  (Payroll.standardize_annual_salary r = None <->
   if existsb (fun b => opt_str_eqb (Payroll.pay_basis r) (Some (lit b)))
        ["per Annum"; "per Hour"; "per Day"]%string
   then Payroll.base_salary_num r = None
   else Payroll.regular_gross_num r = None)
  /\ (nonneg (Payroll.base_salary_num r) -> nonneg (Payroll.regular_gross_num r) ->
      nonneg (Payroll.total_ot_num r) -> nonneg (Payroll.total_other_num r) ->
      nonneg (Payroll.standardize_annual_salary r)).
Proof.
  assert (Hsum : forall g o p,
            (0 <= g)%Q -> nonneg o -> nonneg p ->
            (0 <= g + fill_null o 0 + fill_null p 0)%Q).
  { intros g o p Hg Ho Hp.
    apply Qle_trans with (0 + 0 + 0)%Q; [discriminate|].
    repeat apply Qplus_le_compat; try assumption.
    - destruct o; simpl; [assumption|apply Qle_refl].
    - destruct p; simpl; [assumption|apply Qle_refl]. }
  assert (Hscale : forall b k, (0 <= k)%Q -> nonneg b ->
            nonneg (option_map (fun b => b * k)%Q b)).
  { intros [b|] k Hk Hb; simpl; [|exact I]. apply Qmult_le_0_compat; assumption. }
  assert (Hnone : forall (f : Q -> Q) x, option_map f x = None <-> x = None).
  { intros f [x|]; simpl; split; congruence. }
  assert (Hother :
            (option_map
               (fun g => g + fill_null (Payroll.total_ot_num r) 0 +
                         fill_null (Payroll.total_other_num r) 0)%Q
               (Payroll.regular_gross_num r) = None <->
             Payroll.regular_gross_num r = None) /\
            (nonneg (Payroll.base_salary_num r) -> nonneg (Payroll.regular_gross_num r) ->
             nonneg (Payroll.total_ot_num r) -> nonneg (Payroll.total_other_num r) ->
             nonneg (option_map
                       (fun g => g + fill_null (Payroll.total_ot_num r) 0 +
                                 fill_null (Payroll.total_other_num r) 0)%Q
                       (Payroll.regular_gross_num r)))).
  { split; [apply Hnone|]. intros _ Hg Ho Hp.
    destruct (Payroll.regular_gross_num r); simpl; [|exact I].
    apply Hsum; assumption. }
  unfold Payroll.standardize_annual_salary, col_eq.
  destruct (Payroll.pay_basis r) as [pb|];
    cbn [option_map existsb opt_str_eqb holds]; [|exact Hother].
  destruct (str_eqb pb (lit "per Annum")); cbn [orb].
  { split; [tauto|]. intros H _ _ _. exact H. }
  destruct (str_eqb pb (lit "per Hour")); cbn [orb].
  { split; [apply Hnone|]. intros H _ _ _. apply Hscale; [discriminate|assumption]. }
  destruct (str_eqb pb (lit "per Day")); cbn [orb].
  { split; [apply Hnone|]. intros H _ _ _. apply Hscale; [discriminate|assumption]. }
  exact Hother.
Qed.

Lemma annual_salary_null_and_sign_witness :
  nonneg (Payroll.standardize_annual_salary (sample_raw "per Hour" 25)).
Proof.
  apply (proj2 (annual_salary_null_and_sign (sample_raw "per Hour" 25)));
    simpl; try exact I; discriminate.
Defined.

(** X9. [create_salary_min_max] on a record whose agency and title are
    not null: [salary_min] and [salary_max] are the least and the greatest
    base salary of the records with the same agency and title, so a base
    salary that is not null lies between them, the width
    [salary_max - salary_min] is present and not negative, and the count is
    at least 1.  A record with a null agency or title is in a group of
    [group_by] but finds no row in the join: its four columns are null. *)
Theorem salary_range_of_a_record (df : list Payroll.Raw) (p : Payroll.Processed) :
  In p (Payroll.select_and_process_columns df) ->
  (forall b,
     Payroll.agency_name (Payroll.raw p) <> None ->
     Payroll.title_description (Payroll.raw p) <> None ->
     Payroll.base_salary_num (Payroll.raw p) = Some b ->
     exists mn mx n,
       Payroll.salary_min p = Some mn /\ Payroll.salary_max p = Some mx /\
       (mn <= b)%Q /\ (b <= mx)%Q /\
       Payroll.salary_range_width p = Some (mx - mn)%Q /\ (0 <= mx - mn)%Q /\
       Payroll.employee_count_in_role p = Some n /\ 1 <= n)
  /\ (Payroll.agency_name (Payroll.raw p) = None \/
      Payroll.title_description (Payroll.raw p) = None ->
      Payroll.salary_min p = None /\ Payroll.salary_max p = None /\
      Payroll.salary_range_width p = None /\ Payroll.employee_count_in_role p = None)
  /\ (Payroll.salary_min p = None <-> Payroll.salary_max p = None)
  /\ (forall q, In q (Payroll.select_and_process_columns df) ->
        Payroll.role_of (Payroll.raw q) = Payroll.role_of (Payroll.raw p) ->
        Payroll.salary_min q = Payroll.salary_min p /\
        Payroll.salary_max q = Payroll.salary_max p /\
        Payroll.employee_count_in_role q = Payroll.employee_count_in_role p).
Proof.
  intros Hp. pose proof (processed_rows df p Hp) as [Hraw [_ [_ [Hw H]]]].
  split; [|split; [|split]].
  - intros b Ha Ht Hb.
    destruct (Payroll.agency_name (Payroll.raw p)); [|contradiction].
    destruct (Payroll.title_description (Payroll.raw p)) eqn:Et; [|contradiction].
    cbv zeta in H. destruct H as [H1 [H2 H3]].
    set (l := present (map Payroll.base_salary_num
                         (role_members df (Payroll.role_of (Payroll.raw p))))) in *.
    assert (Hin : In b l).
    { apply In_present. rewrite <- Hb. apply in_map.
      unfold role_members. apply filter_In. split; [assumption|].
      apply role_eqb_spec. reflexivity. }
    destruct (Qmin_list l) as [mn|] eqn:Emn; [|destruct l; [destruct Hin|discriminate]].
    destruct (Qmax_list l) as [mx|] eqn:Emx; [|destruct l; [destruct Hin|discriminate]].
    exists mn, mx, (length l).
    rewrite Hw, H1, H2. simpl.
    repeat split; try assumption.
    + eapply Qmin_list_le; eauto.
    + eapply Qmax_list_ge; eauto.
    + unfold Qminus. apply -> Qle_minus_iff. eapply min_le_max; eauto.
    + destruct l; [destruct Hin|simpl; lia].
  - intros Hn. rewrite Hw.
    destruct (Payroll.agency_name (Payroll.raw p)).
    + destruct (Payroll.title_description (Payroll.raw p)); [destruct Hn; discriminate|].
      destruct H as [-> [-> ->]]. auto.
    + destruct H as [-> [-> ->]]. auto.
  - destruct (Payroll.agency_name (Payroll.raw p));
      [destruct (Payroll.title_description (Payroll.raw p))|];
      try (destruct H as [-> [-> _]]; tauto).
    cbv zeta in H. destruct H as [-> [-> _]]. apply min_max_none.
  - intros q Hq Hrole.
    pose proof (processed_rows df q Hq) as [_ [_ [_ [_ H']]]].
    unfold Payroll.role_of in Hrole. inversion Hrole as [[Ea Eb]].
    rewrite Ea, Eb in H'.
    assert (Er : Payroll.role_of (Payroll.raw q) = Payroll.role_of (Payroll.raw p))
      by (unfold Payroll.role_of; congruence).
    rewrite Er in H'.
    destruct (Payroll.agency_name (Payroll.raw p));
      [destruct (Payroll.title_description (Payroll.raw p))|];
      cbv zeta in *; destruct H as [-> [-> ->]]; destruct H' as [-> [-> ->]]; auto.
Qed.

Lemma salary_range_of_a_record_witness :
  exists mn mx n,
    Some 30000%Q = Some mn /\ Some 40000%Q = Some mx /\
    (mn <= 30000)%Q /\ (30000 <= mx)%Q /\
    Some (40000 - 30000)%Q = Some (mx - mn)%Q /\ (0 <= mx - mn)%Q /\
    Some 2 = Some n /\ 1 <= n.
Proof.
  apply (proj1 (salary_range_of_a_record
                  [sample_raw "per Annum" 30000; sample_raw "per Annum" 40000]
                  (Payroll.mkProcessed (sample_raw "per Annum" 30000) (Some 30000%Q)
                     (Some 30000%Q) (Some 40000%Q) (Some (40000 - 30000)%Q) (Some 2)
                     (Some (lit "dept_x_clerk")))
                  (or_introl eq_refl)) 30000%Q);
    simpl; try discriminate; reflexivity.
Defined.

(** X10. Averaging keeps the order of the two salary columns: when every
    payroll row that has both salaries has [salary_min <= salary_max],
    every job row the payroll pass returns with both payroll salaries has
    [payroll_salary_min <= payroll_salary_max]; and the frame the payroll
    processor writes is such a payroll frame, so this holds from the raw
    payroll records on. *)
Theorem payroll_salaries_stay_ordered (df : list JobRow) (r : MatchedJob) (a b : Q) :
  payroll_salary_min r = Some a -> payroll_salary_max r = Some b ->
  (forall rows,
     salaries_ordered rows ->
     In r (calculate_fuzzy_matches_with_payroll (Some rows) df) -> (a <= b)%Q)
  /\ (forall payroll,
        In r (calculate_fuzzy_matches_with_payroll
                (Some (map payroll_row_of (Payroll.select_and_process_columns payroll)))
                df) ->
        (a <= b)%Q).
Proof.
  intros Ha Hb.
  assert (H : forall rows,
            salaries_ordered rows ->
            In r (calculate_fuzzy_matches_with_payroll (Some rows) df) -> (a <= b)%Q).
  { intros rows Hord Hin. apply payroll_rows_cases in Hin.
    destruct Hin as [[_ [_ [H _]]]|[rows' [k [m [mn [mx H]]]]]]; [congruence|].
    destruct H as [H1 [_ [_ [_ [_ [Hg [_ [_ [H9 H10]]]]]]]]].
    inversion H1; subst rows'. clear H1.
    rewrite payroll_salary_lookup_get in Hg.
    destruct (group rows m) eqn:Eg; [discriminate|]. rewrite <- Eg in Hg.
    inversion Hg; subst mn mx.
    rewrite Ha in H9. rewrite Hb in H10. inversion H9. inversion H10.
    apply average_le. apply values_group_ordered. assumption. }
  split; [exact H|].
  intros payroll. apply H. apply processed_ordered.
Qed.

Lemma payroll_salaries_stay_ordered_witness : (70000 # 2 <= 110000 # 2)%Q.
Proof.
  apply (proj1 (payroll_salaries_stay_ordered [sample_posting]
           (mkMatchedJob sample_posting (Some (lit "dept_x_clerk")) (Some (24 # 24)%Q)
              (Some (70000 # 2)%Q) (Some (110000 # 2)%Q))
           (70000 # 2) (110000 # 2) eq_refl eq_refl)
           [mkPayrollRow (Some (lit "dept_x_clerk")) (Some 30000%Q) (Some 50000%Q);
            mkPayrollRow (Some (lit "dept_x_clerk")) (Some 40000%Q) (Some 60000%Q)]).
  - intros row mn mx [<-|[<-|[]]] Hmn Hmx; inversion Hmn; inversion Hmx; discriminate.
  - vm_compute. left. reflexivity.
Defined.

(** * Column names and salary categories of the lighthouse processor *)

Lemma dict_get_value {V : Type} (d : list (str * V)) k v :
  dict_get str_eqb d k = Some v -> In v (map snd d).
Proof.
  induction d as [|[k0 v0] d IH]; simpl; [discriminate|].
  destruct (str_eqb k0 k); [intros H; inversion H; auto|auto].
Qed.

Lemma mapped_names v :
  In v (map snd column_mappings) ->
  startswith (lit "lighthouse_") v = true /\ is_key v /\ rename_mapping v = v.
Proof.
  intros H. vm_compute in H.
  repeat (destruct H as [<-|H];
          [split; [reflexivity|split; [|vm_compute; reflexivity]];
           repeat constructor|]).
  destruct H.
Qed.

Lemma startswith_app p x : startswith p (p ++ x) = true.
Proof.
  induction p as [|c p IH]; simpl; [reflexivity|].
  rewrite Ascii.eqb_refl. exact IH.
Qed.

Lemma startswith_split p x : startswith p x = true -> exists y, x = p ++ y.
Proof.
  revert x. induction p as [|c p IH]; intros x H; simpl in *.
  - exists x. reflexivity.
  - destruct x as [|d x]; [discriminate|].
    apply andb_true_iff in H. destruct H as [H1 H2].
    apply Ascii.eqb_eq in H1. subst d.
    destruct (IH x H2) as [y ->]. exists y. reflexivity.
Qed.

Lemma unmapped_prefixed y : dict_get str_eqb column_mappings (lit "lighthouse_" ++ y) = None.
Proof. reflexivity. Qed.

Lemma cleaned_col_is_key col : is_key (cleaned_col col).
Proof.
  unfold cleaned_col, is_key, all. apply Forall_forall. intros c Hc.
  apply filter_In in Hc. destruct Hc as [Hin Hc].
  unfold replace_char in Hin.
  apply in_map_iff in Hin. destruct Hin as [c1 [E1 Hin]].
  apply in_map_iff in Hin. destruct Hin as [c2 [E2 Hin]].
  assert (Hl : lower_char c2 = c2).
  { pose proof (all_lower (strip py_isspace col)) as Hall.
    unfold all in Hall. rewrite Forall_forall in Hall. apply Hall. assumption. }
  clear Hin. subst c c1. revert Hc Hl.
  destruct c2 as [[|] [|] [|] [|] [|] [|] [|] [|]]; vm_compute;
    intros; try discriminate; split; reflexivity.
Qed.

Lemma key_char_plain c :
  key_char c ->
  py_isspace c = false /\ Ascii.eqb c " " = false /\ Ascii.eqb c "-" = false /\
  py_isalnum c || Ascii.eqb c underscore = true.
Proof.
  intros [H1 H2]. revert H1 H2.
  destruct c as [[|] [|] [|] [|] [|] [|] [|] [|]]; vm_compute;
    intros; try discriminate; repeat split.
Qed.

Lemma replace_char_none old new x :
  all (fun c => Ascii.eqb c old = false) x -> replace_char old new x = x.
Proof.
  intros H. unfold replace_char.
  induction H as [|c x Hc Hx IH]; simpl; [reflexivity|].
  rewrite Hc, IH. reflexivity.
Qed.

Lemma cleaned_col_fixed k : is_key k -> cleaned_col k = k.
Proof.
  intros H. unfold cleaned_col.
  rewrite strip_none.
  2:{ eapply Forall_impl; [|exact H]. intros c Hc. apply (key_char_plain c Hc). }
  rewrite lower_fixed.
  2:{ eapply Forall_impl; [|exact H]. intros c [_ Hc]. exact Hc. }
  rewrite !replace_char_none.
  - apply filter_all. eapply Forall_impl; [|exact H].
    intros c Hc. apply (key_char_plain c Hc).
  - eapply Forall_impl; [|exact H]. intros c Hc. apply (key_char_plain c Hc).
  - rewrite replace_char_none;
      (eapply Forall_impl; [|exact H]); intros c Hc; apply (key_char_plain c Hc).
Qed.

Lemma rename_prefixed y :
  is_key (lit "lighthouse_" ++ y) ->
  rename_mapping (lit "lighthouse_" ++ y) = lit "lighthouse_" ++ y.
Proof.
  intros H. unfold rename_mapping.
  rewrite unmapped_prefixed, (cleaned_col_fixed _ H), unmapped_prefixed.
  rewrite startswith_app. reflexivity.
Qed.

Lemma is_key_prefix y : is_key y -> is_key (lit "lighthouse_" ++ y).
Proof.
  intros H. unfold is_key, all. apply Forall_app. split; [|exact H].
  repeat constructor.
Qed.

(** X11. Every name [clean_column_names] gives a column begins with
    [lighthouse_] and is written over [a-z0-9_]; renaming is idempotent:
    a frame whose columns were renamed keeps its names when it is renamed
    again. *)
Theorem clean_column_names_stable (columns : list str) :
  Forall (fun name => startswith (lit "lighthouse_") name = true /\
                      forallb key_alphabet name = true)
         (clean_column_names columns)
  /\ clean_column_names (clean_column_names columns) = clean_column_names columns.
Proof.
  assert (H : forall col,
            startswith (lit "lighthouse_") (rename_mapping col) = true /\
            is_key (rename_mapping col) /\
            rename_mapping (rename_mapping col) = rename_mapping col).
  { intros col.
    assert (Hc : In (rename_mapping col) (map snd column_mappings) \/
                 exists y, rename_mapping col = lit "lighthouse_" ++ y /\
                           is_key (lit "lighthouse_" ++ y)).
    { unfold rename_mapping.
      destruct (dict_get str_eqb column_mappings col) as [v|] eqn:E1.
      { left. eapply dict_get_value. eassumption. }
      destruct (dict_get str_eqb column_mappings (cleaned_col col)) as [v|] eqn:E2.
      { left. eapply dict_get_value. eassumption. }
      right. pose proof (cleaned_col_is_key col) as Hk.
      destruct (startswith (lit "lighthouse_") (cleaned_col col)) eqn:E3; simpl negb; cbv iota.
      - destruct (startswith_split _ _ E3) as [y Ey]. exists y. rewrite <- Ey. auto.
      - exists (cleaned_col col). split; [reflexivity|]. apply is_key_prefix. assumption. }
    destruct Hc as [Hc|[y [-> Hk]]]; [apply mapped_names; assumption|].
    split; [apply startswith_app|]. split; [assumption|].
    apply rename_prefixed. assumption. }
  split.
  - unfold clean_column_names. apply Forall_forall. intros name Hn.
    apply in_map_iff in Hn. destruct Hn as [col [<- _]].
    destruct (H col) as [H1 [H2 _]]. split; [assumption|].
    apply (all_forallb _ key_char); [apply key_char_alphabet|assumption].
  - unfold clean_column_names. rewrite map_map. apply map_ext.
    intros col. apply H.
Qed.

(** The four categories are different strings. *)
Lemma categories_differ :
  lit "Low" <> lit "Medium" /\ lit "Low" <> lit "High" /\ lit "Low" <> lit "Very High" /\
  lit "Medium" <> lit "High" /\ lit "Medium" <> lit "Very High" /\
  lit "High" <> lit "Very High".
Proof. repeat split; discriminate. Qed.

Lemma salary_category_cases a :
  (salary_category_of (Some a) = lit "Low" /\ (a < 40000)%Q) \/
  (salary_category_of (Some a) = lit "Medium" /\ (40000 <= a)%Q /\ (a < 70000)%Q) \/
  (salary_category_of (Some a) = lit "High" /\ (70000 <= a)%Q /\ (a < 100000)%Q) \/
  (salary_category_of (Some a) = lit "Very High" /\ (100000 <= a)%Q).
Proof.
  unfold salary_category_of, col_lt, holds, option_map.
  destruct (Qltb a 40000) eqn:E1.
  { left. split; [reflexivity|]. apply Qltb_lt. assumption. }
  apply Qltb_ge in E1.
  destruct (Qltb a 70000) eqn:E2.
  { right. left. split; [reflexivity|]. split; [assumption|]. apply Qltb_lt. assumption. }
  apply Qltb_ge in E2.
  destruct (Qltb a 100000) eqn:E3.
  { right. right. left. split; [reflexivity|]. split; [assumption|].
    apply Qltb_lt. assumption. }
  apply Qltb_ge in E3.
  right. right. right. split; [reflexivity|assumption].
Qed.

(** X12. The salary categories are intervals of salaries: a salary between
    two salaries of the same category has that category; and a null
    median salary, which fails the three comparisons, is put in the
    category of the salaries of 100000 and more. *)
Theorem salary_category_intervals (a b c : Q) :
  salary_category_of None = salary_category_of (Some 100000%Q) /\
  ((a <= c)%Q -> (c <= b)%Q ->
   salary_category_of (Some a) = salary_category_of (Some b) ->
   salary_category_of (Some c) = salary_category_of (Some a)).
Proof.
  split; [reflexivity|].
  intros Hac Hcb Hab.
  pose proof categories_differ as [D1 [D2 [D3 [D4 [D5 D6]]]]].
  destruct (salary_category_cases a) as [[Ea Ha]|[[Ea Ha]|[[Ea Ha]|[Ea Ha]]]];
  destruct (salary_category_cases b) as [[Eb Hb]|[[Eb Hb]|[[Eb Hb]|[Eb Hb]]]];
  rewrite Ea, Eb in Hab; try congruence; clear Hab;
  destruct (salary_category_cases c) as [[Ec Hc]|[[Ec Hc]|[[Ec Hc]|[Ec Hc]]]];
  rewrite Ea, Ec; try reflexivity; exfalso;
  repeat match goal with H : _ /\ _ |- _ => destruct H end;
  repeat match goal with
         | H1 : (?x <= ?y)%Q, H2 : (?y < ?z)%Q |- _ =>
             lazymatch goal with
             | _ : (x < z)%Q |- _ => fail
             | _ => pose proof (Qle_lt_trans _ _ _ H1 H2)
             end
         | H1 : (?x <= ?y)%Q, H2 : (?y <= ?z)%Q |- _ =>
             lazymatch goal with
             | _ : (x <= z)%Q |- _ => fail
             | _ => pose proof (Qle_trans _ _ _ H1 H2)
             end
         end;
  repeat match goal with
         | H : (?x < ?x)%Q |- _ => exact (Qlt_irrefl _ H)
         | H : (?x < ?y)%Q |- _ => (discriminate H || (vm_compute in H; discriminate H))
         | H : (?x <= ?y)%Q |- _ => (vm_compute in H; now apply H)
         end.
Qed.

Lemma salary_category_intervals_witness :
  salary_category_of (Some 50000%Q) = salary_category_of (Some 45000%Q).
Proof.
  apply (proj2 (salary_category_intervals 45000 60000 50000));
    [discriminate|discriminate|reflexivity].
Defined.

(** * Posting durations and the fetching of the postings *)

(** X13. The posting duration is null exactly when the posting date is
    null; a posting with neither a process date nor an update date lasts
    30 days; a process date makes the update date irrelevant; and when the
    end is not before the start, the duration is the number of whole days
    between them, which is not negative. *)
Theorem posting_duration_fallbacks (ticks_per_day : Z)
    (posting_start posting_end posting_updated_parsed : option Z) :
  (0 < ticks_per_day)%Z ->
  (calculate_posting_duration ticks_per_day posting_start posting_end
     posting_updated_parsed = None <-> posting_start = None)
  /\ (posting_start <> None -> posting_end = None -> posting_updated_parsed = None ->
      calculate_posting_duration ticks_per_day posting_start posting_end
        posting_updated_parsed = Some 30%Z)
  /\ (posting_end <> None ->
      calculate_posting_duration ticks_per_day posting_start posting_end
        posting_updated_parsed =
      calculate_posting_duration ticks_per_day posting_start posting_end None)
  /\ (forall s e,
        posting_start = Some s ->
        calculated_end_date ticks_per_day posting_start posting_end
          posting_updated_parsed = Some e ->
        (s <= e)%Z ->
        exists d,
          calculate_posting_duration ticks_per_day posting_start posting_end
            posting_updated_parsed = Some d /\
          (0 <= d)%Z /\
          (d * ticks_per_day <= e - s)%Z /\ (e - s < (d + 1) * ticks_per_day)%Z).
Proof.
  intros Hpos. unfold calculate_posting_duration, calculated_end_date.
  split; [|split; [|split]].
  - destruct posting_start, posting_end, posting_updated_parsed; simpl;
      split; intros H; try reflexivity; discriminate.
  - intros Hs -> ->. destruct posting_start as [s|]; [|contradiction]. cbn [option_map].
    unfold total_days, duration_days. f_equal.
    replace (s + 30 * ticks_per_day - s)%Z with (30 * ticks_per_day)%Z by lia.
    apply Z.quot_mul. lia.
  - intros He. destruct posting_end; [reflexivity|contradiction].
  - intros s e -> He Hse. rewrite He.
    exists (total_days ticks_per_day (e - s)). split; [reflexivity|].
    unfold total_days. rewrite Z.quot_div_nonneg by lia.
    pose proof (Z.div_mod (e - s) ticks_per_day ltac:(lia)) as Hd.
    pose proof (Z.mod_pos_bound (e - s) ticks_per_day Hpos) as Hm.
    assert (0 <= (e - s) / ticks_per_day)%Z by (apply Z.div_pos; lia).
    repeat split; nia.
Qed.

Lemma posting_duration_fallbacks_witness :
  calculate_posting_duration us_per_day (Some 1704067200000000%Z) None None = Some 30%Z.
Proof.
  apply (proj1 (proj2 (posting_duration_fallbacks us_per_day
                         (Some 1704067200000000%Z) None None eq_refl)));
    [discriminate|reflexivity|reflexivity].
Defined.

(** The loop of [fetch_data] against a paged API *)

Lemma firstn_skipn_app {A : Type} (data : list A) offset n :
  firstn offset data ++ firstn n (skipn offset data) = firstn (offset + n) data.
Proof.
  revert data. induction offset as [|k IH]; intros data; simpl; [reflexivity|].
  destruct data as [|x data]; simpl.
  - rewrite firstn_nil. reflexivity.
  - rewrite IH. reflexivity.
Qed.

Lemma paged_length {A : Type} (data : list A) offset limit :
  length (paged data offset limit) = Nat.min limit (length data - offset).
Proof. unfold paged. rewrite length_firstn, length_skipn. reflexivity. Qed.

Lemma fetch_loop_step {A : Type} (fetch_batch : nat -> nat -> list A)
    fuel max_rows all_data offset batch_size :
  fetch_loop fetch_batch (S fuel) max_rows all_data offset batch_size =
  let limit :=
    if limited max_rows && (rows_of max_rows <? offset + batch_size)
    then rows_of max_rows - offset else batch_size in
  let batch_data := fetch_batch offset limit in
  if length batch_data =? 0 then Some all_data
  else if limited max_rows && (rows_of max_rows <=? length (all_data ++ batch_data))
  then Some (all_data ++ batch_data)
  else if length batch_data <? limit then Some (all_data ++ batch_data)
  else fetch_loop fetch_batch fuel max_rows (all_data ++ batch_data)
         (offset + length batch_data) limit.
Proof.
  simpl. destruct (fetch_batch offset _); reflexivity.
Qed.

Lemma fetch_loop_paged {A : Type} (data : list A) max_rows :
  forall fuel offset batch_size,
    0 < batch_size -> offset <= length data ->
    (limited max_rows = true -> offset < rows_of max_rows) ->
    length data - offset < fuel ->
    fetch_loop (paged data) fuel max_rows (firstn offset data) offset batch_size =
    Some (requested max_rows data).
Proof.
  induction fuel as [|fuel IH]; intros offset bs Hbs Hoff Hlim Hfuel; [lia|].
  rewrite fetch_loop_step.
  set (bs' := if limited max_rows && (rows_of max_rows <? offset + bs)
              then rows_of max_rows - offset else bs).
  cbv zeta.
  assert (Hbs' : 0 < bs').
  { unfold bs'. destruct (limited max_rows) eqn:El; simpl; [|assumption].
    destruct (rows_of max_rows <? offset + bs); [|assumption].
    specialize (Hlim eq_refl). lia. }
  assert (Hcap : limited max_rows = true -> offset + bs' <= rows_of max_rows).
  { intros El. unfold bs'. rewrite El. simpl.
    destruct (rows_of max_rows <? offset + bs) eqn:E.
    - specialize (Hlim El). lia.
    - apply Nat.ltb_ge in E. assumption. }
  pose proof (paged_length data offset bs') as Hlen.
  remember (length (paged data offset bs')) as n eqn:En.
  assert (Hall : firstn offset data ++ paged data offset bs' = firstn (offset + n) data).
  { unfold paged. rewrite firstn_skipn_app. rewrite Hlen.
    destruct (Nat.le_ge_cases bs' (length data - offset)) as [H|H].
    - rewrite Nat.min_l by assumption. reflexivity.
    - rewrite Nat.min_r by assumption.
      rewrite !firstn_all2 by lia. reflexivity. }
  rewrite Hall, length_firstn.
  assert (Hmin : Nat.min (offset + n) (length data) = offset + n) by lia.
  rewrite Hmin.
  destruct (n =? 0) eqn:E0.
  - apply Nat.eqb_eq in E0. assert (offset = length data) by lia. subst offset.
    rewrite firstn_all. unfold requested.
    destruct (limited max_rows) eqn:El; [|reflexivity].
    specialize (Hlim eq_refl). rewrite firstn_all2 by lia. reflexivity.
  - apply Nat.eqb_neq in E0.
    destruct (limited max_rows) eqn:El; simpl andb.
    + specialize (Hcap eq_refl). specialize (Hlim eq_refl).
      destruct (rows_of max_rows <=? offset + n) eqn:E1.
      * apply Nat.leb_le in E1. unfold requested. rewrite El.
        replace (offset + n) with (rows_of max_rows) by lia. reflexivity.
      * apply Nat.leb_gt in E1.
        destruct (n <? bs') eqn:E2.
        -- apply Nat.ltb_lt in E2. unfold requested. rewrite El.
           rewrite !firstn_all2 by lia. reflexivity.
        -- apply Nat.ltb_ge in E2.
           apply IH; try lia; try (intros _; lia).
    + destruct (n <? bs') eqn:E2.
      * apply Nat.ltb_lt in E2. unfold requested. rewrite El.
        rewrite firstn_all2 by lia. reflexivity.
      * apply Nat.ltb_ge in E2.
        apply IH; try lia; try discriminate.
Qed.

(** X14. Against an API that serves a data set page by page, [fetch_data]
    returns the first [max_rows] records of the data set, in order, and
    all of them when [max_rows] is [None] or 0; it needs at most one
    request per record, and one more. *)
Theorem fetch_data_paged {A : Type} (data : list A) (max_rows : option nat) (fuel : nat) :
  length data < fuel ->
  fetch_data (paged data) fuel max_rows =
  Some (if limited max_rows then firstn (rows_of max_rows) data else data).
Proof.
  intros H. unfold fetch_data.
  change (@nil A) with (firstn 0 data).
  apply (fetch_loop_paged data max_rows fuel 0 DEFAULT_BATCH_SIZE);
    try (unfold DEFAULT_BATCH_SIZE; lia).
  destruct max_rows as [[|n]|]; simpl; try discriminate. lia.
Qed.

Lemma fetch_data_paged_witness :
  fetch_data (paged [1; 2; 3; 4; 5]) 6 (Some 3) = Some [1; 2; 3].
Proof.
  apply (fetch_data_paged [1; 2; 3; 4; 5] (Some 3) 6). simpl. lia.
Defined.

Lemma fetch_loop_any {A : Type} (fetch_batch : nat -> nat -> list A) max_rows :
  limited max_rows = true ->
  forall fuel all_data batch_size,
    length all_data < rows_of max_rows ->
    rows_of max_rows - length all_data <= fuel ->
    exists result,
      fetch_loop fetch_batch fuel max_rows all_data (length all_data) batch_size =
        Some result /\
      ((forall offset limit, length (fetch_batch offset limit) <= limit) ->
       length result <= rows_of max_rows).
Proof.
  intros El. induction fuel as [|fuel IH]; intros all bs Hlt Hfuel; [lia|].
  rewrite fetch_loop_step. rewrite El. simpl andb.
  set (bs' := if rows_of max_rows <? length all + bs
              then rows_of max_rows - length all else bs).
  cbv zeta.
  assert (Hcap : length all + bs' <= rows_of max_rows).
  { unfold bs'. destruct (rows_of max_rows <? length all + bs) eqn:E; [lia|].
    apply Nat.ltb_ge in E. assumption. }
  set (batch := fetch_batch (length all) bs').
  assert (Hpol : (forall offset limit, length (fetch_batch offset limit) <= limit) ->
                 length (all ++ batch) <= rows_of max_rows).
  { intros Hp. specialize (Hp (length all) bs'). fold batch in Hp.
    rewrite length_app. lia. }
  destruct (length batch =? 0) eqn:E0.
  { exists all. split; [reflexivity|]. intros _. lia. }
  destruct (rows_of max_rows <=? length (all ++ batch)) eqn:E1.
  { exists (all ++ batch). split; [reflexivity|assumption]. }
  destruct (length batch <? bs') eqn:E2.
  { exists (all ++ batch). split; [reflexivity|assumption]. }
  apply Nat.leb_gt in E1. apply Nat.eqb_neq in E0.
  replace (length all + length batch) with (length (all ++ batch))
    by (rewrite length_app; reflexivity).
  apply IH; [assumption|].
  rewrite length_app in *. lia.
Qed.

(** X15. With a row limit, [fetch_data] ends whatever the API answers:
    [max_rows] requests are enough, since every request either ends the
    loop or adds a record; and when no answer is longer than the limit that
    was asked for, at most [max_rows] records are returned. *)
Theorem fetch_data_limited {A : Type} (fetch_batch : nat -> nat -> list A)
    (max_rows : option nat) :
  limited max_rows = true ->
  exists result,
    fetch_data fetch_batch (rows_of max_rows) max_rows = Some result /\
    ((forall offset limit, length (fetch_batch offset limit) <= limit) ->
     length result <= rows_of max_rows).
Proof.
  intros El. unfold fetch_data.
  apply (fetch_loop_any fetch_batch max_rows El (rows_of max_rows) [] DEFAULT_BATCH_SIZE).
  - destruct max_rows as [[|n]|]; simpl in *; try discriminate. lia.
  - simpl. lia.
Qed.

Lemma fetch_data_limited_witness :
  exists result,
    fetch_data (fun offset limit : nat => repeat offset limit) 3 (Some 3) = Some result /\
    ((forall offset limit : nat, length (repeat offset limit) <= limit) ->
     length result <= 3).
Proof.
  apply (fetch_data_limited (fun offset limit : nat => repeat offset limit) (Some 3)).
  reflexivity.
Defined.

(** * File names and the cache of raw files *)

Lemma replace_runs_alphabet p x :
  all (fun c => lower_char c = c) x ->
  all (fun c => p c = false -> re_word c = true) x ->
  forall r, is_key (replace_runs p x r).
Proof.
  intros H1 H2. induction H1 as [|c x Hc Hx IH]; intros r; simpl; [constructor|].
  inversion H2 as [|? ? Hc2 Hx2]; subst.
  destruct (p c) eqn:E.
  - destruct r; [apply IH; assumption|].
    constructor; [apply key_char_underscore|apply IH; assumption].
  - constructor; [split; auto|apply IH; assumption].
Qed.

(** X16. The file name of a sheet begins with [lighthouse_] and is
    written over [a-z0-9_]: hyphens, white space and upper case never
    reach the name of the saved file. *)
Theorem create_filename_alphabet (sheet_name : str) :
  startswith (lit "lighthouse_") (create_filename sheet_name) = true /\
  forallb key_alphabet (create_filename sheet_name) = true.
Proof.
  unfold create_filename. split; [apply startswith_app|].
  apply (all_forallb _ key_char); [apply key_char_alphabet|].
  apply is_key_prefix. apply replace_runs_alphabet.
  - apply all_filter. apply all_lower.
  - unfold all. apply Forall_forall. intros c Hc.
    apply filter_In in Hc. destruct Hc as [_ Hc]. revert Hc.
    unfold hyphen. destruct c as [[|] [|] [|] [|] [|] [|] [|] [|]]; vm_compute;
      intros; try reflexivity; discriminate.
Qed.

(** Splitting at underscores *)

Lemma split_once_app p x :
  ~ In underscore p ->
  forall cur, split_once underscore (p ++ underscore :: x) cur = [cur ++ p; x].
Proof.
  induction p as [|c p IH]; intros Hp cur; simpl.
  - rewrite app_nil_r. reflexivity.
  - destruct (Ascii.eqb c underscore) eqn:E.
    + apply Ascii.eqb_eq in E. subst c. exfalso. apply Hp. left. reflexivity.
    + rewrite IH by (intros H; apply Hp; right; assumption).
      rewrite <- app_assoc. reflexivity.
Qed.

Lemma split_on_app p x :
  ~ In underscore p ->
  forall cur, split_on underscore (p ++ underscore :: x) cur =
              (cur ++ p) :: split_on underscore x [].
Proof.
  induction p as [|c p IH]; intros Hp cur; simpl.
  - rewrite app_nil_r. reflexivity.
  - destruct (Ascii.eqb c underscore) eqn:E.
    + apply Ascii.eqb_eq in E. subst c. exfalso. apply Hp. left. reflexivity.
    + rewrite IH by (intros H; apply Hp; right; assumption).
      rewrite <- app_assoc. reflexivity.
Qed.

Lemma split_on_hd x :
  forall cur, exists f fs, split_on underscore x cur = f :: fs /\
    (exists y, f = cur ++ y) .
Proof.
  induction x as [|c x IH]; intros cur; simpl.
  - exists cur, []. split; [reflexivity|]. exists []. rewrite app_nil_r. reflexivity.
  - destruct (Ascii.eqb c underscore).
    + exists cur, (split_on underscore x []). split; [reflexivity|].
      exists []. rewrite app_nil_r. reflexivity.
    + destruct (IH (cur ++ [c])) as [f [fs [E [y Ey]]]].
      exists f, fs. split; [assumption|]. exists (c :: y).
      rewrite Ey, <- app_assoc. reflexivity.
Qed.

Lemma timestamp_str_fields stem a rest f fs :
  split_once underscore stem [] = [a; rest] ->
  split_on underscore rest [] = f :: fs ->
  timestamp_str stem =
  match fs with
  | time :: _ => Some (f ++ [underscore] ++ time)
  | [] => None
  end.
Proof.
  intros H1 H2. unfold timestamp_str. rewrite H1. cbn [nth_error].
  rewrite H2. destruct fs; reflexivity.
Qed.

(** The text read from the stem of a file of a source whose name has an
    underscore begins with what follows that underscore, or with an
    underscore. *)
Lemma timestamp_str_of_name p q rest text :
  ~ In underscore p ->
  timestamp_str (p ++ underscore :: q ++ underscore :: rest) = Some text ->
  exists c text', text = c :: text' /\
    (c = underscore \/ exists q', q = c :: q').
Proof.
  intros Hp.
  pose proof (split_once_app p (q ++ underscore :: rest) Hp []) as H1. simpl in H1.
  destruct q as [|c q].
  - rewrite (timestamp_str_fields _ _ _ [] (split_on underscore rest []) H1 eq_refl).
    destruct (split_on underscore rest []); [discriminate|].
    intros H. inversion H. simpl. eauto.
  - destruct (Ascii.eqb c underscore) eqn:E.
    + assert (H2 : split_on underscore ((c :: q) ++ underscore :: rest) [] =
                   [] :: split_on underscore (q ++ underscore :: rest) []).
      { simpl. rewrite E. reflexivity. }
      rewrite (timestamp_str_fields _ _ _ _ _ H1 H2).
      destruct (split_on underscore (q ++ underscore :: rest) []); [discriminate|].
      intros H. inversion H. simpl. eauto.
    + destruct (split_on_hd (q ++ underscore :: rest) [c]) as [f [fs [Ef [y Ey]]]].
      assert (H2 : split_on underscore ((c :: q) ++ underscore :: rest) [] = f :: fs).
      { simpl. rewrite E. exact Ef. }
      rewrite (timestamp_str_fields _ _ _ _ _ H1 H2).
      destruct fs; [discriminate|].
      intros H. inversion H. subst f. simpl.
      eexists. eexists. split; [reflexivity|]. right. eexists. reflexivity.
Qed.

Lemma In_insert_desc x y l : In y (insert_desc x l) -> y = x \/ In y l.
Proof.
  induction l as [|z l IH]; simpl.
  - intros [H|[]]; auto.
  - destruct (str_ltb x z); simpl; intros [H|H]; auto.
    destruct (IH H); auto.
Qed.

Lemma In_sorted_reverse y files : In y (sorted_reverse files) -> In y files.
Proof.
  induction files as [|x files IH]; simpl; [tauto|].
  intros H. apply In_insert_desc in H. destruct H as [->|H]; auto.
Qed.

Lemma first_recent_none strptime cutoff files :
  (forall f text, In f files -> timestamp_str f = Some text -> strptime text = None) ->
  first_recent strptime cutoff files = None.
Proof.
  induction files as [|f files IH]; intros H; simpl; [reflexivity|].
  rewrite IH by (intros f' text Hf; apply H; right; assumption).
  destruct (timestamp_str f) as [text|] eqn:E; [|reflexivity].
  rewrite (H f text (or_introl eq_refl) E). reflexivity.
Qed.

(** X17. The cache of raw files is never found for a source whose name
    has an underscore that is not followed by a digit, as
    [nyc_jobs_posting] and [lighthouse_data]: the text cut out of the
    file name is then taken from the name of the source, not from the
    time stamp, no time is read from it, and [find_recent_raw_file]
    returns [None] for every content of the directory.  For a name
    without an underscore the text is the time stamp.  The reader of
    time stamps is any function that only accepts texts beginning with a
    digit, as [strptime] with [%Y%m%d_%H%M%S] does. *)
Theorem raw_file_cache_never_found (strptime : str -> option Z)
    (p q : str) (directory : list str) (now max_age : Z) :
  (forall text, strptime text <> None ->
     exists c text', text = c :: text' /\ is_digit c = true) ->
  ~ In underscore p ->
  (forall c q', q = c :: q' -> is_digit c = false) ->
  find_recent_raw_file strptime (p ++ underscore :: q) directory now max_age = None
  /\ (forall date time suffix,
        ~ In underscore date -> ~ In underscore time ->
        timestamp_str (p ++ underscore :: date ++ underscore :: time) =
          Some (date ++ [underscore] ++ time) /\
        timestamp_str (p ++ underscore :: date ++ underscore :: time
                         ++ underscore :: suffix) =
          Some (date ++ [underscore] ++ time)).
Proof.
  intros Hstr Hp Hq. split.
  - unfold find_recent_raw_file. apply first_recent_none.
    intros f text Hf Ht.
    apply In_sorted_reverse in Hf. apply filter_In in Hf. destruct Hf as [_ Hf].
    apply startswith_split in Hf. destruct Hf as [rest ->].
    rewrite <- !app_assoc in Ht. simpl in Ht.
    apply timestamp_str_of_name in Ht; [|assumption].
    destruct Ht as [c [text' [-> Hc]]].
    destruct (strptime (c :: text')) eqn:Es; [|reflexivity].
    exfalso.
    destruct (Hstr (c :: text')) as [c' [t' [E Hd]]]; [congruence|].
    inversion E; subst c' t'.
    destruct Hc as [->|[q' ->]]; [discriminate|].
    rewrite (Hq c q' eq_refl) in Hd. discriminate.
  - intros date time suffix Hd Ht.
    assert (G : forall cur, split_on underscore time cur = [cur ++ time]).
    { clear - Ht. induction time as [|c t IH]; intros cur; simpl.
      - rewrite app_nil_r. reflexivity.
      - destruct (Ascii.eqb c underscore) eqn:E.
        + apply Ascii.eqb_eq in E. subst c. exfalso. apply Ht. left. reflexivity.
        + rewrite IH by (intros H; apply Ht; right; assumption).
          rewrite <- app_assoc. reflexivity. }
    split.
    + rewrite (timestamp_str_fields _ p (date ++ underscore :: time) date [time]).
      * reflexivity.
      * apply (split_once_app p _ Hp []).
      * rewrite split_on_app by assumption. rewrite G. reflexivity.
    + rewrite (timestamp_str_fields _ p (date ++ underscore :: time ++ underscore :: suffix)
                 date (time :: split_on underscore suffix [])).
      * reflexivity.
      * apply (split_once_app p _ Hp []).
      * rewrite !split_on_app by assumption. reflexivity.
Qed.

Lemma sample_strptime_digit text :
  sample_strptime text <> None ->
  exists c text', text = c :: text' /\ is_digit c = true.
Proof.
  destruct text as [|c text']; simpl; intros H; [contradiction|].
  exists c, text'. split; [reflexivity|].
  destruct (is_digit c); [reflexivity|contradiction].
Qed.

Lemma raw_file_cache_never_found_witness :
  find_recent_raw_file sample_strptime (lit "nyc" ++ underscore :: lit "jobs_posting")
    [lit "nyc_jobs_posting_20240101_120000"] 100 24 = None.
Proof.
  apply (proj1 (raw_file_cache_never_found sample_strptime (lit "nyc") (lit "jobs_posting")
                  [lit "nyc_jobs_posting_20240101_120000"] 100 24
                  sample_strptime_digit
                  ltac:(vm_compute; intuition discriminate)
                  ltac:(intros c q' E; inversion E; reflexivity))).
Defined.

(** * Orchestration and validation *)

(** X18. Every posting the payroll pass matched is a high quality match:
    in the frame it returns, the rows whose score is at least 0.85,
    which the orchestration counts, are the rows that have a score, and
    they are the rows that have a payroll salary. *)
Theorem high_quality_matches_are_all_matches (payroll : option (list PayrollRow))
    (df : list JobRow) :
  high_quality_matches (calculate_fuzzy_matches_with_payroll payroll df) =
    matched_count (fun r => is_some (best_match_score r))
      (calculate_fuzzy_matches_with_payroll payroll df)
  /\ high_quality_matches (calculate_fuzzy_matches_with_payroll payroll df) =
       matched_count (fun r => is_some (payroll_salary_min r))
         (calculate_fuzzy_matches_with_payroll payroll df).
Proof.
  unfold high_quality_matches, matched_count.
  split; f_equal; apply filter_ext_in; intros r Hr;
    apply payroll_rows_cases in Hr;
    destruct Hr as [[_ [H1 [H2 _]]]|[rows [k [m [mn [mx H]]]]]];
    try (rewrite H1, ?H2; reflexivity);
    destruct H as [_ [_ [_ [_ [Hthr [_ [_ [Hs [Hmn _]]]]]]]]];
    rewrite Hs, ?Hmn; simpl; apply Qleb_le in Hthr;
    unfold payroll_threshold in Hthr; rewrite Hthr; reflexivity.
Qed.

(** Quoting *)

Lemma read_literal_escaped s :
  forall rest,
    match rest with c :: _ => Ascii.eqb c quote = false | [] => True end ->
    read_literal (escaped_value s ++ quote :: rest) = Some (s, rest).
Proof.
  induction s as [|c s IH]; intros rest Hrest.
  - simpl. destruct rest as [|d rest]; [reflexivity|]. rewrite Hrest. reflexivity.
  - unfold escaped_value in *. simpl flat_map.
    destruct (Ascii.eqb c quote) eqn:E.
    + apply Ascii.eqb_eq in E. subst c.
      simpl. rewrite IH by assumption. reflexivity.
    + simpl. rewrite E. rewrite IH by assumption. reflexivity.
Qed.

(** X19. The quoting of the loaders is read back: the text put into the
    statement for a string is a quote, the string with every quote
    doubled, and a quote, and an SQL reader that starts after the opening
    quote gets the string itself and stops at the closing quote, whatever
    quotes the string holds, as long as the text that follows the literal
    does not begin with a quote (the loaders put [, ] or [)]). *)
Theorem quoting_round_trip (value rest : str) :
  match rest with c :: _ => Ascii.eqb c quote = false | [] => True end ->
  exists body,
    row_value (Text value) ++ rest = quote :: body /\
    read_literal body = Some (value, rest).
Proof.
  intros H. exists (escaped_value value ++ quote :: rest). split.
  - simpl. rewrite <- app_assoc. reflexivity.
  - apply read_literal_escaped. assumption.
Qed.

Lemma quoting_round_trip_witness :
  exists body,
    row_value (Text (lit "O'Neil', 'x")) ++ lit ", 1)" = quote :: body /\
    read_literal body = Some (lit "O'Neil', 'x", lit ", 1)").
Proof.
  apply (quoting_round_trip (lit "O'Neil', 'x") (lit ", 1)")). reflexivity.
Defined.

(** Batches *)

Lemma batches_from_concat {A : Type} (b : nat) (rows : list A) :
  0 < b ->
  forall fuel i,
    length rows - i <= fuel ->
    concat (batches_from b fuel i rows) = skipn i rows /\
    Forall (fun batch => 0 < length batch <= b) (batches_from b fuel i rows).
Proof.
  intros Hb. induction fuel as [|fuel IH]; intros i Hfuel.
  - simpl. rewrite skipn_all2 by lia. split; [reflexivity|constructor].
  - simpl. destruct (i <? length rows) eqn:E.
    + apply Nat.ltb_lt in E.
      destruct (IH (i + b)) as [IH1 IH2]; [lia|].
      split.
      * simpl. rewrite IH1.
        replace (i + b) with (b + i) by lia.
        rewrite <- skipn_skipn. apply firstn_skipn.
      * constructor; [|assumption].
        rewrite length_firstn, length_skipn. lia.
    + apply Nat.ltb_ge in E. rewrite skipn_all2 by lia.
      split; [reflexivity|constructor].
Qed.

(** X20. The batches of the loaders split the frame: put end to end they
    are the rows of the frame, in order, each row in one batch, and every
    batch has at least one row and at most 1000. *)
Theorem insert_batches_partition {A : Type} (pandas_df : list A) :
  concat (insert_batches pandas_df) = pandas_df /\
  Forall (fun batch => 0 < length batch <= 1000) (insert_batches pandas_df).
Proof.
  unfold insert_batches.
  destruct (batches_from_concat 1000 pandas_df ltac:(lia) (length pandas_df) 0 ltac:(lia))
    as [H1 H2].
  split; assumption.
Qed.

(** The results of the quality checks *)

Lemma get_set d k v k' :
  dict_get String.eqb (Validation.setitem d k v) k' =
  if String.eqb k k' then Some v else dict_get String.eqb d k'.
Proof.
  unfold Validation.setitem.
  rewrite (dict_get_upsert String.eqb String.eqb_eq). reflexivity.
Qed.

Lemma get_update items :
  forall d k',
    dict_get String.eqb (Validation.update d items) k' =
    match dict_get String.eqb (rev items) k' with
    | Some v => Some v
    | None => dict_get String.eqb d k'
    end.
Proof.
  unfold Validation.update.
  induction items as [|[k v] items IH]; intros d k'; simpl; [reflexivity|].
  rewrite IH, get_set. simpl.
  assert (Happ : forall (l1 l2 : list (string * Q)),
            dict_get String.eqb (l1 ++ l2) k' =
            match dict_get String.eqb l1 k' with
            | Some v => Some v
            | None => dict_get String.eqb l2 k'
            end).
  { induction l1 as [|[a b] l1 IH1]; intros l2; simpl; [reflexivity|].
    destruct (String.eqb a k'); [reflexivity|apply IH1]. }
  rewrite Happ. simpl.
  destruct (dict_get String.eqb (rev items) k'); [reflexivity|].
  destruct (String.eqb k k'); reflexivity.
Qed.

Lemma quality_results_keys q :
  dict_get String.eqb (Validation.run_data_quality_checks q) "total_job_postings"%string =
    Some (inject_Z (Validation.job_postings_count q)) /\
  dict_get String.eqb (Validation.run_data_quality_checks q) "orphaned_duration_records"%string =
    Some (inject_Z (Validation.orphaned_duration_records q)) /\
  dict_get String.eqb (Validation.run_data_quality_checks q) "agency_completeness_pct"%string =
    (if (0 <? Validation.total_records q)%Z
     then Some (Validation.pct (Validation.agency_complete q) (Validation.total_records q))
     else None) /\
  dict_get String.eqb (Validation.run_data_quality_checks q) "title_completeness_pct"%string =
    (if (0 <? Validation.total_records q)%Z
     then Some (Validation.pct (Validation.title_complete q) (Validation.total_records q))
     else None).
Proof.
  unfold Validation.run_data_quality_checks. cbv zeta.
  destruct (0 <? Validation.total_records q)%Z;
    repeat split; repeat (rewrite ?get_update, ?get_set; simpl); reflexivity.
Qed.

(** X21. On an empty table the validation does not report that no job
    postings were found: the completeness percentages are only stored
    when the table has rows, and the test of
    [agency_completeness_pct] raises [KeyError] before the issues are
    reported.  On a table with rows no key is missing, and the issue
    [No job postings found] can only be among the reported ones when
    the two counts of the same table differ. *)
Theorem validation_of_an_empty_table (q : Validation.QueryResults) :
  ((Validation.total_records q <= 0)%Z ->
   Validation.validate_pipeline_execution q =
     Validation.MissingKey "agency_completeness_pct"%string)
  /\ ((0 < Validation.total_records q)%Z ->
      forall key, Validation.validate_pipeline_execution q <> Validation.MissingKey key)
  /\ (forall critical_issues,
        Validation.validate_pipeline_execution q =
          Validation.ValidationFailed critical_issues ->
        In Validation.NoJobPostings critical_issues ->
        Validation.job_postings_count q = 0%Z /\ (0 < Validation.total_records q)%Z).
Proof.
  unfold Validation.validate_pipeline_execution, Validation.validate.
  destruct (quality_results_keys q) as [H1 [H2 [H3 H4]]].
  rewrite H1, H2, H3, H4.
  split; [|split].
  - intros H. assert ((0 <? Validation.total_records q)%Z = false) as ->
      by (apply Z.ltb_ge; assumption).
    reflexivity.
  - intros H key. assert ((0 <? Validation.total_records q)%Z = true) as ->
      by (apply Z.ltb_lt; assumption).
    cbv zeta.
    match goal with |- context [match ?l with [] => _ | _ :: _ => _ end] =>
      destruct l; discriminate end.
  - intros issues.
    destruct (0 <? Validation.total_records q)%Z eqn:Et; [|discriminate].
    apply Z.ltb_lt in Et. cbv zeta.
    destruct (Qeq_bool (inject_Z (Validation.job_postings_count q)) 0) eqn:E0.
    + intros _ _. split; [|assumption].
      apply Qeq_bool_iff in E0. unfold Qeq in E0. simpl in E0. lia.
    + intros H Hin. exfalso.
      match type of H with
      | match ?l with [] => _ | _ :: _ => _ end = _ =>
          assert (Hl : ~ In Validation.NoJobPostings l)
      end.
      { repeat match goal with
               | |- context [if ?b then _ else _] => destruct b
               end;
          simpl; intros G; repeat (destruct G as [G|G]; try discriminate G); try assumption;
          try (apply in_app_or in G; destruct G as [G|G]);
          repeat (destruct G as [G|G]; try discriminate G); try assumption;
          try (apply in_app_or in G; destruct G as [G|G]);
          repeat (destruct G as [G|G]; try discriminate G); assumption. }
      match type of H with
      | match ?l with [] => _ | _ :: _ => _ end = _ =>
          destruct l; [discriminate|]
      end.
      inversion H. subst. contradiction.
Qed.

Lemma validation_of_an_empty_table_witness :
  Validation.validate_pipeline_execution (sample_queries 0) =
    Validation.MissingKey "agency_completeness_pct"%string.
Proof.
  apply (proj1 (validation_of_an_empty_table (sample_queries 0))). simpl. lia.
Defined.
